(** * sniaff-mitmdump-mcp: traffic store, state client and proxy manager

    A shallow embedding of the TypeScript sources

      - [src/core/traffic-store.ts]   (class [TrafficStore])
      - [src/core/state-client.ts]    (class [StateClient])
      - [src/core/proxy-manager.ts]   (class [ProxyManager])
      - [src/core/process-supervisor.ts], [src/utils/port-finder.ts]
      - [src/tools/status-tool.ts], [src/tools/start-tool.ts],
        [src/tools/stop-tool.ts], [src/tools/get-entry-tool.ts]

    Conventions of the embedding.

      - A JavaScript [number] is a [Z]; [NaN] only arises from [parseInt]
        and is an [option Z] there.
      - A JavaScript string is a Rocq [string] whose characters are read as
        code units below 256; [trim], [toLowerCase] and the UTF-8 byte
        length are exact on that range.
      - [Promise]-returning methods are computations of a small state and
        exception monad: they return a value, throw, or never settle. A
        call during which the Node process ends never settles.
      - [JSON.parse] and [JSON.stringify] on log lines are built-ins of the
        platform: the development is parametric in them. The store is
        embedded twice: on logs whose lines are records or no JSON, and,
        in [Raw], on logs where a line may also be [null]. *)

From Stdlib Require Import ZArith Ascii String List Permutation DecimalString.
From stdpp Require Import base option list gmap strings sorting.

Local Open Scope Z_scope.

(** ** JavaScript strings *)

Module Js.

Definition code (c : ascii) : N := N_of_ascii c.

(** [WhiteSpace] and [LineTerminator] code units below 256, the characters
    removed by [String.prototype.trim]. *)
Definition isWhiteSpace (c : ascii) : bool :=
  let n := code c in
  ((n =? 9) || (n =? 10) || (n =? 11) || (n =? 12) || (n =? 13)
   || (n =? 32) || (n =? 160))%N.

Fixpoint trimStart (s : string) : string :=
  match s with
  | EmptyString => EmptyString
  | String c s' => if isWhiteSpace c then trimStart s' else s
  end.

Fixpoint trimEnd (s : string) : string :=
  match s with
  | EmptyString => EmptyString
  | String c s' =>
      match trimEnd s' with
      | EmptyString => if isWhiteSpace c then EmptyString else String c EmptyString
      | r => String c r
      end
  end.

Definition trim (s : string) : string := trimEnd (trimStart s).

Definition LF : ascii := ascii_of_nat 10.

(** [s.split(sep)] for a one-character separator: always at least one
    piece, and a separator at the end yields a last empty piece. *)
Fixpoint split (sep : ascii) (s : string) : list string :=
  match s with
  | EmptyString => [EmptyString]
  | String c s' =>
      if Ascii.eqb c sep then EmptyString :: split sep s'
      else match split sep s' with
           | [] => [String c EmptyString]
           | piece :: pieces => String c piece :: pieces
           end
  end.

(** [l.join(sep)]. *)
Fixpoint join (sep : string) (l : list string) : string :=
  match l with
  | [] => EmptyString
  | [x] => x
  | x :: l' => x +:+ sep +:+ join sep l'
  end.

Definition toLowerChar (c : ascii) : ascii :=
  let n := code c in
  if ((65 <=? n) && (n <=? 90))%N then ascii_of_N (n + 32)
  else if ((192 <=? n) && (n <=? 222) && negb (n =? 215))%N then ascii_of_N (n + 32)
  else c.

Fixpoint toLowerCase (s : string) : string :=
  match s with
  | EmptyString => EmptyString
  | String c s' => String (toLowerChar c) (toLowerCase s')
  end.

Fixpoint startsWith (pat s : string) : bool :=
  match pat, s with
  | EmptyString, _ => true
  | String a pat', String b s' => Ascii.eqb a b && startsWith pat' s'
  | String _ _, EmptyString => false
  end.

(** [s.includes(pat)]: [pat] occurs in [s] as a contiguous substring. *)
Fixpoint includes (pat s : string) : bool :=
  startsWith pat s ||
  match s with
  | EmptyString => false
  | String _ s' => includes pat s'
  end.

(** Size in bytes of the UTF-8 encoding, what [fs.stat] reports for a file
    written from the string. *)
Fixpoint byteLength (s : string) : Z :=
  match s with
  | EmptyString => 0
  | String c s' => (if (code c <? 128)%N then 1 else 2) + byteLength s'
  end.

(** [parseInt] of a one-character string: the digit's value, [None] for
    [NaN]. *)
Definition parseIntChar (c : ascii) : option Z :=
  let n := code c in
  if ((48 <=? n) && (n <=? 57))%N then Some (Z.of_N (n - 48)) else None.

(** [parseInt(s[0])]; [s[0]] of the empty string is [undefined]. *)
Definition parseIntHead (s : string) : option Z :=
  match s with
  | EmptyString => None
  | String c _ => parseIntChar c
  end.

(** Truthiness of an optional string: [undefined] and [''] are falsy. *)
Definition truthy (o : option string) : option string :=
  match o with
  | Some s => if String.eqb s EmptyString then None else Some s
  | None => None
  end.

(** [Array.prototype.slice(start, end)] on integral arguments. *)
Definition slice {A} (l : list A) (start end_ : Z) : list A :=
  let len := Z.of_nat (length l) in
  let k := if start <? 0 then Z.max (len + start) 0 else Z.min start len in
  let final := if end_ <? 0 then Z.max (len + end_) 0 else Z.min end_ len in
  take (Z.to_nat (final - k)) (drop (Z.to_nat k) l).

(** [Array.prototype.sort(cmp)]: the sort is stable, and for a consistent
    comparator its result is the one of this insertion sort, where an
    element moves behind those it compares greater than. *)
Section Sort.
Context {A : Type} (cmp : A -> A -> Z).

Fixpoint insert (x : A) (l : list A) : list A :=
  match l with
  | [] => [x]
  | y :: l' => if cmp x y <=? 0 then x :: y :: l' else y :: insert x l'
  end.

Fixpoint sort (l : list A) : list A :=
  match l with
  | [] => []
  | x :: l' => insert x (sort l')
  end.

End Sort.

(** Decimal rendering of an integer in a template literal. *)
Definition ofZ (z : Z) : string := NilZero.string_of_int (Z.to_int z).

End Js.

(** ** JavaScript values, objects and exceptions *)

#[local] Set Warnings "-register-all,-clear-no-such-hyp".

Inductive JsVal :=
| JUndefined
| JNull
| JBool (b : bool)
| JNum (n : Z)
| JStr (s : string)
| JArr (l : list JsVal)
| JObj (o : list (string * JsVal)).

(** An object is the list of its own enumerable properties in insertion
    order; keys are unique. *)
Abbreviation Obj := (list (string * JsVal)).

Fixpoint obj_get (k : string) (o : Obj) : option JsVal :=
  match o with
  | [] => None
  | (k', v) :: o' => if String.eqb k k' then Some v else obj_get k o'
  end.

(** Defining property [k]: an existing property keeps its place, a new one
    goes last. *)
Fixpoint obj_set (k : string) (v : JsVal) (o : Obj) : Obj :=
  match o with
  | [] => [(k, v)]
  | (k', v') :: o' =>
      if String.eqb k k' then (k, v) :: o' else (k', v') :: obj_set k v o'
  end.

(** [{...target, ...src}]. *)
Definition obj_spread (target src : Obj) : Obj :=
  fold_left (fun acc kv => obj_set (fst kv) (snd kv) acc) src target.

(** Own enumerable properties copied by a spread [...v]: those of an
    object; [undefined], [null], booleans and numbers contribute none.
    ([MitmState] is an object type, so strings and arrays do not occur
    here.) *)
Definition spread_of (v : option JsVal) : Obj :=
  match v with
  | Some (JObj o) => o
  | _ => []
  end.

(** What [JSON.stringify] keeps of a value: properties whose value is
    [undefined] are dropped, [undefined] array elements become [null]. *)
Fixpoint json_of (v : JsVal) : JsVal :=
  match v with
  | JArr l =>
      JArr (map (fun x => match x with JUndefined => JNull | _ => json_of x end) l)
  | JObj o =>
      JObj ((fix props (o : Obj) : Obj :=
               match o with
               | [] => []
               | (k, JUndefined) :: o' => props o'
               | (k, x) :: o' => (k, json_of x) :: props o'
               end) o)
  | _ => v
  end.

Definition json_props (o : Obj) : Obj :=
  match json_of (JObj o) with
  | JObj o' => o'
  | _ => []
  end.

Inductive ErrorCode :=
| SESSION_NOT_FOUND
| SESSION_INVALID_STATE
| PROXY_ALREADY_RUNNING
| PROXY_NOT_RUNNING
| MITMDUMP_NOT_FOUND
| MITMDUMP_START_FAILED
| MITMDUMP_CRASHED
| PORT_UNAVAILABLE
| STATE_READ_FAILED
| STATE_WRITE_FAILED
| DATABASE_ERROR
| QUERY_FAILED
| ENTRY_NOT_FOUND
| INVALID_ARGUMENT
| INTERNAL_ERROR
| TIMEOUT.

(** Thrown values: a [MitmError], or another [Error] with its optional
    [code] ([ENOENT], [EACCES], ...) and its message. *)
Inductive Exn :=
| MitmError (code : ErrorCode) (message : string) (details : Obj)
| JsError (errno : option string) (message : string).

Definition exn_message (e : Exn) : string :=
  match e with
  | MitmError _ m _ => m
  | JsError _ m => m
  end.

Definition exn_errno (e : Exn) : option string :=
  match e with
  | MitmError _ _ _ => None
  | JsError c _ => c
  end.

Definition exn_code (e : Exn) : option ErrorCode :=
  match e with
  | MitmError c _ _ => Some c
  | JsError _ _ => None
  end.

(** ** Asynchronous computations

    An [async] method run to its end on a state [S]: it fulfils with a
    value, rejects with an exception, or never settles (its promise stays
    pending for ever, or the Node process ends first). *)

Inductive Outcome (A : Type) :=
| Ok (a : A)
| Throw (e : Exn)
| Pending.
Arguments Ok {A} a.
Arguments Throw {A} e.
Arguments Pending {A}.

Definition M (S A : Type) : Type := S -> Outcome A * S.

Definition ret {S A} (a : A) : M S A := fun s => (Ok a, s).

Definition bind {S A B} (m : M S A) (k : A -> M S B) : M S B :=
  fun s =>
    match m s with
    | (Ok a, s') => k a s'
    | (Throw e, s') => (Throw e, s')
    | (Pending, s') => (Pending, s')
    end.

Definition throw {S A} (e : Exn) : M S A := fun s => (Throw e, s).

(** A promise that nothing settles. *)
Definition never {S A} : M S A := fun s => (Pending, s).

Definition tryCatch {S A} (body : M S A) (handler : Exn -> M S A) : M S A :=
  fun s =>
    match body s with
    | (Throw e, s') => handler e s'
    | r => r
    end.

Definition get {S} : M S S := fun s => (Ok s, s).
Definition gets {S A} (f : S -> A) : M S A := fun s => (Ok (f s), s).
Definition modify {S} (f : S -> S) : M S unit := fun s => (Ok tt, f s).

(** Running a computation on a component of the state. *)
Definition zoom {S T A} (proj : S -> T) (inj : T -> S -> S) (m : M T A) : M S A :=
  fun s => let '(r, t) := m (proj s) in (r, inj t s).

Declare Scope js_scope.
Delimit Scope js_scope with js.
Notation "'let*' x ':=' m 'in' k" := (bind m (fun x => k))
  (at level 10, x name, m at level 100, k at level 200) : js_scope.
Notation "m ';;' k" := (bind m (fun _ => k))
  (at level 100, k at level 200, right associativity) : js_scope.
Local Open Scope js_scope.

Fixpoint forEach {S A} (l : list A) (body : A -> M S unit) : M S unit :=
  match l with
  | [] => ret tt
  | x :: l' => body x ;; forEach l' body
  end.

(** ** The file system and the logger *)

Inductive FsOp := OpAccess | OpStat | OpRead | OpWrite | OpMkdir.

Inductive LogLevel := debug | info | warn | error.

(** One line of the logger: level and message (timestamp and context
    object are not kept). *)
Definition LogEntry : Type := LogLevel * string.

(** The part of the world below the store: regular files by path with
    their text, the operations the operating system refuses (with the
    error code and message it gives), and what the logger wrote. *)
Record Sys := {
  files : gmap string string;
  fault : FsOp -> string -> option (string * string);
  console : list LogEntry;
}.

Definition set_files (f : gmap string string -> gmap string string) (y : Sys) : Sys :=
  {| files := f (files y); fault := fault y; console := console y |}.

Definition add_log (l : LogEntry) (y : Sys) : Sys :=
  {| files := files y; fault := fault y; console := console y ++ [l] |}.

Definition ENOENT : string := "ENOENT".

Definition io_error (err : string * string) : Exn := JsError (Some (fst err)) (snd err).

Definition no_such_file (p : string) : Exn :=
  JsError (Some ENOENT) ("ENOENT: no such file or directory, open '" +:+ p +:+ "'").

(** A path-taking operation that needs the file to exist. *)
Definition on_file {A} (op : FsOp) (p : string) (f : string -> A) : M Sys A :=
  fun y =>
    match fault y op p with
    | Some err => (Throw (io_error err), y)
    | None =>
        match files y !! p with
        | None => (Throw (no_such_file p), y)
        | Some content => (Ok (f content), y)
        end
    end.

Definition fs_access (p : string) : M Sys unit := on_file OpAccess p (fun _ => tt).

(** [fs.promises.stat(p)], of which only [size] is used. *)
Definition fs_stat (p : string) : M Sys Z := on_file OpStat p Js.byteLength.

Definition fs_readFile (p : string) : M Sys string := on_file OpRead p (fun c => c).

Definition fs_writeFile (p content : string) : M Sys unit :=
  fun y =>
    match fault y OpWrite p with
    | Some err => (Throw (io_error err), y)
    | None => (Ok tt, set_files (insert p content) y)
    end.

Definition logger (lvl : LogLevel) (msg : string) : M Sys unit :=
  modify (add_log (lvl, msg)).

(** ** Records of the traffic log ([types/har.ts], [JsonlEntry]) *)

Abbreviation Headers := (list (string * string)).

Module Request.
Record t := {
  method : string;
  url : string;
  host : string;
  path : string;
  httpVersion : string;
  headers : Headers;
  queryString : Headers;
  bodySize : Z;
  body : option string;
}.
End Request.

Module Response.
Record t := {
  status : Z;
  statusText : string;
  httpVersion : string;
  headers : Headers;
  contentType : string;
  bodySize : Z;
  body : option string;
}.
End Response.

Module Timings.
Record t := {
  blocked : Z;
  dns : Z;
  connect : Z;
  ssl : Z;
  send : Z;
  wait : Z;
  receive : Z;
}.
End Timings.

Module JsonlEntry.
Record t := {
  id : string;
  timestamp : string;
  timestampMs : Z;
  request : Request.t;
  response : Response.t;
  timings : Timings.t;
  serverIPAddress : option string;
}.
End JsonlEntry.

Module HarRequest.
Record t := {
  method : string;
  url : string;
  httpVersion : string;
  headers : Headers;
  queryString : Headers;
  cookies : Headers;
  headersSize : Z;
  bodySize : Z;
}.
End HarRequest.

Module HarContent.
Record t := { size : Z; mimeType : string }.
End HarContent.

Module HarResponse.
Record t := {
  status : Z;
  statusText : string;
  httpVersion : string;
  headers : Headers;
  cookies : Headers;
  content : HarContent.t;
  redirectURL : string;
  headersSize : Z;
  bodySize : Z;
}.
End HarResponse.

Module HarEntry.
Record t := {
  id : string;
  timestamp : string;
  timestampMs : Z;
  request : HarRequest.t;
  response : HarResponse.t;
  timings : Timings.t;
  serverIPAddress : option string;
}.
End HarEntry.

Module Summary.
Record request := { method : string; url : string; bodySize : Z }.
Record response := {
  status : Z;
  statusText : string;
  mimeType : string;
  respBodySize : Z;
}.
Record t := {
  id : string;
  timestamp : string;
  req : request;
  resp : response;
}.
End Summary.

Module QueryOptions.
Record t := {
  startTimeMs : option Z;
  endTimeMs : option Z;
  urlPattern : option string;
  method : option string;
  statusCode : option Z;
  statusRange : option string;
  contentType : option string;
  limit : Z;
  offset : Z;
  includeBody : bool;
}.
End QueryOptions.

Module QueryResult.
Record t := { entries : list Summary.t; total : Z }.
End QueryResult.

Module EntryResult.
Record t := {
  entry : HarEntry.t;
  requestBody : option string;
  responseBody : option string;
}.
End EntryResult.

Module TrafficStats.
Record t := {
  totalEntries : Z;
  totalRequestBytes : Z;
  totalResponseBytes : Z;
  entriesLast60s : Z;
}.
End TrafficStats.

(** The fields of a [TrafficStore] object. *)
Module TrafficStore.
Record t := {
  jsonlPath : string;
  entries : list JsonlEntry.t;
  lastReadPosition : Z;
}.
Definition create (path : string) : t :=
  {| jsonlPath := path; entries := []; lastReadPosition := 0 |}.
Definition set_entries (es : list JsonlEntry.t) (s : t) : t :=
  {| jsonlPath := jsonlPath s; entries := es; lastReadPosition := lastReadPosition s |}.
Definition set_lastReadPosition (n : Z) (s : t) : t :=
  {| jsonlPath := jsonlPath s; entries := entries s; lastReadPosition := n |}.
End TrafficStore.

(** ** Sessions, shared state and the world of the proxy manager *)

Inductive ProxyStatus := pending | starting | ready | stopped | error_.

Definition statusName (s : ProxyStatus) : string :=
  match s with
  | pending => "pending"
  | starting => "starting"
  | ready => "ready"
  | stopped => "stopped"
  | error_ => "error"
  end.

Module ProxySession.
Record t := {
  sessionId : string;
  status : ProxyStatus;
  proxyPort : Z;
  proxyHost : string;
  pid : option Z;
  jsonlPath : string;
  logPath : string;
  startedAt : option string;
  stoppedAt : option string;
}.
Definition set_status (v : ProxyStatus) (s : t) : t :=
  {| sessionId := sessionId s; status := v; proxyPort := proxyPort s;
     proxyHost := proxyHost s; pid := pid s; jsonlPath := jsonlPath s;
     logPath := logPath s; startedAt := startedAt s; stoppedAt := stoppedAt s |}.
Definition set_pid (v : option Z) (s : t) : t :=
  {| sessionId := sessionId s; status := status s; proxyPort := proxyPort s;
     proxyHost := proxyHost s; pid := v; jsonlPath := jsonlPath s;
     logPath := logPath s; startedAt := startedAt s; stoppedAt := stoppedAt s |}.
Definition set_startedAt (v : option string) (s : t) : t :=
  {| sessionId := sessionId s; status := status s; proxyPort := proxyPort s;
     proxyHost := proxyHost s; pid := pid s; jsonlPath := jsonlPath s;
     logPath := logPath s; startedAt := v; stoppedAt := stoppedAt s |}.
Definition set_stoppedAt (v : option string) (s : t) : t :=
  {| sessionId := sessionId s; status := status s; proxyPort := proxyPort s;
     proxyHost := proxyHost s; pid := pid s; jsonlPath := jsonlPath s;
     logPath := logPath s; startedAt := startedAt s; stoppedAt := v |}.
End ProxySession.

(** The fields of [Config] the manager reads. *)
Module Config.
Record t := {
  sessionsDir : string;
  mitmdumpPath : string;
  addonScriptPath : string;
  portRangeStart : Z;
  portRangeEnd : Z;
}.
End Config.

(** [state.json] of a session as a reader finds it: text that is not JSON
    (with the parser's message), the text of [null], or the text of
    another value, given by the own enumerable properties of that value:
    those of an object (for an array or a string they are its elements
    by index, and a number or a boolean has none). The code spreads the
    document and reads its properties [status] and [mitm], which is the
    same for a value and for the object of its properties; only [null]
    differs. A session without entry has no file. *)
Inductive DocFile :=
| Unparseable (message : string)
| Doc (o : Obj)
| DocNull.

(** The world of one manager: the system below, the shared session
    documents and directories, the two maps of the manager, the
    supervisor's table (with the session each child's [onExit] closure is
    bound to), the processes alive, the per-session logs registered with
    the logger, and the state updates started without being awaited. *)
Record World := {
  system : Sys;
  docs : gmap string DocFile;
  dirs : gset string;
  sessions : gmap string ProxySession.t;
  trafficStores : gmap string TrafficStore.t;
  processes : gmap Z string;
  alive : gset Z;
  sessionLogs : gset string;
  detached : list (string * Obj);
}.

Definition set_system (f : Sys -> Sys) (w : World) : World :=
  {| system := f (system w); docs := docs w; dirs := dirs w; sessions := sessions w;
     trafficStores := trafficStores w; processes := processes w; alive := alive w;
     sessionLogs := sessionLogs w; detached := detached w |}.
Definition set_docs (f : gmap string DocFile -> gmap string DocFile) (w : World) : World :=
  {| system := system w; docs := f (docs w); dirs := dirs w; sessions := sessions w;
     trafficStores := trafficStores w; processes := processes w; alive := alive w;
     sessionLogs := sessionLogs w; detached := detached w |}.
Definition set_dirs (f : gset string -> gset string) (w : World) : World :=
  {| system := system w; docs := docs w; dirs := f (dirs w); sessions := sessions w;
     trafficStores := trafficStores w; processes := processes w; alive := alive w;
     sessionLogs := sessionLogs w; detached := detached w |}.
Definition set_sessions
    (f : gmap string ProxySession.t -> gmap string ProxySession.t) (w : World) : World :=
  {| system := system w; docs := docs w; dirs := dirs w; sessions := f (sessions w);
     trafficStores := trafficStores w; processes := processes w; alive := alive w;
     sessionLogs := sessionLogs w; detached := detached w |}.
Definition set_trafficStores
    (f : gmap string TrafficStore.t -> gmap string TrafficStore.t) (w : World) : World :=
  {| system := system w; docs := docs w; dirs := dirs w; sessions := sessions w;
     trafficStores := f (trafficStores w); processes := processes w; alive := alive w;
     sessionLogs := sessionLogs w; detached := detached w |}.
Definition set_processes (f : gmap Z string -> gmap Z string) (w : World) : World :=
  {| system := system w; docs := docs w; dirs := dirs w; sessions := sessions w;
     trafficStores := trafficStores w; processes := f (processes w); alive := alive w;
     sessionLogs := sessionLogs w; detached := detached w |}.
Definition set_alive (f : gset Z -> gset Z) (w : World) : World :=
  {| system := system w; docs := docs w; dirs := dirs w; sessions := sessions w;
     trafficStores := trafficStores w; processes := processes w; alive := f (alive w);
     sessionLogs := sessionLogs w; detached := detached w |}.
Definition set_sessionLogs (f : gset string -> gset string) (w : World) : World :=
  {| system := system w; docs := docs w; dirs := dirs w; sessions := sessions w;
     trafficStores := trafficStores w; processes := processes w; alive := alive w;
     sessionLogs := f (sessionLogs w); detached := detached w |}.
Definition set_detached (f : list (string * Obj) -> list (string * Obj)) (w : World) : World :=
  {| system := system w; docs := docs w; dirs := dirs w; sessions := sessions w;
     trafficStores := trafficStores w; processes := processes w; alive := alive w;
     sessionLogs := sessionLogs w; detached := f (detached w) |}.

(** What becomes of a child in the 100 ms [spawn] waits: the system gives
    it no pid; it has a pid and emits ['error']; it exits (with a code, or
    killed by a signal: then the code is [null]); or it is still running. *)
Inductive SpawnOutcome :=
| SpawnNoPid
| SpawnError (pid : Z) (message : string)
| SpawnExited (pid : Z) (code : option Z) (signal : option string)
| SpawnRunning (pid : Z).

(** What the surroundings decide during a call: the clock, which ports
    bind, whether the logger can open the session log, what becomes of
    the spawned child, and how a child answers SIGTERM within the 5 s
    that [kill] waits (its exit code and signal), if it does. *)
Module Env.
Record t := {
  nowISO : string;
  nowMs : Z;
  isPortAvailable : Z -> bool;
  sessionLogError : option string;
  spawned : SpawnOutcome;
  exitOnSigterm : option (option Z * option string);
}.
End Env.

Module StartProxyInput.
Record t := {
  sessionId : string;
  port : option Z;
  listenHost : option string;
}.
End StartProxyInput.

(** What [startProxy] has fixed when it enters its [try] block. *)
Module Started.
Record t := {
  port : Z;
  listenHost : string;
  jsonlPath : string;
  logPath : string;
  session : ProxySession.t;
}.
End Started.

(** The answer of a tool: the object serialised into its text content, and
    the [isError] flag. *)
Module ToolResponse.
Record t := { isError : bool; payload : Obj }.
End ToolResponse.

Definition codeName (c : ErrorCode) : string :=
  match c with
  | SESSION_NOT_FOUND => "SESSION_NOT_FOUND"
  | SESSION_INVALID_STATE => "SESSION_INVALID_STATE"
  | PROXY_ALREADY_RUNNING => "PROXY_ALREADY_RUNNING"
  | PROXY_NOT_RUNNING => "PROXY_NOT_RUNNING"
  | MITMDUMP_NOT_FOUND => "MITMDUMP_NOT_FOUND"
  | MITMDUMP_START_FAILED => "MITMDUMP_START_FAILED"
  | MITMDUMP_CRASHED => "MITMDUMP_CRASHED"
  | PORT_UNAVAILABLE => "PORT_UNAVAILABLE"
  | STATE_READ_FAILED => "STATE_READ_FAILED"
  | STATE_WRITE_FAILED => "STATE_WRITE_FAILED"
  | DATABASE_ERROR => "DATABASE_ERROR"
  | QUERY_FAILED => "QUERY_FAILED"
  | ENTRY_NOT_FOUND => "ENTRY_NOT_FOUND"
  | INVALID_ARGUMENT => "INVALID_ARGUMENT"
  | INTERNAL_ERROR => "INTERNAL_ERROR"
  | TIMEOUT => "TIMEOUT"
  end.

(** ** [TrafficStore] ([core/traffic-store.ts]) *)

Section Platform.

(** [JSON.parse(line) as JsonlEntry] ([None] when it throws) and
    [JSON.stringify(e)] for a log record. *)
Context (JSON_parse : string -> option JsonlEntry.t).
Context (JSON_stringify : JsonlEntry.t -> string).

(** A store method runs on the store object and the system below it. *)
Abbreviation St := (TrafficStore.t * Sys)%type.

Definition this : M St TrafficStore.t := gets fst.
Definition set_this (f : TrafficStore.t -> TrafficStore.t) : M St unit :=
  modify (fun s => (f (fst s), snd s)).
Definition sys {A} (m : M Sys A) : M St A :=
  zoom snd (fun y s => (fst s, y)) m.

Definition initialize : M St unit :=
  let* t := this in
  tryCatch
    (sys (fs_access (TrafficStore.jsonlPath t)))
    (fun _ => sys (fs_writeFile (TrafficStore.jsonlPath t) EmptyString));;
  sys (logger info "Traffic store initialized").

Definition nonEmpty (line : string) : bool := negb (String.eqb line EmptyString).

Definition splitLines (content : string) : list string :=
  List.filter (fun line => nonEmpty line) (Js.split Js.LF (Js.trim content)).

Definition reloadEntries : M St unit :=
  let* t := this in
  tryCatch
    (let* size := sys (fs_stat (TrafficStore.jsonlPath t)) in
     if size <=? TrafficStore.lastReadPosition t then ret tt
     else
       let* content := sys (fs_readFile (TrafficStore.jsonlPath t)) in
       let lines := splitLines content in
       set_this (TrafficStore.set_entries []);;
       forEach lines (fun line =>
         match JSON_parse line with
         | Some entry =>
             set_this (fun s =>
               TrafficStore.set_entries (TrafficStore.entries s ++ [entry]) s)
         | None => sys (logger warn "Failed to parse JSONL line")
         end);;
       set_this (TrafficStore.set_lastReadPosition size);;
       sys (logger debug "Reloaded entries"))
    (fun error =>
       match exn_errno error with
       | Some c => if String.eqb c ENOENT then ret tt else throw error
       | None => throw error
       end).

Definition byStartTime (o : QueryOptions.t) (l : list JsonlEntry.t) :=
  match QueryOptions.startTimeMs o with
  | Some t0 => List.filter (fun e => JsonlEntry.timestampMs e >=? t0) l
  | None => l
  end.

Definition byEndTime (o : QueryOptions.t) (l : list JsonlEntry.t) :=
  match QueryOptions.endTimeMs o with
  | Some t1 => List.filter (fun e => JsonlEntry.timestampMs e <=? t1) l
  | None => l
  end.

Definition byUrlPattern (o : QueryOptions.t) (l : list JsonlEntry.t) :=
  match Js.truthy (QueryOptions.urlPattern o) with
  | Some p =>
      let pattern := Js.toLowerCase p in
      List.filter (fun e =>
        Js.includes pattern (Js.toLowerCase (Request.url (JsonlEntry.request e)))) l
  | None => l
  end.

Definition byMethod (o : QueryOptions.t) (l : list JsonlEntry.t) :=
  match Js.truthy (QueryOptions.method o) with
  | Some m =>
      List.filter (fun e => String.eqb (Request.method (JsonlEntry.request e)) m) l
  | None => l
  end.

Definition byStatusCode (o : QueryOptions.t) (l : list JsonlEntry.t) :=
  match QueryOptions.statusCode o with
  | Some c => List.filter (fun e => Response.status (JsonlEntry.response e) =? c) l
  | None => l
  end.

(** [e.response.status >= rangeStart && e.response.status <= rangeEnd]
    with [rangeStart = parseInt(statusRange[0]) * 100]; comparisons with
    [NaN] are false. *)
Definition inStatusRange (range : string) (e : JsonlEntry.t) : bool :=
  match Js.parseIntHead range with
  | Some d =>
      let rangeStart := d * 100 in
      let rangeEnd := rangeStart + 99 in
      (Response.status (JsonlEntry.response e) >=? rangeStart)
      && (Response.status (JsonlEntry.response e) <=? rangeEnd)
  | None => false
  end.

Definition byStatusRange (o : QueryOptions.t) (l : list JsonlEntry.t) :=
  match Js.truthy (QueryOptions.statusRange o) with
  | Some r => List.filter (fun e => inStatusRange r e) l
  | None => l
  end.

Definition byContentType (o : QueryOptions.t) (l : list JsonlEntry.t) :=
  match Js.truthy (QueryOptions.contentType o) with
  | Some c =>
      let ct := Js.toLowerCase c in
      List.filter (fun e => Js.includes ct
          (Js.toLowerCase (Response.contentType (JsonlEntry.response e)))) l
  | None => l
  end.

(** The filters of [query], in the order the method applies them. *)
Definition applyFilters (o : QueryOptions.t) (l : list JsonlEntry.t) : list JsonlEntry.t :=
  byContentType o (byStatusRange o (byStatusCode o (byMethod o
    (byUrlPattern o (byEndTime o (byStartTime o l)))))).

(** The comparator [(a, b) => b.timestampMs - a.timestampMs]. *)
Definition newestFirst (a b : JsonlEntry.t) : Z :=
  JsonlEntry.timestampMs b - JsonlEntry.timestampMs a.

Definition toSummary (e : JsonlEntry.t) : Summary.t :=
  {| Summary.id := JsonlEntry.id e;
     Summary.timestamp := JsonlEntry.timestamp e;
     Summary.req :=
       {| Summary.method := Request.method (JsonlEntry.request e);
          Summary.url := Request.url (JsonlEntry.request e);
          Summary.bodySize := Request.bodySize (JsonlEntry.request e) |};
     Summary.resp :=
       {| Summary.status := Response.status (JsonlEntry.response e);
          Summary.statusText := Response.statusText (JsonlEntry.response e);
          Summary.mimeType := Response.contentType (JsonlEntry.response e);
          Summary.respBodySize := Response.bodySize (JsonlEntry.response e) |} |}.

Definition query (options : QueryOptions.t) : M St QueryResult.t :=
  reloadEntries;;
  let* t := this in
  let filtered := applyFilters options (TrafficStore.entries t) in
  let sorted := Js.sort newestFirst filtered in
  let total := Z.of_nat (length sorted) in
  let paginated :=
    Js.slice sorted (QueryOptions.offset options)
      (QueryOptions.offset options + QueryOptions.limit options) in
  ret {| QueryResult.entries := map toSummary paginated; QueryResult.total := total |}.

Definition toHarEntry (e : JsonlEntry.t) : HarEntry.t :=
  let rq := JsonlEntry.request e in
  let rs := JsonlEntry.response e in
  {| HarEntry.id := JsonlEntry.id e;
     HarEntry.timestamp := JsonlEntry.timestamp e;
     HarEntry.timestampMs := JsonlEntry.timestampMs e;
     HarEntry.request :=
       {| HarRequest.method := Request.method rq;
          HarRequest.url := Request.url rq;
          HarRequest.httpVersion := Request.httpVersion rq;
          HarRequest.headers := Request.headers rq;
          HarRequest.queryString := Request.queryString rq;
          HarRequest.cookies := [];
          HarRequest.headersSize := 0;
          HarRequest.bodySize := Request.bodySize rq |};
     HarEntry.response :=
       {| HarResponse.status := Response.status rs;
          HarResponse.statusText := Response.statusText rs;
          HarResponse.httpVersion := Response.httpVersion rs;
          HarResponse.headers := Response.headers rs;
          HarResponse.cookies := [];
          HarResponse.content :=
            {| HarContent.size := Response.bodySize rs;
               HarContent.mimeType := Response.contentType rs |};
          HarResponse.redirectURL := EmptyString;
          HarResponse.headersSize := 0;
          HarResponse.bodySize := Response.bodySize rs |};
     HarEntry.timings := JsonlEntry.timings e;
     HarEntry.serverIPAddress := JsonlEntry.serverIPAddress e |}.

Definition getEntry (entryId : string) : M St (option EntryResult.t) :=
  reloadEntries;;
  let* t := this in
  match List.find (fun e => String.eqb (JsonlEntry.id e) entryId) (TrafficStore.entries t) with
  | None => ret None
  | Some jsonlEntry =>
      ret (Some {| EntryResult.entry := toHarEntry jsonlEntry;
                   EntryResult.requestBody := Request.body (JsonlEntry.request jsonlEntry);
                   EntryResult.responseBody := Response.body (JsonlEntry.response jsonlEntry) |})
  end.

(** The records [clear] keeps. *)
Definition retained (beforeTimeMs : option Z) (es : list JsonlEntry.t) : list JsonlEntry.t :=
  match beforeTimeMs with
  | Some t0 => List.filter (fun e => JsonlEntry.timestampMs e >=? t0) es
  | None => []
  end.

(** The text [clear] writes. *)
Definition logText (es : list JsonlEntry.t) : string :=
  let content := Js.join (String Js.LF EmptyString) (map JSON_stringify es) in
  if String.eqb content EmptyString then EmptyString else content +:+ String Js.LF EmptyString.

Definition clear (beforeTimeMs : option Z) : M St Z :=
  reloadEntries;;
  let* t := this in
  let originalCount := Z.of_nat (length (TrafficStore.entries t)) in
  set_this (TrafficStore.set_entries (retained beforeTimeMs (TrafficStore.entries t)));;
  let* t' := this in
  let cleared := originalCount - Z.of_nat (length (TrafficStore.entries t')) in
  sys (fs_writeFile (TrafficStore.jsonlPath t') (logText (TrafficStore.entries t')));;
  let* size := sys (fs_stat (TrafficStore.jsonlPath t')) in
  set_this (TrafficStore.set_lastReadPosition size);;
  ret cleared.

(** The loop of [getStats] over the entries, from the three counters. *)
Definition accumulate (sixtySecondsAgo : Z) (acc : Z * Z * Z) (e : JsonlEntry.t) : Z * Z * Z :=
  let '(totalRequestBytes, totalResponseBytes, entriesLast60s) := acc in
  (totalRequestBytes + Request.bodySize (JsonlEntry.request e),
   totalResponseBytes + Response.bodySize (JsonlEntry.response e),
   if JsonlEntry.timestampMs e >=? sixtySecondsAgo
   then entriesLast60s + 1 else entriesLast60s).

(** [getStats], with the value [Date.now()] gives at the call. *)
Definition getStats (nowMs : Z) : M St TrafficStats.t :=
  reloadEntries;;
  let* t := this in
  let sixtySecondsAgo := nowMs - 60000 in
  let '(totalRequestBytes, totalResponseBytes, entriesLast60s) :=
    fold_left (accumulate sixtySecondsAgo) (TrafficStore.entries t) (0, 0, 0) in
  ret {| TrafficStats.totalEntries := Z.of_nat (length (TrafficStore.entries t));
         TrafficStats.totalRequestBytes := totalRequestBytes;
         TrafficStats.totalResponseBytes := totalResponseBytes;
         TrafficStats.entriesLast60s := entriesLast60s |}.

Definition close : M St unit :=
  set_this (TrafficStore.set_entries []);;
  set_this (TrafficStore.set_lastReadPosition 0);;
  sys (logger info "Traffic store closed").

(** ** [StateClient] and [ProxyManager] *)

Context (config : Config.t).

Definition inSystem {A} (m : M Sys A) : M World A :=
  zoom system (fun y w => set_system (fun _ => y) w) m.

Definition log (lvl : LogLevel) (msg : string) : M World unit :=
  inSystem (logger lvl msg).

(** [path.join] of two segments that need no normalisation. *)
Definition path_join (a b : string) : string := a +:+ "/" +:+ b.

Definition getStatePath (sessionId : string) : string :=
  path_join (path_join (Config.sessionsDir config) sessionId) "state.json".

Definition getMitmDir (sessionId : string) : string :=
  path_join (path_join (Config.sessionsDir config) sessionId) "mitm".

(** [readFile] and [JSON.parse] of the session document; [None] is the
    value [null]. *)
Definition readDocument (sessionId : string) : M World (option Obj) :=
  fun w =>
    match fault (system w) OpRead (getStatePath sessionId) with
    | Some err => (Throw (io_error err), w)
    | None =>
        match docs w !! sessionId with
        | None => (Throw (no_such_file (getStatePath sessionId)), w)
        | Some (Unparseable msg) => (Throw (JsError None msg), w)
        | Some (Doc o) => (Ok (Some o), w)
        | Some DocNull => (Ok None, w)
        end
    end.

Definition isENOENT (e : Exn) : bool :=
  match exn_errno e with
  | Some c => String.eqb c ENOENT
  | None => false
  end.

Definition read (sessionId : string) : M World (option Obj) :=
  tryCatch (readDocument sessionId)
    (fun error =>
       if isENOENT error then
         throw (MitmError SESSION_NOT_FOUND
                  ("Session not found: " +:+ sessionId
                   +:+ ". Create a session first with core.start_session()")
                  [("sessionId", JStr sessionId)])
       else
         throw (MitmError STATE_READ_FAILED
                  ("Failed to read session state: " +:+ exn_message error)
                  [("sessionId", JStr sessionId);
                   ("statePath", JStr (getStatePath sessionId))])).

(** [writeFile(statePath, JSON.stringify(updated, null, 2))]: the document
    then denotes what [JSON.stringify] keeps of [updated]. *)
Definition writeDocument (sessionId : string) (updated : Obj) : M World unit :=
  fun w =>
    match fault (system w) OpWrite (getStatePath sessionId) with
    | Some err => (Throw (io_error err), w)
    | None => (Ok tt, set_docs (insert sessionId (Doc (json_props updated))) w)
    end.

(** [o.k], [undefined] when the object has no such property. *)
Definition propOr (k : string) (o : Obj) : JsVal := default JUndefined (obj_get k o).

(** [v === s] for a string [s]. *)
Definition isStr (v : JsVal) (s : string) : bool :=
  match v with
  | JStr s' => String.eqb s' s
  | _ => false
  end.

(** [{ ...current, mitm: { ...current.mitm, ...mitm } }]. *)
Definition mergeMitm (current mitm : Obj) : Obj :=
  obj_set "mitm" (JObj (obj_spread (spread_of (obj_get "mitm" current)) mitm)) current.

(** The [TypeError] of reading the property [k] of [null]. *)
Definition nullProperty (k : string) : Exn :=
  JsError None ("Cannot read properties of null (reading '" +:+ k +:+ "')").

(** [state.k] for the value [read] returned. *)
Definition property (k : string) (state : option Obj) : M World JsVal :=
  match state with
  | Some o => ret (propOr k o)
  | None => throw (nullProperty k)
  end.

(** [updateMitm]; [current.mitm] is read before the [try] block, so that
    on a document that is [null] the [TypeError] leaves as it is. *)
Definition updateMitm (sessionId : string) (mitm : Obj) : M World Obj :=
  let* current := read sessionId in
  match current with
  | None => throw (nullProperty "mitm")
  | Some current =>
      let updated := mergeMitm current mitm in
      tryCatch
        (writeDocument sessionId updated;;
         log debug "Updated mitm state";;
         ret updated)
        (fun error =>
           throw (MitmError STATE_WRITE_FAILED
                    ("Failed to write session state: " +:+ exn_message error)
                    [("sessionId", JStr sessionId);
                     ("statePath", JStr (getStatePath sessionId))]))
  end.

Definition ensureMitmDir (sessionId : string) : M World string :=
  let mitmDir := getMitmDir sessionId in
  fun w =>
    match fault (system w) OpMkdir mitmDir with
    | Some err => (Throw (io_error err), w)
    | None => (Ok mitmDir, set_dirs (fun d => {[mitmDir]} ∪ d) w)
    end.

(** [PortFinder.findAvailablePort]: the loop over [startPort..endPort]. *)
Fixpoint scanPorts (available : Z -> bool) (n : nat) (port : Z) : option Z :=
  match n with
  | O => None
  | S n' => if available port then Some port else scanPorts available n' (port + 1)
  end.

Definition findAvailablePort (available : Z -> bool) (startPort endPort : Z) : option Z :=
  scanPorts available (Z.to_nat (endPort - startPort + 1)) startPort.

(** [`${x}`] for a value that may be [null]. *)
Definition showCode (c : option Z) : string :=
  match c with Some n => Js.ofZ n | None => "null" end.
Definition showSignal (s : option string) : string :=
  match s with Some n => n | None => "null" end.

Definition getSession (sessionId : string) : M World (option ProxySession.t) :=
  gets (fun w => sessions w !! sessionId).

(** Assignment to a field of the session object held in the map. *)
Definition setSession (sessionId : string) (f : ProxySession.t -> ProxySession.t) : M World unit :=
  modify (set_sessions (alter f sessionId)).

Definition exitMessage (code : option Z) (signal : option string) : string :=
  "Process exited with code " +:+ showCode code +:+ ", signal " +:+ showSignal signal.

(** [handleProcessExit]; the state update is started and not awaited. *)
Definition handleProcessExit (sessionId : string) (code : option Z) (signal : option string)
    : M World unit :=
  log info "Mitmdump process exited";;
  let* session := getSession sessionId in
  match session with
  | Some s =>
      match ProxySession.status s with
      | ready =>
          setSession sessionId (ProxySession.set_status error_);;
          modify (set_detached (fun q =>
            q ++ [(sessionId,
                   [("status", JStr "error");
                    ("error", JStr (exitMessage code signal))])]))
      | _ => ret tt
      end
  | None => ret tt
  end.

(** The update started by [handleProcessExit] running to its end, with
    its [catch]. *)
Definition settleDetached : M World unit :=
  let* w := get in
  match detached w with
  | [] => ret tt
  | (sessionId, patch) :: rest =>
      modify (set_detached (fun _ => rest));;
      tryCatch (updateMitm sessionId patch;; ret tt)
        (fun _ => log error "Failed to update state after crash")
  end.

(** The ['exit'] listener [spawn] puts on a child: the process is gone,
    it leaves the supervisor's table, and [onExit] runs. *)
Definition childExit (pid : Z) (code : option Z) (signal : option string) : M World unit :=
  let* w := get in
  modify (set_alive (fun a => a ∖ {[pid]}));;
  modify (set_processes (delete pid));;
  match processes w !! pid with
  | Some sessionId => handleProcessExit sessionId code signal
  | None => ret tt
  end.

(** An ['error'] event that nothing listens to: [emit] throws, no
    handler takes the exception ([main] installs none) and the Node
    process ends. No call of the manager settles any more and nothing
    further is written; what the process held in memory is gone. *)
Definition processEnds {A} : M World A := never.

(** [ProcessSupervisor.spawn] of the capture process of [sessionId].

    Without a pid the promise is rejected and [spawn] returns before it
    has put its ['error'] listener on the child; the ['error'] event the
    child emits on the next tick ends the Node process, before the
    [catch] block of the caller gets past its first [await]. With a pid,
    an ['error'] event reaches the listener, which takes the child out of
    the table and emits ['error'] on the supervisor, where nothing
    listens: the process ends before [reject] is called.

    A child that exits within the 100 ms runs the ['exit'] listener. When
    the timer fires, [exitCode] is the exit code, or [null] for a child
    killed by a signal: with a code the promise is left pending, with
    [null] it resolves. *)
Definition spawn (env : Env.t) (sessionId : string) : M World Z :=
  match Env.spawned env with
  | SpawnNoPid => processEnds
  | SpawnError pid message =>
      modify (set_processes (insert pid sessionId));;
      modify (set_alive (fun a => {[pid]} ∪ a));;
      modify (set_processes (delete pid));;
      processEnds
  | SpawnExited pid code signal =>
      modify (set_processes (insert pid sessionId));;
      childExit pid code signal;;
      match code with
      | Some _ => never
      | None => ret pid
      end
  | SpawnRunning pid =>
      modify (set_processes (insert pid sessionId));;
      modify (set_alive (fun a => {[pid]} ∪ a));;
      ret pid
  end.

Definition isRunning (pid : Z) : M World bool :=
  gets (fun w => bool_decide (pid ∈ alive w)).

(** [ProcessSupervisor.kill(pid)] with SIGTERM. *)
Definition kill (env : Env.t) (pid : Z) : M World unit :=
  let* w := get in
  match processes w !! pid with
  | None => log warn "Process not found for kill"
  | Some _ =>
      match Env.exitOnSigterm env with
      | Some (code, signal) => childExit pid code signal
      | None => modify (set_alive (fun a => a ∖ {[pid]}))
      end
  end.

(** [Logger.registerSessionLog] records the log file of the session (it
    makes the directory on a best effort first) and [unregisterSessionLog]
    forgets it. The logger of [utils/logger.ts] never rejects;
    [Env.sessionLogError] stands for a logger that does. *)
Definition registerSessionLog (env : Env.t) (sessionId : string) : M World unit :=
  match Env.sessionLogError env with
  | Some message => throw (JsError None message)
  | None => modify (set_sessionLogs (fun l => {[sessionId]} ∪ l))
  end.

Definition unregisterSessionLog (sessionId : string) : M World unit :=
  modify (set_sessionLogs (fun l => l ∖ {[sessionId]})).

(** A method of the store of [sessionId], when the map holds one. *)
Definition onStore {A} (sessionId : string) (m : M St A) : M World (option A) :=
  fun w =>
    match trafficStores w !! sessionId with
    | None => (Ok None, w)
    | Some store =>
        let '(r, (store', y)) := m (store, system w) in
        (match r with
         | Ok a => Ok (Some a)
         | Throw e => Throw e
         | Pending => Pending
         end,
         set_trafficStores (insert sessionId store') (set_system (fun _ => y) w))
    end.

Definition when (b : bool) (m : M World unit) : M World unit :=
  if b then m else ret tt.

Definition isActive (s : ProxyStatus) : bool :=
  match s with
  | ready | starting => true
  | _ => false
  end.

(** [input.port || await this.portFinder.findAvailablePort(...)]. *)
Definition resolvePort (env : Env.t) (port : option Z) : option Z :=
  let find :=
    findAvailablePort (Env.isPortAvailable env)
      (Config.portRangeStart config) (Config.portRangeEnd config) in
  match port with
  | Some p => if p =? 0 then find else Some p
  | None => find
  end.

Definition portRangeText : string :=
  Js.ofZ (Config.portRangeStart config) +:+ "-" +:+ Js.ofZ (Config.portRangeEnd config).

(** [startProxy] up to its [try] block. *)
Definition startSetup (env : Env.t) (input : StartProxyInput.t) : M World Started.t :=
  let sessionId := StartProxyInput.sessionId input in
  let* existing := getSession sessionId in
  match existing with
  | Some existing =>
      when (isActive (ProxySession.status existing))
        (throw (MitmError PROXY_ALREADY_RUNNING
                  ("Proxy already running for session: " +:+ sessionId)
                  [("sessionId", JStr sessionId);
                   ("status", JStr (statusName (ProxySession.status existing)))]))
  | None => ret tt
  end;;
  let* sessionState := read sessionId in
  let* status := property "status" sessionState in
  when (negb (isStr status "active"))
    (throw (MitmError SESSION_INVALID_STATE
              ("Session is not active: " +:+ sessionId)
              [("sessionId", JStr sessionId); ("status", status)]));;
  match resolvePort env (StartProxyInput.port input) with
  | None | Some 0 =>
      throw (MitmError PORT_UNAVAILABLE
               ("No available port in range " +:+ portRangeText)
               [("portRangeStart", JNum (Config.portRangeStart config));
                ("portRangeEnd", JNum (Config.portRangeEnd config))])
  | Some port =>
      let listenHost := default "0.0.0.0" (Js.truthy (StartProxyInput.listenHost input)) in
      let* mitmDir := ensureMitmDir sessionId in
      let jsonlPath := path_join mitmDir "traffic.jsonl" in
      let logPath := path_join mitmDir "mitmdump.log" in
      let session :=
        {| ProxySession.sessionId := sessionId;
           ProxySession.status := starting;
           ProxySession.proxyPort := port;
           ProxySession.proxyHost := listenHost;
           ProxySession.pid := None;
           ProxySession.jsonlPath := jsonlPath;
           ProxySession.logPath := logPath;
           ProxySession.startedAt := None;
           ProxySession.stoppedAt := None |} in
      modify (set_sessions (insert sessionId session));;
      registerSessionLog env sessionId;;
      updateMitm sessionId
        [("status", JStr "starting");
         ("proxyPort", JNum port);
         ("proxyHost", JStr listenHost)];;
      ret {| Started.port := port; Started.listenHost := listenHost;
             Started.jsonlPath := jsonlPath; Started.logPath := logPath;
             Started.session := session |}
  end.

(** [new TrafficStore(jsonlPath, logger)] and its [initialize()]. *)
Definition newTrafficStore (jsonlPath : string) : M World TrafficStore.t :=
  fun w =>
    let '(r, (store, y)) := initialize (TrafficStore.create jsonlPath, system w) in
    (match r with
     | Ok _ => Ok store
     | Throw e => Throw e
     | Pending => Pending
     end,
     set_system (fun _ => y) w).

(** The [try] block of [startProxy]. *)
Definition startAttempt (env : Env.t) (sessionId : string) (c : Started.t)
    : M World ProxySession.t :=
  let* trafficStore := newTrafficStore (Started.jsonlPath c) in
  modify (set_trafficStores (insert sessionId trafficStore));;
  log info "Starting mitmdump";;
  let* pid := spawn env sessionId in
  setSession sessionId (ProxySession.set_pid (Some pid));;
  setSession sessionId (ProxySession.set_status ready);;
  setSession sessionId (ProxySession.set_startedAt (Some (Env.nowISO env)));;
  updateMitm sessionId
    [("status", JStr "ready");
     ("proxyPort", JNum (Started.port c));
     ("proxyHost", JStr (Started.listenHost c));
     ("pid", JNum pid);
     ("androidProxyConfig",
      JObj [("host", JStr "10.0.2.2"); ("port", JNum (Started.port c))])];;
  log info "Mitmdump started";;
  ret (ProxySession.set_startedAt (Some (Env.nowISO env))
         (ProxySession.set_status ready
            (ProxySession.set_pid (Some pid) (Started.session c)))).

(** The [catch] block of [startProxy]. *)
Definition startFailed (sessionId : string) (error : Exn) : M World ProxySession.t :=
  setSession sessionId (ProxySession.set_status error_);;
  updateMitm sessionId
    [("status", JStr "error"); ("error", JStr (exn_message error))];;
  throw (MitmError MITMDUMP_START_FAILED
           ("Failed to start mitmdump: " +:+ exn_message error)
           [("sessionId", JStr sessionId)]).

Definition startProxy (env : Env.t) (input : StartProxyInput.t) : M World ProxySession.t :=
  let sessionId := StartProxyInput.sessionId input in
  let* c := startSetup env input in
  tryCatch (startAttempt env sessionId c) (startFailed sessionId).

(** [if (session.pid && this.supervisor.isRunning(session.pid)) await
    this.supervisor.kill(session.pid)]. *)
Definition killIfRunning (env : Env.t) (pid : option Z) : M World unit :=
  match pid with
  | Some pid =>
      let* running := if pid =? 0 then ret false else isRunning pid in
      when running (kill env pid)
  | None => ret tt
  end.

(** [stopProxy] from its first log line up to the state update: the
    process is killed, the store closed and dropped, the session marked. *)
Definition stopTeardown (env : Env.t) (sessionId : string) (session : ProxySession.t)
    : M World unit :=
  log info "Stopping proxy";;
  killIfRunning env (ProxySession.pid session);;
  onStore sessionId close;;
  modify (set_trafficStores (delete sessionId));;
  setSession sessionId (ProxySession.set_status stopped);;
  setSession sessionId (ProxySession.set_stoppedAt (Some (Env.nowISO env))).

Definition stopProxy (env : Env.t) (sessionId : string) : M World unit :=
  let* session := getSession sessionId in
  match session with
  | None =>
      throw (MitmError PROXY_NOT_RUNNING
               ("No proxy running for session: " +:+ sessionId)
               [("sessionId", JStr sessionId)])
  | Some session =>
      stopTeardown env sessionId session;;
      updateMitm sessionId [("status", JStr "stopped"); ("pid", JUndefined)];;
      unregisterSessionLog sessionId;;
      modify (set_sessions (delete sessionId));;
      log info "Proxy stopped"
  end.

Definition statsObject (s : TrafficStats.t) : JsVal :=
  JObj [("totalEntries", JNum (TrafficStats.totalEntries s));
        ("totalRequestBytes", JNum (TrafficStats.totalRequestBytes s));
        ("totalResponseBytes", JNum (TrafficStats.totalResponseBytes s));
        ("entriesLast60s", JNum (TrafficStats.entriesLast60s s))].

Definition noStats : TrafficStats.t :=
  {| TrafficStats.totalEntries := 0; TrafficStats.totalRequestBytes := 0;
     TrafficStats.totalResponseBytes := 0; TrafficStats.entriesLast60s := 0 |}.

Definition nullable {A} (f : A -> JsVal) (o : option A) : JsVal :=
  match o with Some a => f a | None => JNull end.

(** [MitmError.toJSON()] of the error a tool reports. *)
Definition errorJSON (e : Exn) : JsVal :=
  match e with
  | MitmError c m d =>
      JObj [("code", JStr (codeName c)); ("message", JStr m); ("details", JObj d)]
  | JsError _ m =>
      JObj [("code", JStr (codeName INTERNAL_ERROR)); ("message", JStr m);
            ("details", JUndefined)]
  end.

(** The handler of the [mitm.status] tool ([registerStatusTool]). *)
Definition statusTool (env : Env.t) (sessionId : string) : M World ToolResponse.t :=
  tryCatch
    (let* session := getSession sessionId in
     match session with
     | None =>
         throw (MitmError PROXY_NOT_RUNNING
                  ("No proxy running for session: " +:+ sessionId)
                  [("sessionId", JStr sessionId)])
     | Some session =>
         let* stats := onStore sessionId (getStats (Env.nowMs env)) in
         ret {| ToolResponse.isError := false;
                ToolResponse.payload :=
                  [("ok", JBool true);
                   ("sessionId", JStr (ProxySession.sessionId session));
                   ("status", JStr (statusName (ProxySession.status session)));
                   ("proxyPort", JNum (ProxySession.proxyPort session));
                   ("proxyHost", JStr (ProxySession.proxyHost session));
                   ("pid", nullable JNum (ProxySession.pid session));
                   ("startedAt", nullable JStr (ProxySession.startedAt session));
                   ("stats", statsObject (default noStats stats))] |}
     end)
    (fun error =>
       ret {| ToolResponse.isError := true;
              ToolResponse.payload := [("ok", JBool false); ("error", errorJSON error)] |}).

(** A string [needle] occurs in some string inside the value. *)
Fixpoint mentions (needle : string) (v : JsVal) : bool :=
  match v with
  | JStr s => Js.includes needle s
  | JArr l => existsb (mentions needle) l
  | JObj o =>
      (fix props (o : Obj) : bool :=
         match o with
         | [] => false
         | (_, x) :: o' => mentions needle x || props o'
         end) o
  | _ => false
  end.

(** ** Vocabulary of the statements *)

(** The records a list of lines denotes: those of the lines that parse,
    in order. *)
Definition parsed (lines : list string) : list JsonlEntry.t := omap JSON_parse lines.

Definition parseFailure : LogEntry := (warn, "Failed to parse JSONL line").

(** One warning for each line that does not parse. *)
Definition parseWarnings (lines : list string) : list LogEntry :=
  map (fun _ => parseFailure)
    (List.filter (fun line => negb (bool_decide (is_Some (JSON_parse line)))) lines).

Definition add_logs (ls : list LogEntry) (y : Sys) : Sys :=
  {| files := files y; fault := fault y; console := console y ++ ls |}.

(** The conjunction of the conditions [query] filters by. *)
Definition matches (o : QueryOptions.t) (e : JsonlEntry.t) : bool :=
  match QueryOptions.startTimeMs o with
  | Some t0 => JsonlEntry.timestampMs e >=? t0
  | None => true
  end
  && match QueryOptions.endTimeMs o with
     | Some t1 => JsonlEntry.timestampMs e <=? t1
     | None => true
     end
  && match Js.truthy (QueryOptions.urlPattern o) with
     | Some p =>
         Js.includes (Js.toLowerCase p)
           (Js.toLowerCase (Request.url (JsonlEntry.request e)))
     | None => true
     end
  && match Js.truthy (QueryOptions.method o) with
     | Some m => String.eqb (Request.method (JsonlEntry.request e)) m
     | None => true
     end
  && match QueryOptions.statusCode o with
     | Some c => Response.status (JsonlEntry.response e) =? c
     | None => true
     end
  && match Js.truthy (QueryOptions.statusRange o) with
     | Some r => inStatusRange r e
     | None => true
     end
  && match Js.truthy (QueryOptions.contentType o) with
     | Some c =>
         Js.includes (Js.toLowerCase c)
           (Js.toLowerCase (Response.contentType (JsonlEntry.response e)))
     | None => true
     end.

(** The options without the two filters on the response status. *)
Definition withoutStatus (o : QueryOptions.t) : QueryOptions.t :=
  {| QueryOptions.startTimeMs := QueryOptions.startTimeMs o;
     QueryOptions.endTimeMs := QueryOptions.endTimeMs o;
     QueryOptions.urlPattern := QueryOptions.urlPattern o;
     QueryOptions.method := QueryOptions.method o;
     QueryOptions.statusCode := None;
     QueryOptions.statusRange := None;
     QueryOptions.contentType := QueryOptions.contentType o;
     QueryOptions.limit := QueryOptions.limit o;
     QueryOptions.offset := QueryOptions.offset o;
     QueryOptions.includeBody := QueryOptions.includeBody o |}.

(** ** Vocabulary for the manager *)

Definition logged (l : LogEntry) (w : World) : World := set_system (add_log l) w.

(** A computation keeps a relation between the world it starts in and the
    world it ends in, whatever its outcome. *)
Definition respects {A} (R : World -> World -> Prop) (m : M World A) : Prop :=
  forall w r w', m w = (r, w') -> R w w'.

Definition sameSessions (w w' : World) : Prop := sessions w' = sessions w.

Definition keepsSession (sessionId : string) (w w' : World) : Prop :=
  is_Some (sessions w !! sessionId) -> is_Some (sessions w' !! sessionId).

(** The shared documents and the refusals of the operating system stay
    as they are. *)
Definition sameDocuments (w w' : World) : Prop :=
  docs w' = docs w /\ fault (system w') = fault (system w).

(** A computation fulfils from every world, and relates the world it
    starts in to the world it ends in. *)
Definition ensures {A} (R : World -> World -> Prop) (m : M World A) : Prop :=
  forall w, exists a w', m w = (Ok a, w') /\ R w w'.

(** The session [sessionId] is [s] up to its status. *)
Definition sessionUpTo (sessionId : string) (s : ProxySession.t) (w : World) : Prop :=
  exists st, sessions w !! sessionId = Some (ProxySession.set_status st s).

(** What the steps of a teardown may do: change the status of the
    session, end processes, and leave the session logs and the shared
    documents alone. *)
Definition teardownStep (sessionId : string) (s : ProxySession.t) (w w' : World) : Prop :=
  (sessionUpTo sessionId s w -> sessionUpTo sessionId s w')
  /\ alive w' ⊆ alive w
  /\ sessionLogs w' = sessionLogs w.

(** The status the manager holds for a session. *)
Definition statusOf (sessionId : string) (w : World) : option ProxyStatus :=
  ProxySession.status <$> sessions w !! sessionId.

(** The property [k] of the [mitm] object of the document of a session. *)
Definition published (sessionId k : string) (w : World) : option JsVal :=
  match docs w !! sessionId with
  | Some (Doc o) =>
      match obj_get "mitm" o with
      | Some (JObj m) => obj_get k m
      | _ => None
      end
  | _ => None
  end.

(** What step 8 of the specification promises of a failed start. *)
Definition rolledForward {A} (sessionId : string) (r : Outcome A * World) : Prop :=
  (exists message details,
     fst r = Throw (MitmError MITMDUMP_START_FAILED message details))
  /\ statusOf sessionId (snd r) = Some error_
  /\ published sessionId "status" (snd r) = Some (JStr "error").

(** Some string of the answer of a tool contains the exit code, the least
    a message with the exit code requires. *)
Definition reportsExit (code : Z) (r : ToolResponse.t) : Prop :=
  mentions (Js.ofZ code) (JObj (ToolResponse.payload r)) = true.

(** No operation of the store on [p] is refused by the operating system. *)
Definition healthy (y : Sys) (p : string) : Prop :=
  forall op, fault y op p = None.

(** ** The rest of the state client, the manager and the supervisor *)

(** [StateClient.isSessionStopping]. *)
Definition isSessionStopping (sessionId : string) : M World bool :=
  tryCatch
    (let* state := read sessionId in
     let* status := property "status" state in
     ret (isStr status "stopping" || isStr status "stopped"))
    (fun _ => ret true).

(** [ProxyManager.cleanup]. The loop visits the sessions of the map in
    the order they were added, which the map of the model does not keep:
    [calls] lists the session ids in that order, each with what the
    surroundings decide during its [stopProxy]. *)
Definition cleanup (calls : list (Env.t * string)) : M World unit :=
  forEach calls (fun call =>
    let sessionId := snd call in
    tryCatch (stopProxy (fst call) sessionId)
      (fun _ =>
         log error "Error during cleanup";;
         unregisterSessionLog sessionId)).

(** The handler [setupSignalHandlers] installs for SIGTERM and SIGINT,
    over the pids of the supervisor's table in the order they were added. *)
Definition signalCleanup (calls : list (Env.t * Z)) : M World unit :=
  log info "Cleaning up all processes";;
  forEach calls (fun call => kill (fst call) (snd call)).

(** ** The other tools *)

(** The answer every handler gives from its [catch] block. *)
Definition failure (e : Exn) : ToolResponse.t :=
  {| ToolResponse.isError := true;
     ToolResponse.payload := [("ok", JBool false); ("error", errorJSON e)] |}.

Definition doubleQuote : string := String (ascii_of_nat 34) EmptyString.

(** The handler of the [mitm.start] tool ([registerStartTool]). *)
Definition startTool (env : Env.t) (input : StartProxyInput.t) : M World ToolResponse.t :=
  tryCatch
    (let* session := startProxy env input in
     let port := ProxySession.proxyPort session in
     ret {| ToolResponse.isError := false;
            ToolResponse.payload :=
              [("ok", JBool true);
               ("sessionId", JStr (ProxySession.sessionId session));
               ("proxyPort", JNum port);
               ("proxyHost", JStr (ProxySession.proxyHost session));
               ("androidProxyConfig", JObj [("host", JStr "10.0.2.2"); ("port", JNum port)]);
               ("message",
                JStr ("Proxy started on " +:+ ProxySession.proxyHost session +:+ ":"
                      +:+ Js.ofZ port
                      +:+ ". Configure Android with sniaff.set_proxy(host="
                      +:+ doubleQuote +:+ "10.0.2.2" +:+ doubleQuote
                      +:+ ", port=" +:+ Js.ofZ port +:+ ")"))] |})
    (fun e => ret (failure e)).

(** The handler of the [mitm.stop] tool ([registerStopTool]); it does not
    read its argument [keepData]. *)
Definition stopTool (env : Env.t) (sessionId : string) : M World ToolResponse.t :=
  tryCatch
    (let* session := getSession sessionId in
     let* stats :=
       match session with
       | Some _ => onStore sessionId (getStats (Env.nowMs env))
       | None => ret None
       end in
     stopProxy env sessionId;;
     ret {| ToolResponse.isError := false;
            ToolResponse.payload :=
              [("ok", JBool true);
               ("sessionId", JStr sessionId);
               ("entriesCaptured",
                JNum (match stats with
                      | Some s => TrafficStats.totalEntries s
                      | None => 0
                      end));
               ("message", JStr "Proxy stopped")] |})
    (fun e => ret (failure e)).

(** A property that may be [undefined]. *)
Definition optional {A} (f : A -> JsVal) (o : option A) : JsVal :=
  match o with Some a => f a | None => JUndefined end.

Definition headersArray (h : Headers) : JsVal :=
  JArr (map (fun nv => JObj [("name", JStr (fst nv)); ("value", JStr (snd nv))]) h).

Definition timingsObject (t : Timings.t) : JsVal :=
  JObj [("blocked", JNum (Timings.blocked t)); ("dns", JNum (Timings.dns t));
        ("connect", JNum (Timings.connect t)); ("ssl", JNum (Timings.ssl t));
        ("send", JNum (Timings.send t)); ("wait", JNum (Timings.wait t));
        ("receive", JNum (Timings.receive t))].

(** The properties of a [HarEntry] object as [getEntry] builds it. *)
Definition harEntryProps (e : HarEntry.t) : Obj :=
  let rq := HarEntry.request e in
  let rs := HarEntry.response e in
  [("id", JStr (HarEntry.id e));
   ("timestamp", JStr (HarEntry.timestamp e));
   ("timestampMs", JNum (HarEntry.timestampMs e));
   ("request",
    JObj [("method", JStr (HarRequest.method rq));
          ("url", JStr (HarRequest.url rq));
          ("httpVersion", JStr (HarRequest.httpVersion rq));
          ("headers", headersArray (HarRequest.headers rq));
          ("queryString", headersArray (HarRequest.queryString rq));
          ("cookies", headersArray (HarRequest.cookies rq));
          ("headersSize", JNum (HarRequest.headersSize rq));
          ("bodySize", JNum (HarRequest.bodySize rq))]);
   ("response",
    JObj [("status", JNum (HarResponse.status rs));
          ("statusText", JStr (HarResponse.statusText rs));
          ("httpVersion", JStr (HarResponse.httpVersion rs));
          ("headers", headersArray (HarResponse.headers rs));
          ("cookies", headersArray (HarResponse.cookies rs));
          ("content",
           JObj [("size", JNum (HarContent.size (HarResponse.content rs)));
                 ("mimeType", JStr (HarContent.mimeType (HarResponse.content rs)))]);
          ("redirectURL", JStr (HarResponse.redirectURL rs));
          ("headersSize", JNum (HarResponse.headersSize rs));
          ("bodySize", JNum (HarResponse.bodySize rs))]);
   ("timings", timingsObject (HarEntry.timings e));
   ("serverIPAddress", optional JStr (HarEntry.serverIPAddress e))].

(** The handler of the [mitm.get_entry] tool ([registerGetEntryTool]). *)
Definition getEntryTool (sessionId entryId : string) : M World ToolResponse.t :=
  tryCatch
    (let* found := onStore sessionId (getEntry entryId) in
     match found with
     | None =>
         throw (MitmError PROXY_NOT_RUNNING
                  ("No traffic store for session: " +:+ sessionId)
                  [("sessionId", JStr sessionId)])
     | Some None =>
         throw (MitmError ENTRY_NOT_FOUND
                  ("Entry not found: " +:+ entryId)
                  [("sessionId", JStr sessionId); ("entryId", JStr entryId)])
     | Some (Some result) =>
         ret {| ToolResponse.isError := false;
                ToolResponse.payload :=
                  [("ok", JBool true);
                   ("entry",
                    JObj (harEntryProps (EntryResult.entry result)
                          ++ [("requestBodyText",
                               optional JStr (EntryResult.requestBody result));
                              ("responseBodyText",
                               optional JStr (EntryResult.responseBody result))]))] |}
     end)
    (fun e => ret (failure e)).

(** ** Vocabulary for outcomes and effects *)

(** A computation that fulfils or rejects from every state. *)
Definition settles {S A} (m : M S A) : Prop :=
  forall s, fst (m s) <> Pending.

(** Every exception a computation throws is one of [P]. *)
Definition throwsOnly {S A} (P : Exn -> Prop) (m : M S A) : Prop :=
  forall s e s', m s = (Throw e, s') -> P e.

Definition hasCode (codes : list ErrorCode) (e : Exn) : Prop :=
  exists c, exn_code e = Some c /\ In c codes.

(** A process is in the supervisor's table, or not alive. *)
Definition trackedOrDead (pid : Z) (w : World) : Prop :=
  is_Some (processes w !! pid) \/ pid ∉ alive w.

(** A step that only releases: it registers no log, adds no store, starts
    no process and loses track of no living process. *)
Definition releases (w w' : World) : Prop :=
  sessionLogs w' ⊆ sessionLogs w
  /\ alive w' ⊆ alive w
  /\ (forall x, trafficStores w !! x = None -> trafficStores w' !! x = None)
  /\ (forall pid, trackedOrDead pid w -> trackedOrDead pid w').

(** What a [stopProxy] of [sessionId] may do to the world, whatever its
    outcome: it only releases, and it leaves the other sessions in the
    map, with their pid. *)
Definition stopStep (sessionId : string) (w w' : World) : Prop :=
  releases w w'
  /\ (forall x s, x <> sessionId -> sessions w !! x = Some s ->
        exists s', sessions w' !! x = Some s' /\ ProxySession.pid s' = ProxySession.pid s).

(** ** Vocabulary for the further properties *)

(** The session [startProxy] registers. *)
Definition newSession (sessionId : string) (port : Z) (listenHost : string) : ProxySession.t :=
  {| ProxySession.sessionId := sessionId;
     ProxySession.status := starting;
     ProxySession.proxyPort := port;
     ProxySession.proxyHost := listenHost;
     ProxySession.pid := None;
     ProxySession.jsonlPath := path_join (getMitmDir sessionId) "traffic.jsonl";
     ProxySession.logPath := path_join (getMitmDir sessionId) "mitmdump.log";
     ProxySession.startedAt := None;
     ProxySession.stoppedAt := None |}.

End Platform.

(** ** Vocabulary for the store, the documents and the answers *)

(** The sum of a size over records, and the records captured since a time. *)
Definition sumOf (f : JsonlEntry.t -> Z) (es : list JsonlEntry.t) : Z :=
  fold_right (fun e acc => f e + acc) 0 es.

Definition since (t0 : Z) (es : list JsonlEntry.t) : list JsonlEntry.t :=
  List.filter (fun e => JsonlEntry.timestampMs e >=? t0) es.

Definition withPage (offset limit : Z) (o : QueryOptions.t) : QueryOptions.t :=
  {| QueryOptions.startTimeMs := QueryOptions.startTimeMs o;
     QueryOptions.endTimeMs := QueryOptions.endTimeMs o;
     QueryOptions.urlPattern := QueryOptions.urlPattern o;
     QueryOptions.method := QueryOptions.method o;
     QueryOptions.statusCode := QueryOptions.statusCode o;
     QueryOptions.statusRange := QueryOptions.statusRange o;
     QueryOptions.contentType := QueryOptions.contentType o;
     QueryOptions.limit := limit; QueryOptions.offset := offset;
     QueryOptions.includeBody := QueryOptions.includeBody o |}.

Definition withUrlPattern (p : option string) (o : QueryOptions.t) : QueryOptions.t :=
  {| QueryOptions.startTimeMs := QueryOptions.startTimeMs o;
     QueryOptions.endTimeMs := QueryOptions.endTimeMs o;
     QueryOptions.urlPattern := p;
     QueryOptions.method := QueryOptions.method o;
     QueryOptions.statusCode := QueryOptions.statusCode o;
     QueryOptions.statusRange := QueryOptions.statusRange o;
     QueryOptions.contentType := QueryOptions.contentType o;
     QueryOptions.limit := QueryOptions.limit o; QueryOptions.offset := QueryOptions.offset o;
     QueryOptions.includeBody := QueryOptions.includeBody o |}.

(** The [mitm] property [k] of a document. *)
Definition mitmProperty (k : string) (doc : Obj) : option JsVal :=
  match obj_get "mitm" doc with
  | Some (JObj m) => obj_get k m
  | _ => None
  end.

(** A computation that never throws. *)
Definition noThrow {S A} (m : M S A) : Prop := throwsOnly (fun _ => False) m.

(** The [TypeError] of reading a property of [null]. *)
Definition nullRead (e : Exn) : Prop := exists k, e = nullProperty k.

(** The codes [stopProxy] and [startProxy] throw with. *)
Definition stopCodes : list ErrorCode :=
  [PROXY_NOT_RUNNING; SESSION_NOT_FOUND; STATE_READ_FAILED; STATE_WRITE_FAILED].

(** An error of the file system, as [fs] gives it. *)
Definition fsError (e : Exn) : Prop := exists err, e = io_error err.

Definition startCodes : list ErrorCode :=
  [PROXY_ALREADY_RUNNING; SESSION_NOT_FOUND; STATE_READ_FAILED; SESSION_INVALID_STATE;
   PORT_UNAVAILABLE; STATE_WRITE_FAILED; MITMDUMP_START_FAILED].

(** What is thrown that is no [MitmError]: an error of the file system
    or a [TypeError]. *)
Definition plain (e : Exn) : Prop := fsError e \/ nullRead e.

(** The environment with another answer to which ports bind. *)
Definition withAvailability (available : Z -> bool) (env : Env.t) : Env.t :=
  {| Env.nowISO := Env.nowISO env; Env.nowMs := Env.nowMs env;
     Env.isPortAvailable := available;
     Env.sessionLogError := Env.sessionLogError env;
     Env.spawned := Env.spawned env;
     Env.exitOnSigterm := Env.exitOnSigterm env |}.

(** The code of the error an answer carries. *)
Definition reportedCode (r : ToolResponse.t) : option string :=
  match obj_get "error" (ToolResponse.payload r) with
  | Some (JObj o) =>
      match obj_get "code" o with
      | Some (JStr c) => Some c
      | _ => None
      end
  | _ => None
  end.

(** The answer carries the error code [c], one of [codes]. *)
Definition reports (codes : list ErrorCode) (r : ToolResponse.t) : Prop :=
  exists c, In c codes /\ reportedCode r = Some (codeName c).

(** The property [ok] of an answer says whether it is an error. *)
Definition flagged (r : ToolResponse.t) : Prop :=
  obj_get "ok" (ToolResponse.payload r) = Some (JBool (negb (ToolResponse.isError r))).


(** ** The store when a line of the log is [null]

    [JSON.parse(line) as JsonlEntry] checks nothing: the value of a line
    that is JSON is pushed as it is, record or not. The embedding above
    takes every line that parses for the text of a record, which is what
    the producer writes. This one adds the line [null]: [JSON.parse]
    throws, or gives [null], or gives a record; the array of the store
    holds [null] next to records ([None] is [null]), and reading a
    property of [null] throws a [TypeError]. Other values that are no
    records (such as what [{}] or [5] denote) are not covered. *)

Inductive Parsed :=
| NotJson
| JsonNull
| JsonRecord (e : JsonlEntry.t).

Module RawStore.
Record t := {
  jsonlPath : string;
  entries : list (option JsonlEntry.t);
  lastReadPosition : Z;
}.
Definition create (path : string) : t :=
  {| jsonlPath := path; entries := []; lastReadPosition := 0 |}.
Definition set_entries (es : list (option JsonlEntry.t)) (s : t) : t :=
  {| jsonlPath := jsonlPath s; entries := es; lastReadPosition := lastReadPosition s |}.
Definition set_lastReadPosition (n : Z) (s : t) : t :=
  {| jsonlPath := jsonlPath s; entries := entries s; lastReadPosition := n |}.
End RawStore.

Module Raw.
Section Store.

Context (JSON_parse : string -> Parsed).
Context (JSON_stringify : JsonlEntry.t -> string).

Abbreviation St := (RawStore.t * Sys)%type.

Definition this : M St RawStore.t := gets fst.
Definition set_this (f : RawStore.t -> RawStore.t) : M St unit :=
  modify (fun s => (f (fst s), snd s)).
Definition sys {A} (m : M Sys A) : M St A :=
  zoom snd (fun y s => (fst s, y)) m.

Definition push (x : option JsonlEntry.t) : M St unit :=
  set_this (fun s => RawStore.set_entries (RawStore.entries s ++ [x]) s).

Definition reloadEntries : M St unit :=
  let* t := this in
  tryCatch
    (let* size := sys (fs_stat (RawStore.jsonlPath t)) in
     if size <=? RawStore.lastReadPosition t then ret tt
     else
       let* content := sys (fs_readFile (RawStore.jsonlPath t)) in
       let lines := splitLines content in
       set_this (RawStore.set_entries []);;
       forEach lines (fun line =>
         match JSON_parse line with
         | JsonRecord entry => push (Some entry)
         | JsonNull => push None
         | NotJson => sys (logger warn "Failed to parse JSONL line")
         end);;
       set_this (RawStore.set_lastReadPosition size);;
       sys (logger debug "Reloaded entries"))
    (fun error =>
       match exn_errno error with
       | Some c => if String.eqb c ENOENT then ret tt else throw error
       | None => throw error
       end).

(** [l.filter(e => p(e))] for a callback that first reads the property
    [k] of its argument: on [null] the callback throws, and with it
    [filter]. *)
Fixpoint filter {S} (k : string) (p : JsonlEntry.t -> bool) (l : list (option JsonlEntry.t))
    : M S (list (option JsonlEntry.t)) :=
  match l with
  | [] => ret []
  | None :: _ => throw (nullProperty k)
  | Some e :: l' =>
      let* kept := filter k p l' in
      ret (if p e then Some e :: kept else kept)
  end.

Definition byStartTime {S} (o : QueryOptions.t) l : M S (list (option JsonlEntry.t)) :=
  match QueryOptions.startTimeMs o with
  | Some t0 => filter "timestampMs" (fun e => JsonlEntry.timestampMs e >=? t0) l
  | None => ret l
  end.

Definition byEndTime {S} (o : QueryOptions.t) l : M S (list (option JsonlEntry.t)) :=
  match QueryOptions.endTimeMs o with
  | Some t1 => filter "timestampMs" (fun e => JsonlEntry.timestampMs e <=? t1) l
  | None => ret l
  end.

Definition byUrlPattern {S} (o : QueryOptions.t) l : M S (list (option JsonlEntry.t)) :=
  match Js.truthy (QueryOptions.urlPattern o) with
  | Some p =>
      let pattern := Js.toLowerCase p in
      filter "request" (fun e =>
        Js.includes pattern (Js.toLowerCase (Request.url (JsonlEntry.request e)))) l
  | None => ret l
  end.

Definition byMethod {S} (o : QueryOptions.t) l : M S (list (option JsonlEntry.t)) :=
  match Js.truthy (QueryOptions.method o) with
  | Some m =>
      filter "request" (fun e => String.eqb (Request.method (JsonlEntry.request e)) m) l
  | None => ret l
  end.

Definition byStatusCode {S} (o : QueryOptions.t) l : M S (list (option JsonlEntry.t)) :=
  match QueryOptions.statusCode o with
  | Some c => filter "response" (fun e => Response.status (JsonlEntry.response e) =? c) l
  | None => ret l
  end.

Definition byStatusRange {S} (o : QueryOptions.t) l : M S (list (option JsonlEntry.t)) :=
  match Js.truthy (QueryOptions.statusRange o) with
  | Some r => filter "response" (fun e => inStatusRange r e) l
  | None => ret l
  end.

Definition byContentType {S} (o : QueryOptions.t) l : M S (list (option JsonlEntry.t)) :=
  match Js.truthy (QueryOptions.contentType o) with
  | Some c =>
      let ct := Js.toLowerCase c in
      filter "response" (fun e =>
        Js.includes ct (Js.toLowerCase (Response.contentType (JsonlEntry.response e)))) l
  | None => ret l
  end.

Definition applyFilters {S} (o : QueryOptions.t) l : M S (list (option JsonlEntry.t)) :=
  let* l := byStartTime o l in
  let* l := byEndTime o l in
  let* l := byUrlPattern o l in
  let* l := byMethod o l in
  let* l := byStatusCode o l in
  let* l := byStatusRange o l in
  byContentType o l.

Definition isNull (x : option JsonlEntry.t) : bool :=
  match x with
  | None => true
  | Some _ => false
  end.

(** The records of an array. *)
Definition records (l : list (option JsonlEntry.t)) : list JsonlEntry.t := omap id l.

(** [filtered.sort((a, b) => b.timestampMs - a.timestampMs)]: an array
    of two elements or more has each of them compared, so that the
    comparator throws when one is [null]; an array of records is sorted
    as above. *)
Definition sort {S} (l : list (option JsonlEntry.t)) : M S (list (option JsonlEntry.t)) :=
  match l with
  | [] | [_] => ret l
  | _ =>
      if existsb isNull l then throw (nullProperty "timestampMs")
      else ret (map Some (Js.sort newestFirst (records l)))
  end.

(** [paginated.map(e => ({ id: e.id, ... }))]. *)
Fixpoint summaries {S} (l : list (option JsonlEntry.t)) : M S (list Summary.t) :=
  match l with
  | [] => ret []
  | None :: _ => throw (nullProperty "id")
  | Some e :: l' =>
      let* rest := summaries l' in
      ret (toSummary e :: rest)
  end.

Definition query (options : QueryOptions.t) : M St QueryResult.t :=
  reloadEntries;;
  let* t := this in
  let* filtered := applyFilters options (RawStore.entries t) in
  let* sorted := sort filtered in
  let total := Z.of_nat (length sorted) in
  let paginated :=
    Js.slice sorted (QueryOptions.offset options)
      (QueryOptions.offset options + QueryOptions.limit options) in
  let* entries := summaries paginated in
  ret {| QueryResult.entries := entries; QueryResult.total := total |}.

(** [this.entries.find(e => e.id === entryId)]. *)
Fixpoint find {S} (entryId : string) (l : list (option JsonlEntry.t))
    : M S (option JsonlEntry.t) :=
  match l with
  | [] => ret None
  | None :: _ => throw (nullProperty "id")
  | Some e :: l' =>
      if String.eqb (JsonlEntry.id e) entryId then ret (Some e) else find entryId l'
  end.

Definition getEntry (entryId : string) : M St (option EntryResult.t) :=
  reloadEntries;;
  let* t := this in
  let* found := find entryId (RawStore.entries t) in
  match found with
  | None => ret None
  | Some jsonlEntry =>
      ret (Some {| EntryResult.entry := toHarEntry jsonlEntry;
                   EntryResult.requestBody := Request.body (JsonlEntry.request jsonlEntry);
                   EntryResult.responseBody := Response.body (JsonlEntry.response jsonlEntry) |})
  end.

(** [JSON.stringify(e)] for an element of the array. *)
Definition stringify (x : option JsonlEntry.t) : string :=
  match x with
  | Some e => JSON_stringify e
  | None => "null"
  end.

Definition logText (es : list (option JsonlEntry.t)) : string :=
  let content := Js.join (String Js.LF EmptyString) (map stringify es) in
  if String.eqb content EmptyString then EmptyString else content +:+ String Js.LF EmptyString.

Definition clear (beforeTimeMs : option Z) : M St Z :=
  reloadEntries;;
  let* t := this in
  let originalCount := Z.of_nat (length (RawStore.entries t)) in
  let* kept :=
    match beforeTimeMs with
    | Some t0 =>
        filter "timestampMs" (fun e => JsonlEntry.timestampMs e >=? t0) (RawStore.entries t)
    | None => ret []
    end in
  set_this (RawStore.set_entries kept);;
  let* t' := this in
  let cleared := originalCount - Z.of_nat (length (RawStore.entries t')) in
  sys (fs_writeFile (RawStore.jsonlPath t') (logText (RawStore.entries t')));;
  let* size := sys (fs_stat (RawStore.jsonlPath t')) in
  set_this (RawStore.set_lastReadPosition size);;
  ret cleared.

(** The loop of [getStats]: [entry.request.bodySize] is read first. *)
Fixpoint tally {S} (sixtySecondsAgo : Z) (acc : Z * Z * Z) (l : list (option JsonlEntry.t))
    : M S (Z * Z * Z) :=
  match l with
  | [] => ret acc
  | None :: _ => throw (nullProperty "request")
  | Some e :: l' => tally sixtySecondsAgo (accumulate sixtySecondsAgo acc e) l'
  end.

Definition getStats (nowMs : Z) : M St TrafficStats.t :=
  reloadEntries;;
  let* t := this in
  let sixtySecondsAgo := nowMs - 60000 in
  let* counters := tally sixtySecondsAgo (0, 0, 0) (RawStore.entries t) in
  let '(totalRequestBytes, totalResponseBytes, entriesLast60s) := counters in
  ret {| TrafficStats.totalEntries := Z.of_nat (length (RawStore.entries t));
         TrafficStats.totalRequestBytes := totalRequestBytes;
         TrafficStats.totalResponseBytes := totalResponseBytes;
         TrafficStats.entriesLast60s := entriesLast60s |}.

(** What the array holds after a reload of these lines, and the warnings
    of that reload. *)
Definition loaded (lines : list string) : list (option JsonlEntry.t) :=
  omap (fun line =>
          match JSON_parse line with
          | NotJson => None
          | JsonNull => Some None
          | JsonRecord e => Some (Some e)
          end) lines.

Definition warnings (lines : list string) : list LogEntry :=
  map (fun _ => parseFailure)
    (List.filter (fun line => match JSON_parse line with NotJson => true | _ => false end)
       lines).

(** Each line is the text of a record, or no JSON. *)
Definition recordLines (lines : list string) : Prop :=
  Forall (fun line => JSON_parse line = NotJson \/ exists e, JSON_parse line = JsonRecord e)
    lines.

(** The lines of the file of a store are records or no JSON. *)
Definition recordLog (y : Sys) (p : string) : Prop :=
  forall content, files y !! p = Some content -> recordLines (splitLines content).

(** The parser of the embedding above: the record of a line. *)
Definition recordOf (line : string) : option JsonlEntry.t :=
  match JSON_parse line with
  | JsonRecord e => Some e
  | _ => None
  end.

End Store.

(** A store of records, as this embedding holds it. *)
Definition lift (t : TrafficStore.t) : RawStore.t :=
  {| RawStore.jsonlPath := TrafficStore.jsonlPath t;
     RawStore.entries := map Some (TrafficStore.entries t);
     RawStore.lastReadPosition := TrafficStore.lastReadPosition t |}.

(** The outcome of a method of the embedding of records, seen from here. *)
Definition lifted {A} (r : Outcome A * (TrafficStore.t * Sys))
  : Outcome A * (RawStore.t * Sys) :=
  (fst r, (lift (fst (snd r)), snd (snd r))).

End Raw.

(** ** Vocabulary for texts *)

(** A text that [trim] leaves alone and [split] does not cut: it is not
    empty, neither starts nor ends with white space and holds no line
    feed. The text [JSON.stringify] gives for an object is of this kind. *)
Definition oneLine (s : string) : Prop :=
  s <> EmptyString /\ Js.trimStart s = s /\ Js.trimEnd s = s /\ Js.split Js.LF s = [s].

(** The comparator [(a, b) => key(b) - key(a)], and the order it sorts
    into. *)
Definition descending {A} (key : A -> Z) (a b : A) : Z := key b - key a.

Definition nonIncreasing {A} (key : A -> Z) (a b : A) : Prop := key b <= key a.

(** The lines, each followed by a line feed. *)
Fixpoint unlines (l : list string) : string :=
  match l with
  | [] => EmptyString
  | x :: l' => x +:+ String Js.LF (unlines l')
  end.

(** The records [clear] removes. *)
Definition removed (beforeTimeMs : option Z) (es : list JsonlEntry.t) : list JsonlEntry.t :=
  match beforeTimeMs with
  | Some t0 => List.filter (fun e => JsonlEntry.timestampMs e <? t0) es
  | None => es
  end.

(** ** Example data

    A stand-in for the JSON codec of log lines, used in the examples: a
    line [<timestampMs>:<status>] denotes the record with that capture
    time and response status. *)

Module Demo.

Definition request : Request.t :=
  {| Request.method := "GET"; Request.url := "https://example.com/api";
     Request.host := "example.com"; Request.path := "/api";
     Request.httpVersion := "HTTP/1.1"; Request.headers := [];
     Request.queryString := []; Request.bodySize := 0; Request.body := None |}.

Definition response (status : Z) : Response.t :=
  {| Response.status := status; Response.statusText := "OK";
     Response.httpVersion := "HTTP/1.1"; Response.headers := [];
     Response.contentType := "application/json"; Response.bodySize := 2;
     Response.body := Some "{}" |}.

Definition timings : Timings.t :=
  {| Timings.blocked := 0; Timings.dns := 0; Timings.connect := 0; Timings.ssl := 0;
     Timings.send := 0; Timings.wait := 0; Timings.receive := 0 |}.

Definition record (timestampMs status : Z) : JsonlEntry.t :=
  {| JsonlEntry.id := Js.ofZ timestampMs;
     JsonlEntry.timestamp := "2024-05-01T00:00:00.000Z";
     JsonlEntry.timestampMs := timestampMs;
     JsonlEntry.request := request;
     JsonlEntry.response := response status;
     JsonlEntry.timings := timings;
     JsonlEntry.serverIPAddress := None |}.

Definition number (s : string) : option Z :=
  option_map Z.of_int (NilZero.int_of_string s).

Definition parse (line : string) : option JsonlEntry.t :=
  match Js.split ":" line with
  | [a; b] =>
      match number a, number b with
      | Some t, Some st => Some (record t st)
      | _, _ => None
      end
  | _ => None
  end.

(** The same codec where a line may be [null]. *)
Definition parseLine (line : string) : Parsed :=
  if String.eqb line "null" then JsonNull
  else match parse line with
       | Some e => JsonRecord e
       | None => NotJson
       end.

Definition stringify (e : JsonlEntry.t) : string :=
  Js.ofZ (JsonlEntry.timestampMs e) +:+ ":"
  +:+ Js.ofZ (Response.status (JsonlEntry.response e)).

Definition path : string := "/sessions/s1/mitm/traffic.jsonl".

Definition noFault : FsOp -> string -> option (string * string) := fun _ _ => None.

Definition disk (content : string) : Sys :=
  {| files := {[ path := content ]}; fault := noFault; console := [] |}.

Definition lines (l : list string) : string := unlines l.

(** Ten records, two of them captured at the same millisecond, and a
    truncated line. *)
Definition tenLines : string :=
  lines ["100:200"; "300:404"; "200:200"; "400:500"; "400:201"; "{oops";
         "150:302"; "50:200"; "600:499"; "700:400"; "650:399"].

Definition options (offset limit : Z) : QueryOptions.t :=
  {| QueryOptions.startTimeMs := None; QueryOptions.endTimeMs := None;
     QueryOptions.urlPattern := None; QueryOptions.method := None;
     QueryOptions.statusCode := None; QueryOptions.statusRange := None;
     QueryOptions.contentType := None;
     QueryOptions.limit := limit; QueryOptions.offset := offset;
     QueryOptions.includeBody := false |}.

Definition withStatus (code : option Z) (range : option string) : QueryOptions.t :=
  {| QueryOptions.startTimeMs := None; QueryOptions.endTimeMs := None;
     QueryOptions.urlPattern := None; QueryOptions.method := None;
     QueryOptions.statusCode := code; QueryOptions.statusRange := range;
     QueryOptions.contentType := None;
     QueryOptions.limit := 50; QueryOptions.offset := 0;
     QueryOptions.includeBody := false |}.

Definition config : Config.t :=
  {| Config.sessionsDir := "/sessions"; Config.mitmdumpPath := "mitmdump";
     Config.addonScriptPath := "/addon/har_capture.py";
     Config.portRangeStart := 8080; Config.portRangeEnd := 8082 |}.

Definition sid : string := "s1".

(** The session document as the orchestrator and the Android controller
    left it. *)
Definition document : Obj :=
  [("sessionId", JStr sid); ("type", JStr "android"); ("status", JStr "active");
   ("createdAt", JStr "2024-05-01T00:00:00.000Z");
   ("android", JObj [("status", JStr "ready"); ("serial", JStr "emulator-5554")]);
   ("mitm", JObj [("status", JStr "starting"); ("proxyPort", JNum 8080)])].

Definition bare : Sys := {| files := ∅; fault := noFault; console := [] |}.

(** A manager that has not started anything, next to the document. *)
Definition idle : World :=
  {| system := bare; docs := {[ sid := Doc document ]}; dirs := ∅;
     sessions := ∅; trafficStores := ∅; processes := ∅; alive := ∅;
     sessionLogs := ∅; detached := [] |}.

Definition env (available : Z -> bool) (child : SpawnOutcome) : Env.t :=
  {| Env.nowISO := "2024-05-01T00:00:01.000Z"; Env.nowMs := 1714521601000;
     Env.isPortAvailable := available; Env.sessionLogError := None;
     Env.spawned := child; Env.exitOnSigterm := Some (None, Some "SIGTERM") |}.

Definition input : StartProxyInput.t :=
  {| StartProxyInput.sessionId := sid; StartProxyInput.port := None;
     StartProxyInput.listenHost := None |}.

Definition session : ProxySession.t :=
  {| ProxySession.sessionId := sid; ProxySession.status := ready;
     ProxySession.proxyPort := 8080; ProxySession.proxyHost := "0.0.0.0";
     ProxySession.pid := Some 4242; ProxySession.jsonlPath := path;
     ProxySession.logPath := "/sessions/s1/mitm/mitmdump.log";
     ProxySession.startedAt := Some "2024-05-01T00:00:01.000Z";
     ProxySession.stoppedAt := None |}.

(** A manager with the capture process of the session running. *)
Definition running : World :=
  {| system := disk tenLines; docs := {[ sid := Doc document ]};
     dirs := {[ "/sessions/s1/mitm" ]};
     sessions := {[ sid := session ]};
     trafficStores := {[ sid := TrafficStore.create path ]};
     processes := {[ 4242 := sid ]}; alive := {[ 4242 ]};
     sessionLogs := {[ sid ]}; detached := [] |}.

(** The same after the orchestrator removed the session document. *)
Definition orphaned : World := set_docs (fun _ => ∅) running.

(** The same with a session document that is not JSON. *)
Definition corrupted : World :=
  set_docs (fun _ => {[ sid := Unparseable "Unexpected end of JSON input" ]}) running.

(** The same with a session document whose text is [null]. *)
Definition nulled : World := set_docs (fun _ => {[ sid := DocNull ]}) running.

(** An idle manager in a session directory where the traffic log cannot
    be created. *)
Definition noLog : World :=
  set_system (fun y =>
    {| files := files y;
       fault := fun op p =>
         match op with
         | OpWrite =>
             if String.eqb p path
             then Some ("EACCES",
                        "EACCES: permission denied, open '/sessions/s1/mitm/traffic.jsonl'")
             else None
         | _ => None
         end;
       console := console y |}) idle.

(** An idle manager whose session document cannot be written. *)
Definition readOnly : World :=
  set_system (fun y =>
    {| files := files y;
       fault := fun op p =>
         match op with
         | OpWrite =>
             if String.eqb p "/sessions/s1/state.json"
             then Some ("EACCES", "EACCES: permission denied, open '/sessions/s1/state.json'")
             else None
         | _ => None
         end;
       console := console y |}) idle.

(** A disk whose traffic log cannot be examined. *)
Definition denied : Sys :=
  {| files := {[ Demo.path := Demo.tenLines ]};
     fault := fun op p =>
       match op with
       | OpStat => Some ("EACCES", "EACCES: permission denied, stat")
       | _ => None
       end;
     console := [] |}.

(** The running manager on that disk. *)
Definition locked : World := set_system (fun _ => denied) Demo.running.

(** A store whose cache is out of date. *)
Definition stale : TrafficStore.t :=
  {| TrafficStore.jsonlPath := Demo.path;
     TrafficStore.entries := [Demo.record 1 200];
     TrafficStore.lastReadPosition := 5 |}.

(** The environment of a start that goes through. *)
Definition starts : Env.t := Demo.env (fun _ => true) (SpawnRunning 4242).

(** A start on a port the caller chose. *)
Definition onPort (port : Z) : StartProxyInput.t :=
  {| StartProxyInput.sessionId := Demo.sid; StartProxyInput.port := Some port;
     StartProxyInput.listenHost := None |}.

(** An idle manager with no session document. *)
Definition unknown : World := set_docs (fun _ => ∅) Demo.idle.

End Demo.

(** * Properties *)

(** ** The monad *)

Lemma bind_Ok {S A B} (m : M S A) (k : A -> M S B) s a s' :
  m s = (Ok a, s') -> bind m k s = k a s'.
Proof. intros H. unfold bind. now rewrite H. Qed.

Lemma bind_Throw {S A B} (m : M S A) (k : A -> M S B) s e s' :
  m s = (Throw e, s') -> bind m k s = (Throw e, s').
Proof. intros H. unfold bind. now rewrite H. Qed.

Lemma bind_Ok_inv {S A B} (m : M S A) (k : A -> M S B) s b s2 :
  bind m k s = (Ok b, s2) -> exists a s1, m s = (Ok a, s1) /\ k a s1 = (Ok b, s2).
Proof.
  unfold bind. destruct (m s) as [[a|e|] s1]; [eauto|discriminate|discriminate].
Qed.

Lemma tryCatch_Throw {S A} (m : M S A) h s e s' :
  m s = (Throw e, s') -> tryCatch m h s = h e s'.
Proof. intros H. unfold tryCatch. now rewrite H. Qed.

(** ** Arrays: [sort] and [slice] *)

Section SortFacts.
Context {A : Type} (key : A -> Z).

#[local] Abbreviation descending := (descending key).
#[local] Abbreviation nonIncreasing := (nonIncreasing key).

Lemma insert_perm x l : Permutation (Js.insert descending x l) (x :: l).
Proof.
  induction l as [|y l IH]; simpl; [reflexivity|].
  destruct (descending x y <=? 0); [reflexivity|].
  rewrite IH. apply perm_swap.
Qed.

Lemma sort_perm l : Permutation (Js.sort descending l) l.
Proof.
  induction l as [|x l IH]; simpl; [reflexivity|].
  rewrite insert_perm. now constructor.
Qed.

Lemma insert_sorted x l :
  StronglySorted nonIncreasing l -> StronglySorted nonIncreasing (Js.insert descending x l).
Proof.
  induction 1 as [|y l Hl IH Hy]; simpl.
  - repeat constructor.
  - destruct (Z.leb_spec (descending x y) 0) as [Hle|Hgt].
    + constructor; [now constructor|].
      unfold descending in Hle. constructor; [unfold nonIncreasing; lia|].
      eapply Forall_impl; [exact Hy|]. unfold nonIncreasing. intros z Hz. simpl in *. lia.
    + constructor; [assumption|].
      rewrite (insert_perm x l). constructor; [|assumption].
      unfold descending in Hgt. unfold nonIncreasing. lia.
Qed.

Lemma sort_sorted l : StronglySorted nonIncreasing (Js.sort descending l).
Proof.
  induction l; simpl; [constructor|now apply insert_sorted].
Qed.

(** Stability: records with the same key keep their relative order. *)
Lemma insert_stable t x l :
  List.filter (fun a => key a =? t) (Js.insert descending x l)
  = List.filter (fun a => key a =? t) (x :: l).
Proof.
  induction l as [|y l IH]; [reflexivity|].
  cbn [Js.insert]. destruct (Z.leb_spec (descending x y) 0) as [Hle|Hgt]; [reflexivity|].
  cbn [List.filter] in *. rewrite IH.
  unfold descending in Hgt.
  destruct (Z.eqb_spec (key y) t), (Z.eqb_spec (key x) t); try reflexivity. lia.
Qed.

Lemma sort_stable t l :
  List.filter (fun a => key a =? t) (Js.sort descending l)
  = List.filter (fun a => key a =? t) l.
Proof.
  induction l as [|x l IH]; [reflexivity|].
  cbn [Js.sort]. rewrite insert_stable. cbn [List.filter]. now rewrite IH.
Qed.

Lemma sort_length l : length (Js.sort descending l) = length l.
Proof. apply Permutation_length, sort_perm. Qed.

End SortFacts.

(** For an offset and a limit that are not negative, [slice(offset,
    offset + limit)] drops [offset] elements and takes [limit]. *)
Lemma slice_page {A} (l : list A) (offset limit : Z) :
  0 <= offset -> 0 <= limit ->
  Js.slice l offset (offset + limit) = take (Z.to_nat limit) (drop (Z.to_nat offset) l).
Proof.
  intros Ho Hl. unfold Js.slice.
  destruct (Z.ltb_spec offset 0); [lia|].
  destruct (Z.ltb_spec (offset + limit) 0); [lia|].
  remember (Z.of_nat (length l)) as len eqn:Hlen.
  destruct (Z.le_gt_cases len offset) as [Hge|Hlt].
  - rewrite !Z.min_r by lia. rewrite Z.sub_diag.
    rewrite !drop_ge by lia. now rewrite !take_nil.
  - rewrite (Z.min_l offset) by lia.
    destruct (Z.le_gt_cases (offset + limit) len).
    + rewrite Z.min_l by lia. f_equal. lia.
    + rewrite Z.min_r by lia.
      rewrite !take_ge; [reflexivity| |]; rewrite length_drop; lia.
Qed.

Lemma take3_drop3 {A} (l : list A) :
  length l = 10%nat ->
  exists a b c, l !! 3%nat = Some a /\ l !! 4%nat = Some b /\ l !! 5%nat = Some c
                /\ take 3 (drop 3 l) = [a; b; c].
Proof.
  intros H.
  do 10 (destruct l as [|? l]; [discriminate|]).
  destruct l; [|discriminate]. now eauto 10.
Qed.

(** ** [TrafficStore]: reloading *)

Section StoreFacts.
Context (JSON_parse : string -> option JsonlEntry.t).
Context (JSON_stringify : JsonlEntry.t -> string).

Lemma set_entries_id t : TrafficStore.set_entries (TrafficStore.entries t) t = t.
Proof. now destruct t. Qed.

Lemma add_logs_nil y : add_logs [] y = y.
Proof. destruct y. unfold add_logs. simpl. now rewrite app_nil_r. Qed.

Lemma add_logs_app l1 l2 y : add_logs l2 (add_logs l1 y) = add_logs (l1 ++ l2) y.
Proof. unfold add_logs. simpl. now rewrite app_assoc. Qed.

Lemma add_log_logs l y : add_log l y = add_logs [l] y.
Proof. reflexivity. Qed.

(** The loop of [reloadEntries] over the lines. *)
Lemma parse_loop lines : forall t y,
  forEach lines (fun line =>
    match JSON_parse line with
    | Some entry =>
        set_this (fun s => TrafficStore.set_entries (TrafficStore.entries s ++ [entry]) s)
    | None => sys (logger warn "Failed to parse JSONL line")
    end) (t, y)
  = (Ok tt,
     (TrafficStore.set_entries (TrafficStore.entries t ++ parsed JSON_parse lines) t,
      add_logs (parseWarnings JSON_parse lines) y)).
Proof.
  induction lines as [|line lines IH]; intros t y.
  - cbn. rewrite app_nil_r, set_entries_id, add_logs_nil. reflexivity.
  - cbn [forEach]. unfold bind at 1. unfold parsed, parseWarnings. cbn [omap List.filter].
    destruct (JSON_parse line) as [entry|] eqn:Hp.
    + cbn. rewrite IH. cbn. rewrite Hp. cbn. rewrite <- app_assoc. reflexivity.
    + cbn. rewrite IH. cbn. rewrite Hp. cbn.
      rewrite add_log_logs, add_logs_app. reflexivity.
Qed.

(** [reloadEntries] when the file has grown past the read position. *)
Lemma reload_grown t y content :
  files y !! TrafficStore.jsonlPath t = Some content ->
  fault y OpStat (TrafficStore.jsonlPath t) = None ->
  fault y OpRead (TrafficStore.jsonlPath t) = None ->
  TrafficStore.lastReadPosition t < Js.byteLength content ->
  reloadEntries JSON_parse (t, y)
  = (Ok tt,
     ({| TrafficStore.jsonlPath := TrafficStore.jsonlPath t;
         TrafficStore.entries := parsed JSON_parse (splitLines content);
         TrafficStore.lastReadPosition := Js.byteLength content |},
      add_logs (parseWarnings JSON_parse (splitLines content) ++ [(debug, "Reloaded entries")]) y)).
Proof.
  intros Hf Hs Hr Hlt.
  unfold reloadEntries, bind, this, gets, tryCatch, sys, zoom, fs_stat, fs_readFile, on_file.
  simpl. rewrite Hs, Hf. simpl.
  destruct (Z.leb_spec (Js.byteLength content) (TrafficStore.lastReadPosition t)); [lia|].
  simpl. rewrite Hr, Hf. simpl.
  rewrite parse_loop. simpl.
  rewrite add_log_logs, add_logs_app. reflexivity.
Qed.

(** [reloadEntries] when the file has not grown, or is not there. *)
Lemma reload_unchanged t y :
  fault y OpStat (TrafficStore.jsonlPath t) = None ->
  match files y !! TrafficStore.jsonlPath t with
  | Some content => Js.byteLength content <= TrafficStore.lastReadPosition t
  | None => True
  end ->
  reloadEntries JSON_parse (t, y) = (Ok tt, (t, y)).
Proof.
  intros Hs Hf.
  unfold reloadEntries, bind, this, gets, tryCatch, sys, zoom, fs_stat, on_file.
  simpl. rewrite Hs.
  destruct (files y !! TrafficStore.jsonlPath t) as [content|]; simpl.
  - destruct (Z.leb_spec (Js.byteLength content) (TrafficStore.lastReadPosition t)); [|lia].
    reflexivity.
  - reflexivity.
Qed.

(** On a healthy file [reloadEntries] fulfils, whatever the file holds:
    it leaves the store as it is, or loads the lines that parse. *)
Lemma reload_total t y :
  healthy y (TrafficStore.jsonlPath t) ->
  exists t' y',
    reloadEntries JSON_parse (t, y) = (Ok tt, (t', y'))
    /\ TrafficStore.jsonlPath t' = TrafficStore.jsonlPath t
    /\ files y' = files y /\ fault y' = fault y.
Proof.
  intros H.
  destruct (files y !! TrafficStore.jsonlPath t) as [content|] eqn:Hf.
  - destruct (Z.le_gt_cases (Js.byteLength content) (TrafficStore.lastReadPosition t)).
    + eexists _, _. split; [apply reload_unchanged; [apply H|now rewrite Hf]|]. auto.
    + eexists _, _. split; [eapply reload_grown; eauto; lia|]. auto.
  - eexists _, _. split; [apply reload_unchanged; [apply H|now rewrite Hf]|]. auto.
Qed.

End StoreFacts.

(** ** [TrafficStore.query] *)

Section QueryFacts.
Context (JSON_parse : string -> option JsonlEntry.t).

Lemma filter_and {A} (f g : A -> bool) l :
  List.filter g (List.filter f l) = List.filter (fun x => f x && g x) l.
Proof.
  induction l as [|x l IH]; [reflexivity|].
  simpl. destruct (f x); simpl; [destruct (g x)|]; now rewrite ?IH.
Qed.

Lemma filter_true {A} (l : list A) : List.filter (fun _ => true) l = l.
Proof. induction l; simpl; congruence. Qed.

Lemma filter_option {A B} (x : option B) (f : B -> A -> bool) l :
  match x with Some b => List.filter (f b) l | None => l end
  = List.filter (fun e => match x with Some b => f b e | None => true end) l.
Proof. destruct x; [reflexivity|now rewrite filter_true]. Qed.

(** The chain of filters keeps the records meeting every condition. *)
Lemma applyFilters_matches o l : applyFilters o l = List.filter (matches o) l.
Proof.
  unfold applyFilters, matches.
  unfold byContentType, byStatusRange, byStatusCode, byMethod, byUrlPattern,
    byEndTime, byStartTime.
  cbv zeta. rewrite !filter_option, !filter_and.
  apply List.filter_ext. intros e. now rewrite !andb_assoc.
Qed.

(** [query] once [reloadEntries] has fulfilled. *)
Lemma query_after_reload o t y t' y' :
  reloadEntries JSON_parse (t, y) = (Ok tt, (t', y')) ->
  query JSON_parse o (t, y)
  = (Ok {| QueryResult.entries :=
             map toSummary
               (Js.slice (Js.sort newestFirst (applyFilters o (TrafficStore.entries t')))
                  (QueryOptions.offset o) (QueryOptions.offset o + QueryOptions.limit o));
           QueryResult.total :=
             Z.of_nat (length (Js.sort newestFirst (applyFilters o (TrafficStore.entries t')))) |},
     (t', y')).
Proof.
  intros H. unfold query. rewrite (bind_Ok _ _ _ _ _ H). reflexivity.
Qed.

(** C1. [TrafficStore.query], for an offset and a limit that are not
    negative, and whatever records the reload leaves in the store: the
    survivors of the filters are sorted by [timestampMs], most recent
    first (a stable sort: a permutation of the survivors, in
    non-increasing order, ties in their order of arrival); [total] is the
    number of survivors before pagination; [entries] are the summaries of
    the slice [offset, offset + limit) of the sorted survivors. With 10
    survivors, offset 3 and limit 3, these are the records of ranks 3, 4
    and 5 and [total] is 10. *)
Theorem query_sorted_paginated o t y t' y' :
  0 <= QueryOptions.offset o ->
  0 <= QueryOptions.limit o ->
  reloadEntries JSON_parse (t, y) = (Ok tt, (t', y')) ->
  let survivors := List.filter (matches o) (TrafficStore.entries t') in
  let sorted := Js.sort newestFirst survivors in
  let page :=
    take (Z.to_nat (QueryOptions.limit o)) (drop (Z.to_nat (QueryOptions.offset o)) sorted) in
  query JSON_parse o (t, y)
  = (Ok {| QueryResult.entries := map toSummary page;
           QueryResult.total := Z.of_nat (length survivors) |}, (t', y'))
  /\ Permutation sorted survivors
  /\ StronglySorted
       (fun a b => JsonlEntry.timestampMs b <= JsonlEntry.timestampMs a) sorted
  /\ (forall ts,
        List.filter (fun e => JsonlEntry.timestampMs e =? ts) sorted
        = List.filter (fun e => JsonlEntry.timestampMs e =? ts) survivors)
  /\ (length survivors = 10%nat ->
      QueryOptions.offset o = 3 -> QueryOptions.limit o = 3 ->
      exists a b c,
        sorted !! 3%nat = Some a /\ sorted !! 4%nat = Some b /\ sorted !! 5%nat = Some c
        /\ page = [a; b; c]).
Proof.
  intros Ho Hl Hr survivors sorted page.
  split; [|split; [|split; [|split]]].
  - rewrite (query_after_reload o _ _ _ _ Hr).
    rewrite applyFilters_matches, slice_page by assumption.
    fold survivors. fold sorted.
    unfold sorted at 2. rewrite (sort_length JsonlEntry.timestampMs). reflexivity.
  - apply (sort_perm JsonlEntry.timestampMs).
  - apply (sort_sorted JsonlEntry.timestampMs).
  - intros ts. apply (sort_stable JsonlEntry.timestampMs).
  - intros Hn Hoff Hlim. unfold page. rewrite Hoff, Hlim.
    apply take3_drop3. unfold sorted.
    now rewrite (sort_length JsonlEntry.timestampMs).
Qed.

Lemma parseIntChar_digit d :
  0 <= d <= 9 -> Js.parseIntChar (ascii_of_N (48 + Z.to_N d)) = Some d.
Proof.
  intros H.
  assert (d = 0 \/ d = 1 \/ d = 2 \/ d = 3 \/ d = 4 \/ d = 5 \/ d = 6 \/ d = 7
          \/ d = 8 \/ d = 9) as Hd by lia.
  repeat (destruct Hd as [->|Hd]; [reflexivity|]). now subst.
Qed.

(** C6. A status range whose first character is the digit [d] (['4xx']
    for [d = 4]) keeps exactly the records whose response status is in
    [d*100, d*100+99]: the filter of the range keeps those of its input
    and no other, in their order, and the chain of filters keeps the
    records that pass the other filters, are in the interval and, when a
    status code is given too, have that code; [query] returns the sorted
    page and the count of these. The range and the code are applied
    together, so a code outside the interval leaves no survivor and
    [query] returns no entry and total 0, whatever the store holds. *)
Theorem statusRange_interval_and_code d rest o :
  0 <= d <= 9 ->
  let range := String (ascii_of_N (48 + Z.to_N d)) rest in
  QueryOptions.statusRange o = Some range ->
  let status e := Response.status (JsonlEntry.response e) in
  let inInterval e := (d * 100 <=? status e) && (status e <=? d * 100 + 99) in
  let codeIs e :=
    match QueryOptions.statusCode o with
    | Some c => status e =? c
    | None => true
    end in
  let kept e := matches (withoutStatus o) e && inInterval e && codeIs e in
  (forall e, inStatusRange range e = true <-> d * 100 <= status e <= d * 100 + 99)
  /\ (forall l, byStatusRange o l = List.filter inInterval l)
  /\ (forall l, applyFilters o l = List.filter kept l)
  /\ (forall l e,
        In e (applyFilters o l)
        <-> In e (applyFilters (withoutStatus o) l)
            /\ d * 100 <= status e <= d * 100 + 99
            /\ (forall c, QueryOptions.statusCode o = Some c -> status e = c))
  /\ (forall t y t' y',
        0 <= QueryOptions.offset o -> 0 <= QueryOptions.limit o ->
        reloadEntries JSON_parse (t, y) = (Ok tt, (t', y')) ->
        let survivors := List.filter kept (TrafficStore.entries t') in
        query JSON_parse o (t, y)
        = (Ok {| QueryResult.entries :=
                   map toSummary
                     (take (Z.to_nat (QueryOptions.limit o))
                        (drop (Z.to_nat (QueryOptions.offset o))
                           (Js.sort newestFirst survivors)));
                 QueryResult.total := Z.of_nat (length survivors) |}, (t', y')))
  /\ (forall c,
        QueryOptions.statusCode o = Some c ->
        ~ (d * 100 <= c <= d * 100 + 99) ->
        (forall l, applyFilters o l = [])
        /\ (forall t y t' y',
              reloadEntries JSON_parse (t, y) = (Ok tt, (t', y')) ->
              query JSON_parse o (t, y)
              = (Ok {| QueryResult.entries := []; QueryResult.total := 0 |}, (t', y')))).
Proof.
  intros Hd range Ho status inInterval codeIs kept.
  assert (Hrange : forall e, inStatusRange range e = inInterval e).
  { intros e. unfold inStatusRange, range, inInterval, status. cbn [Js.parseIntHead].
    rewrite parseIntChar_digit by assumption. cbv zeta. now rewrite Z.geb_leb. }
  assert (Hin : forall e, inInterval e = true <-> d * 100 <= status e <= d * 100 + 99).
  { intros e. unfold inInterval. rewrite andb_true_iff, !Z.leb_le. reflexivity. }
  assert (Hkept : forall e, matches o e = kept e).
  { intros e. unfold kept, matches, codeIs, status. cbn [withoutStatus
      QueryOptions.startTimeMs QueryOptions.endTimeMs QueryOptions.urlPattern
      QueryOptions.method QueryOptions.statusCode QueryOptions.statusRange
      QueryOptions.contentType Js.truthy].
    rewrite Ho. replace (Js.truthy (Some range)) with (Some range) by reflexivity.
    rewrite Hrange. unfold status.
    destruct (match QueryOptions.startTimeMs o with Some _ => _ | None => _ end),
      (match QueryOptions.endTimeMs o with Some _ => _ | None => _ end),
      (match Js.truthy (QueryOptions.urlPattern o) with Some _ => _ | None => _ end),
      (match Js.truthy (QueryOptions.method o) with Some _ => _ | None => _ end),
      (match QueryOptions.statusCode o with Some _ => _ | None => _ end),
      (inInterval e),
      (match Js.truthy (QueryOptions.contentType o) with Some _ => _ | None => _ end);
      reflexivity. }
  assert (Hfilters : forall l, applyFilters o l = List.filter kept l).
  { intros l. rewrite applyFilters_matches. now apply List.filter_ext. }
  split; [intros e; now rewrite Hrange|].
  split.
  { intros l. unfold byStatusRange. rewrite Ho.
    replace (Js.truthy (Some range)) with (Some range) by reflexivity.
    now apply List.filter_ext. }
  split; [exact Hfilters|].
  split.
  { intros l e. rewrite Hfilters, applyFilters_matches, !filter_In. unfold kept.
    rewrite !andb_true_iff, Hin. unfold codeIs.
    destruct (QueryOptions.statusCode o) as [c|].
    - rewrite Z.eqb_eq. split.
      + intros (Hl & (Hm & Hi) & Hc). split; [now split|]. split; [exact Hi|].
        now intros c' [= <-].
      + intros ((Hl & Hm) & Hi & Hc). split; [exact Hl|]. split; [now split|]. now apply Hc.
    - split.
      + intros (Hl & (Hm & Hi) & _). split; [now split|]. split; [exact Hi|]. discriminate.
      + intros ((Hl & Hm) & Hi & _). split; [exact Hl|]. now split. }
  split.
  { intros t y t' y' Hoff Hlim Hr survivors.
    rewrite (query_after_reload o _ _ _ _ Hr), Hfilters, slice_page by assumption.
    fold survivors. now rewrite (sort_length JsonlEntry.timestampMs). }
  intros c Hc Hout.
  assert (Hnone : forall l, applyFilters o l = []).
  { intros l. rewrite Hfilters.
    induction l as [|e l IH]; [reflexivity|]. cbn [List.filter].
    replace (kept e) with false; [exact IH|]. symmetry.
    unfold kept, codeIs. rewrite Hc.
    destruct (status e =? c) eqn:Hs; [|now rewrite andb_false_r].
    apply Z.eqb_eq in Hs.
    destruct (inInterval e) eqn:Hr; [apply Hin in Hr; lia|now rewrite andb_false_r]. }
  split; [exact Hnone|].
  intros t y t' y' Hr.
  rewrite (query_after_reload o _ _ _ _ Hr), Hnone.
  unfold Js.slice. cbn [Js.sort]. now rewrite drop_nil, take_nil.
Qed.

End QueryFacts.

(** The example of the claim: ['4xx'] keeps 400 and 499, not 399 or 500. *)
Example statusRange_4xx :
  map (fun st => inStatusRange "4xx" (Demo.record 0 st)) [399; 400; 404; 499; 500]
  = [false; true; true; true; false].
Proof. reflexivity. Qed.

(** Records captured at 100, 300 and 200 come back as 300, 200, 100. *)
Example query_order :
  map JsonlEntry.timestampMs
    (Js.sort newestFirst [Demo.record 100 200; Demo.record 300 200; Demo.record 200 200])
  = [300; 200; 100].
Proof. reflexivity. Qed.

Lemma demo_reload content :
  0 < Js.byteLength content ->
  reloadEntries Demo.parse (TrafficStore.create Demo.path, Demo.disk content)
  = (Ok tt,
     ({| TrafficStore.jsonlPath := Demo.path;
         TrafficStore.entries := parsed Demo.parse (splitLines content);
         TrafficStore.lastReadPosition := Js.byteLength content |},
      add_logs (parseWarnings Demo.parse (splitLines content) ++ [(debug, "Reloaded entries")])
        (Demo.disk content))).
Proof.
  intros H.
  apply (reload_grown Demo.parse (TrafficStore.create Demo.path) (Demo.disk content) content);
    [vm_compute; reflexivity|reflexivity|reflexivity|exact H].
Defined.

Lemma query_sorted_paginated_witness :
  exists r st,
    query Demo.parse (Demo.options 3 3)
      (TrafficStore.create Demo.path, Demo.disk Demo.tenLines) = (Ok r, st)
    /\ map Summary.id (QueryResult.entries r) = ["400"; "400"; "300"]
    /\ map (fun s => Summary.status (Summary.resp s)) (QueryResult.entries r) = [500; 201; 404]
    /\ QueryResult.total r = 10.
Proof.
  pose proof (demo_reload Demo.tenLines eq_refl) as Hr.
  destruct (query_sorted_paginated Demo.parse (Demo.options 3 3) _ _ _ _
              ltac:(simpl; lia) ltac:(simpl; lia) Hr) as (Hq & _).
  eexists _, _. split; [exact Hq|]. repeat split; vm_compute; reflexivity.
Defined.

Lemma statusRange_interval_and_code_witness :
  (exists r st,
     query Demo.parse (Demo.withStatus None (Some "4xx"))
       (TrafficStore.create Demo.path, Demo.disk Demo.tenLines) = (Ok r, st)
     /\ map (fun s => Summary.status (Summary.resp s)) (QueryResult.entries r)
        = [400; 499; 404]
     /\ QueryResult.total r = 3)
  /\ (exists st,
        query Demo.parse (Demo.withStatus (Some 404) (Some "5xx"))
          (TrafficStore.create Demo.path, Demo.disk Demo.tenLines)
        = (Ok {| QueryResult.entries := []; QueryResult.total := 0 |}, st)).
Proof.
  pose proof (demo_reload Demo.tenLines eq_refl) as Hr.
  split.
  - destruct (statusRange_interval_and_code Demo.parse 4 "xx"
                (Demo.withStatus None (Some "4xx")) ltac:(lia) eq_refl)
      as (_ & _ & _ & _ & Hq & _).
    specialize (Hq _ _ _ _ ltac:(simpl; lia) ltac:(simpl; lia) Hr). cbv zeta in Hq.
    eexists _, _. split; [exact Hq|]. split; vm_compute; reflexivity.
  - destruct (statusRange_interval_and_code Demo.parse 5 "xx"
                (Demo.withStatus (Some 404) (Some "5xx")) ltac:(lia) eq_refl)
      as (_ & _ & _ & _ & _ & Hq).
    destruct (Hq 404 eq_refl ltac:(lia)) as (_ & Hquery).
    eexists. apply Hquery. exact Hr.
Defined.

(** ** Lines of text: [join], [trim] and [split] *)

Lemma byteLength_nonneg s : 0 <= Js.byteLength s.
Proof. induction s as [|c s IH]; simpl; [lia|]. destruct (Js.code c <? 128)%N; lia. Qed.

Lemma byteLength_pos s : s <> EmptyString -> 0 < Js.byteLength s.
Proof.
  destruct s as [|c s]; [congruence|]. intros _. simpl.
  pose proof (byteLength_nonneg s). destruct (Js.code c <? 128)%N; lia.
Qed.

Lemma append_cons c s r : String c s +:+ r = String c (s +:+ r).
Proof. reflexivity. Qed.

Lemma append_assoc (a b c : string) : (a +:+ b) +:+ c = a +:+ (b +:+ c).
Proof.
  induction a as [|x a IH]; [reflexivity|].
  rewrite !append_cons. now rewrite IH.
Qed.

Lemma append_nonempty_r a b : b <> EmptyString -> a +:+ b <> EmptyString.
Proof. destruct a; [auto|]. rewrite append_cons. discriminate. Qed.

Lemma trimStart_append s r :
  s <> EmptyString -> Js.trimStart s = s -> Js.trimStart (s +:+ r) = s +:+ r.
Proof.
  destruct s as [|c s]; [congruence|]. intros _. rewrite append_cons. simpl.
  destruct (Js.isWhiteSpace c) eqn:Hc; [|reflexivity].
  intros H. exfalso.
  assert (Hlen : forall u, (String.length (Js.trimStart u) <= String.length u)%nat).
  { induction u as [|d u IHu]; simpl; [lia|]. destruct (Js.isWhiteSpace d); simpl; lia. }
  specialize (Hlen s). rewrite H in Hlen. simpl in Hlen. lia.
Qed.

Lemma trimEnd_append a b :
  b <> EmptyString -> Js.trimEnd b = b -> Js.trimEnd (a +:+ b) = a +:+ b.
Proof.
  intros Hb Ht. induction a as [|c a IH]; [exact Ht|].
  rewrite append_cons. simpl. rewrite IH.
  destruct (a +:+ b) eqn:E; [|reflexivity].
  now apply append_nonempty_r in E.
Qed.

Lemma trimEnd_newline s : Js.trimEnd (s +:+ String Js.LF EmptyString) = Js.trimEnd s.
Proof.
  induction s as [|c s IH]; [reflexivity|].
  rewrite append_cons. simpl. now rewrite IH.
Qed.

Lemma split_line s r :
  Js.split Js.LF s = [s] ->
  Js.split Js.LF (s +:+ String Js.LF r) = s :: Js.split Js.LF r.
Proof.
  induction s as [|c s IH]; intros H; [reflexivity|].
  rewrite append_cons. simpl in *. destruct (Ascii.eqb c Js.LF).
  - destruct (Js.split Js.LF s); discriminate.
  - destruct (Js.split Js.LF s) as [|piece pieces] eqn:E.
    + destruct s; simpl in E; [discriminate|].
      destruct (Ascii.eqb _ _); [discriminate|]. destruct (Js.split Js.LF s); discriminate.
    + injection H as -> ->. rewrite IH by reflexivity. reflexivity.
Qed.

Lemma join_cons x y l :
  Js.join (String Js.LF EmptyString) (x :: y :: l)
  = x +:+ String Js.LF (Js.join (String Js.LF EmptyString) (y :: l)).
Proof. reflexivity. Qed.

Lemma join_nonempty l :
  l <> [] -> Forall (fun x => x <> EmptyString) l ->
  Js.join (String Js.LF EmptyString) l <> EmptyString.
Proof.
  destruct l as [|x [|y l]]; [congruence| |]; intros _ H.
  - inversion H; subst. assumption.
  - rewrite join_cons. apply append_nonempty_r. discriminate.
Qed.

Lemma oneLine_nonempty l : Forall oneLine l -> Forall (fun x => x <> EmptyString) l.
Proof. intros H. eapply Forall_impl; [exact H|]. now intros x (Hx & _). Qed.

Lemma join_unlines l :
  l <> [] -> Js.join (String Js.LF EmptyString) l +:+ String Js.LF EmptyString = unlines l.
Proof.
  induction l as [|x [|y l] IH]; [congruence| |]; intros _.
  - reflexivity.
  - rewrite join_cons.
    change (unlines (x :: y :: l)) with (x +:+ String Js.LF (unlines (y :: l))).
    rewrite <- IH by discriminate.
    now rewrite append_assoc, append_cons.
Qed.

Lemma join_trimStart l :
  l <> [] -> Forall oneLine l ->
  Js.trimStart (Js.join (String Js.LF EmptyString) l) = Js.join (String Js.LF EmptyString) l.
Proof.
  destruct l as [|x [|y l]]; [congruence| |]; intros _ H;
    inversion H as [|? ? (Hx & Hs & _) _]; subst.
  - exact Hs.
  - rewrite join_cons. now apply trimStart_append.
Qed.

Lemma join_trimEnd l :
  l <> [] -> Forall oneLine l ->
  Js.trimEnd (Js.join (String Js.LF EmptyString) l) = Js.join (String Js.LF EmptyString) l.
Proof.
  induction l as [|x [|y l] IH]; [congruence| |]; intros _ H;
    inversion H as [|? ? (Hx & Hs & He & _) Hl]; subst.
  - exact He.
  - rewrite join_cons.
    change (x +:+ String Js.LF (Js.join (String Js.LF EmptyString) (y :: l)))
      with (x +:+ (String Js.LF EmptyString +:+ Js.join (String Js.LF EmptyString) (y :: l))).
    rewrite <- append_assoc. apply trimEnd_append.
    + apply join_nonempty; [discriminate|now apply oneLine_nonempty].
    + now apply IH.
Qed.

Lemma join_split l :
  l <> [] -> Forall oneLine l ->
  Js.split Js.LF (Js.join (String Js.LF EmptyString) l) = l.
Proof.
  induction l as [|x [|y l] IH]; [congruence| |]; intros _ H;
    inversion H as [|? ? (Hx & Hs & He & Hsp) Hl]; subst.
  - exact Hsp.
  - rewrite join_cons, split_line by assumption. now rewrite IH.
Qed.

(** Lines written one per line with a final line feed are read back as
    they were written. *)
Lemma splitLines_join l :
  l <> [] -> Forall oneLine l ->
  splitLines (Js.join (String Js.LF EmptyString) l +:+ String Js.LF EmptyString) = l.
Proof.
  intros Hne H. unfold splitLines, Js.trim.
  rewrite trimStart_append;
    [|apply join_nonempty; auto using oneLine_nonempty|now apply join_trimStart].
  rewrite trimEnd_newline, join_trimEnd, join_split by assumption.
  clear Hne. induction H as [|x l (Hx & _) _ IH]; [reflexivity|].
  simpl. unfold nonEmpty at 1. destruct (String.eqb_spec x EmptyString); [contradiction|].
  simpl. now rewrite IH.
Qed.

(** ** [TrafficStore.clear] and the round trip through the log file *)

Section ClearFacts.
Context (JSON_parse : string -> option JsonlEntry.t).
Context (JSON_stringify : JsonlEntry.t -> string).

Lemma retained_removed b es :
  (length (retained b es) + length (removed b es) = length es)%nat.
Proof.
  destruct b as [t0|]; simpl; [|reflexivity].
  induction es as [|e es IH]; simpl; [reflexivity|].
  destruct (Z.geb_spec (JsonlEntry.timestampMs e) t0), (Z.ltb_spec (JsonlEntry.timestampMs e) t0);
    simpl; lia.
Qed.

Lemma In_retained b es e :
  In e (retained b es)
  <-> In e es /\ match b with
                | Some t0 => t0 <= JsonlEntry.timestampMs e
                | None => False
                end.
Proof.
  destruct b as [t0|]; simpl; [|tauto].
  rewrite filter_In, Z.geb_le. tauto.
Qed.

(** The text written for records whose JSON text is not empty: the text
    of each record followed by a line feed. *)
Lemma logText_unlines es :
  Forall (fun e => JSON_stringify e <> EmptyString) es ->
  logText JSON_stringify es = unlines (map JSON_stringify es).
Proof.
  intros H. unfold logText. cbv zeta.
  destruct es as [|e es]; [reflexivity|].
  destruct (String.eqb_spec (Js.join (String Js.LF EmptyString) (map JSON_stringify (e :: es))) EmptyString) as [E|_].
  - exfalso. revert E. apply join_nonempty; [discriminate|].
    now apply Forall_map.
  - now apply join_unlines.
Qed.

(** [clear] once [reloadEntries] has fulfilled, when the file can be
    written and examined. *)
Lemma clear_after_reload b t y t' y' :
  reloadEntries JSON_parse (t, y) = (Ok tt, (t', y')) ->
  fault y' OpWrite (TrafficStore.jsonlPath t') = None ->
  fault y' OpStat (TrafficStore.jsonlPath t') = None ->
  let kept := retained b (TrafficStore.entries t') in
  clear JSON_parse JSON_stringify b (t, y)
  = (Ok (Z.of_nat (length (TrafficStore.entries t')) - Z.of_nat (length kept)),
     ({| TrafficStore.jsonlPath := TrafficStore.jsonlPath t';
         TrafficStore.entries := kept;
         TrafficStore.lastReadPosition := Js.byteLength (logText JSON_stringify kept) |},
      set_files (insert (TrafficStore.jsonlPath t') (logText JSON_stringify kept)) y')).
Proof.
  intros Hr Hw Hs kept. unfold clear. rewrite (bind_Ok _ _ _ _ _ Hr).
  unfold bind, this, gets, set_this, modify, sys, zoom, fs_writeFile, fs_stat, on_file, ret.
  simpl. rewrite Hw. simpl. rewrite Hs. rewrite lookup_insert_eq. reflexivity.
Qed.

Lemma parsed_stringify es :
  Forall (fun e => JSON_parse (JSON_stringify e) = Some e) es ->
  parsed JSON_parse (map JSON_stringify es) = es.
Proof.
  induction 1 as [|e es He _ IH]; [reflexivity|].
  unfold parsed in *. cbn [map omap list_omap]. rewrite He. now rewrite IH.
Qed.

(** The methods fulfil on a healthy file, whatever it holds. *)
Lemma query_total o t y :
  healthy y (TrafficStore.jsonlPath t) ->
  exists r st, query JSON_parse o (t, y) = (Ok r, st).
Proof.
  intros H. destruct (reload_total JSON_parse t y H) as (t' & y' & Hr & _).
  eexists _, _. apply (query_after_reload JSON_parse o _ _ _ _ Hr).
Qed.

Lemma getEntry_total entryId t y :
  healthy y (TrafficStore.jsonlPath t) ->
  exists r st, getEntry JSON_parse entryId (t, y) = (Ok r, st).
Proof.
  intros H. destruct (reload_total JSON_parse t y H) as (t' & y' & Hr & _).
  unfold getEntry. rewrite (bind_Ok _ _ _ _ _ Hr).
  unfold bind, this, gets. simpl.
  destruct (find _ _); eexists _, _; reflexivity.
Qed.

Lemma getStats_total nowMs t y :
  healthy y (TrafficStore.jsonlPath t) ->
  exists r st, getStats JSON_parse nowMs (t, y) = (Ok r, st).
Proof.
  intros H. destruct (reload_total JSON_parse t y H) as (t' & y' & Hr & _).
  unfold getStats. rewrite (bind_Ok _ _ _ _ _ Hr).
  unfold bind, this, gets. simpl.
  destruct (fold_left _ _ _) as [[a b] c]. eexists _, _; reflexivity.
Qed.

Lemma clear_total b t y :
  healthy y (TrafficStore.jsonlPath t) ->
  exists r st, clear JSON_parse JSON_stringify b (t, y) = (Ok r, st).
Proof.
  intros H. destruct (reload_total JSON_parse t y H) as (t' & y' & Hr & Hp & _ & Hf).
  eexists _, _. apply (clear_after_reload b _ _ _ _ Hr); rewrite Hf, Hp; apply H.
Qed.

Lemma unlines_ends l :
  l <> [] -> exists body, unlines l = body +:+ String Js.LF EmptyString.
Proof.
  induction l as [|x l IH]; [congruence|]. intros _.
  destruct l as [|z l].
  - exists x. reflexivity.
  - destruct IH as [body Hb]; [discriminate|].
    exists (x +:+ String Js.LF body).
    change (unlines (x :: z :: l)) with (x +:+ String Js.LF (unlines (z :: l))).
    rewrite Hb. now rewrite append_assoc, append_cons.
Qed.

Lemma In_removed b es e :
  In e (removed b es)
  <-> In e es /\ match b with
                | Some t0 => JsonlEntry.timestampMs e < t0
                | None => True
                end.
Proof.
  destruct b as [t0|]; simpl; [|tauto].
  rewrite filter_In, Z.ltb_lt. tauto.
Qed.

(** C2. [clear(T)], on records whose JSON text is not empty and a log
    file that can be written and examined: the store and the file keep
    exactly the records with [timestampMs >= T] (none without a
    threshold); the call returns the number of records removed, those
    with [timestampMs < T]; the file holds the JSON text of each record
    kept followed by a line feed, so it ends with a line feed exactly
    when some record is kept; [lastReadPosition] is the size of the file
    written. *)
Theorem clear_retains_recent b t y t' y' :
  reloadEntries JSON_parse (t, y) = (Ok tt, (t', y')) ->
  fault y' OpWrite (TrafficStore.jsonlPath t') = None ->
  fault y' OpStat (TrafficStore.jsonlPath t') = None ->
  Forall (fun e => JSON_stringify e <> EmptyString) (TrafficStore.entries t') ->
  let kept := retained b (TrafficStore.entries t') in
  let text := unlines (map JSON_stringify kept) in
  let written := set_files (insert (TrafficStore.jsonlPath t') text) y' in
  clear JSON_parse JSON_stringify b (t, y)
  = (Ok (Z.of_nat (length (removed b (TrafficStore.entries t')))),
     ({| TrafficStore.jsonlPath := TrafficStore.jsonlPath t';
         TrafficStore.entries := kept;
         TrafficStore.lastReadPosition := Js.byteLength text |}, written))
  /\ (forall e,
        In e kept
        <-> In e (TrafficStore.entries t')
            /\ match b with
               | Some t0 => t0 <= JsonlEntry.timestampMs e
               | None => False
               end)
  /\ (forall e,
        In e (removed b (TrafficStore.entries t'))
        <-> In e (TrafficStore.entries t')
            /\ match b with
               | Some t0 => JsonlEntry.timestampMs e < t0
               | None => True
               end)
  /\ files written !! TrafficStore.jsonlPath t' = Some text
  /\ fs_stat (TrafficStore.jsonlPath t') written = (Ok (Js.byteLength text), written)
  /\ ((exists body, text = body +:+ String Js.LF EmptyString) <-> kept <> []).
Proof.
  intros Hr Hw Hs Hne kept text written.
  assert (Hkept : Forall (fun e => JSON_stringify e <> EmptyString) kept).
  { apply Forall_forall. intros e He.
    apply list_elem_of_In, In_retained in He as [He _].
    apply list_elem_of_In in He. revert e He. now apply Forall_forall. }
  split; [|split; [|split; [|split; [|split]]]].
  - rewrite (clear_after_reload b _ _ _ _ Hr Hw Hs). cbv zeta. fold kept.
    rewrite (logText_unlines _ Hkept). fold text.
    pose proof (retained_removed b (TrafficStore.entries t')) as Hlen. fold kept in Hlen.
    repeat f_equal. lia.
  - intros e. apply In_retained.
  - intros e. apply In_removed.
  - unfold written. simpl. apply lookup_insert_eq.
  - unfold fs_stat, on_file, written. simpl. rewrite Hs, lookup_insert_eq. reflexivity.
  - split.
    + intros [body Hb] Hk. unfold text in Hb. rewrite Hk in Hb. simpl in Hb.
      symmetry in Hb. revert Hb. apply append_nonempty_r. discriminate.
    + intros Hk. apply unlines_ends. unfold text.
      destruct kept; [congruence|discriminate].
Qed.

(** C9. After [clear(T)] a fresh store initialised on the rewritten file
    loads exactly the records kept, provided [JSON.parse] inverts
    [JSON.stringify] on them and the text of each is one line: writing
    one JSON text per line and parsing the lines again is the identity
    on the records kept. *)
Theorem clear_round_trip b t y t' y' :
  reloadEntries JSON_parse (t, y) = (Ok tt, (t', y')) ->
  healthy y' (TrafficStore.jsonlPath t') ->
  let kept := retained b (TrafficStore.entries t') in
  Forall (fun e => JSON_parse (JSON_stringify e) = Some e /\ oneLine (JSON_stringify e)) kept ->
  exists n t1 y1 text,
    clear JSON_parse JSON_stringify b (t, y) = (Ok n, (t1, y1))
    /\ TrafficStore.entries t1 = kept
    /\ files y1 !! TrafficStore.jsonlPath t' = Some text
    /\ parsed JSON_parse (splitLines text) = kept
    /\ exists y2,
         bind initialize (fun _ => reloadEntries JSON_parse)
           (TrafficStore.create (TrafficStore.jsonlPath t'), y1)
         = (Ok tt,
            ({| TrafficStore.jsonlPath := TrafficStore.jsonlPath t';
                TrafficStore.entries := kept;
                TrafficStore.lastReadPosition := Js.byteLength text |}, y2)).
Proof.
  intros Hr H kept Hcodec.
  assert (Hparse : Forall (fun e => JSON_parse (JSON_stringify e) = Some e) kept)
    by (eapply Forall_impl; [exact Hcodec|]; now intros e [? _]).
  assert (Hlines : Forall oneLine (map JSON_stringify kept)).
  { apply Forall_map. eapply Forall_impl; [exact Hcodec|]. now intros e [_ ?]. }
  pose proof (clear_after_reload b _ _ _ _ Hr (H OpWrite) (H OpStat)) as Hclear.
  cbv zeta in Hclear. fold kept in Hclear. clearbody kept.
  set (text := logText JSON_stringify kept) in *.
  assert (Hread : parsed JSON_parse (splitLines text) = kept).
  { unfold text, logText. cbv zeta. destruct kept as [|e es]; [reflexivity|].
    destruct (String.eqb_spec (Js.join (String Js.LF EmptyString) (map JSON_stringify (e :: es))) EmptyString)
      as [E|_].
    - exfalso. revert E. apply join_nonempty; [discriminate|].
      now apply oneLine_nonempty.
    - rewrite splitLines_join by (discriminate || assumption).
      now apply parsed_stringify. }
  clearbody text.
  set (y1 := set_files (insert (TrafficStore.jsonlPath t') text) y') in *.
  assert (Hf : files y1 !! TrafficStore.jsonlPath t' = Some text)
    by (simpl; apply lookup_insert_eq).
  assert (Hh : healthy y1 (TrafficStore.jsonlPath t')) by exact H.
  clearbody y1.
  exists (Z.of_nat (length (TrafficStore.entries t')) - Z.of_nat (length kept)).
  eexists _, y1, text.
  split; [exact Hclear|]. split; [reflexivity|]. split; [exact Hf|]. split; [exact Hread|].
  assert (Hinit : initialize (TrafficStore.create (TrafficStore.jsonlPath t'), y1)
                  = (Ok tt, (TrafficStore.create (TrafficStore.jsonlPath t'),
                             add_log (info, "Traffic store initialized") y1))).
  { unfold initialize, bind, this, gets, tryCatch, sys, zoom, fs_access, on_file, logger, modify.
    simpl. rewrite (Hh OpAccess), Hf. reflexivity. }
  rewrite (bind_Ok _ _ _ _ _ Hinit).
  destruct (Z.le_gt_cases (Js.byteLength text) 0) as [Hz|Hz].
  - exists (add_log (info, "Traffic store initialized") y1).
    rewrite reload_unchanged; [|apply Hh|simpl; rewrite Hf; exact Hz].
    assert (text = EmptyString) as ->.
    { destruct text as [|c s]; [reflexivity|].
      pose proof (byteLength_pos (String c s) ltac:(discriminate)). lia. }
    change (splitLines EmptyString) with (@nil string) in Hread. simpl in Hread.
    rewrite <- Hread. reflexivity.
  - eexists.
    rewrite (reload_grown JSON_parse _ _ text); [|exact Hf|apply Hh|apply Hh|exact Hz].
    rewrite Hread. reflexivity.
Qed.

End ClearFacts.

(** ** The store when a line is [null] *)

Lemma slice_map {A B} (f : A -> B) (l : list A) start end_ :
  Js.slice (map f l) start end_ = map f (Js.slice l start end_).
Proof. unfold Js.slice. now rewrite length_map, skipn_map, firstn_map. Qed.

Section RawFacts.
Context (JSON_parse : string -> Parsed).
Context (JSON_stringify : JsonlEntry.t -> string).

Lemma raw_set_entries_id t : RawStore.set_entries (RawStore.entries t) t = t.
Proof. now destruct t. Qed.

(** The loop of [reloadEntries] over the lines. *)
Lemma raw_parse_loop lines : forall t y,
  forEach lines (fun line =>
    match JSON_parse line with
    | JsonRecord entry => Raw.push (Some entry)
    | JsonNull => Raw.push None
    | NotJson => Raw.sys (logger warn "Failed to parse JSONL line")
    end) (t, y)
  = (Ok tt,
     (RawStore.set_entries (RawStore.entries t ++ Raw.loaded JSON_parse lines) t,
      add_logs (Raw.warnings JSON_parse lines) y)).
Proof.
  induction lines as [|line lines IH]; intros t y.
  - cbn. rewrite app_nil_r, raw_set_entries_id, add_logs_nil. reflexivity.
  - cbn [forEach]. unfold bind at 1. unfold Raw.loaded, Raw.warnings.
    cbn [omap list_omap List.filter].
    destruct (JSON_parse line) as [| |entry] eqn:Hp.
    + cbn. rewrite IH. cbn. rewrite add_log_logs, add_logs_app. reflexivity.
    + cbn. rewrite IH. cbn. rewrite <- app_assoc. reflexivity.
    + cbn. rewrite IH. cbn. rewrite <- app_assoc. reflexivity.
Qed.

(** [reloadEntries] when the file has grown past the read position:
    whatever the lines are. *)
Lemma raw_reload_grown t y content :
  files y !! RawStore.jsonlPath t = Some content ->
  fault y OpStat (RawStore.jsonlPath t) = None ->
  fault y OpRead (RawStore.jsonlPath t) = None ->
  RawStore.lastReadPosition t < Js.byteLength content ->
  Raw.reloadEntries JSON_parse (t, y)
  = (Ok tt,
     ({| RawStore.jsonlPath := RawStore.jsonlPath t;
         RawStore.entries := Raw.loaded JSON_parse (splitLines content);
         RawStore.lastReadPosition := Js.byteLength content |},
      add_logs (Raw.warnings JSON_parse (splitLines content) ++ [(debug, "Reloaded entries")])
        y)).
Proof.
  intros Hf Hs Hr Hlt.
  unfold Raw.reloadEntries, bind, Raw.this, gets, tryCatch, Raw.sys, zoom, fs_stat,
    fs_readFile, on_file.
  simpl. rewrite Hs, Hf. simpl.
  destruct (Z.leb_spec (Js.byteLength content) (RawStore.lastReadPosition t)); [lia|].
  simpl. rewrite Hr, Hf. simpl.
  rewrite raw_parse_loop. simpl.
  rewrite add_log_logs, add_logs_app. reflexivity.
Qed.

(** [reloadEntries] when the file has not grown past the read position. *)
Lemma raw_reload_unchanged t y content :
  files y !! RawStore.jsonlPath t = Some content ->
  fault y OpStat (RawStore.jsonlPath t) = None ->
  Js.byteLength content <= RawStore.lastReadPosition t ->
  Raw.reloadEntries JSON_parse (t, y) = (Ok tt, (t, y)).
Proof.
  intros Hf Hs Hle.
  unfold Raw.reloadEntries, bind, Raw.this, gets, tryCatch, Raw.sys, zoom, fs_stat, on_file.
  simpl. rewrite Hs, Hf. simpl.
  destruct (Z.leb_spec (Js.byteLength content) (RawStore.lastReadPosition t)); [|lia].
  reflexivity.
Qed.

(** On lines none of which is [null], the array holds the records the
    embedding of records loads, and the warnings are the same. *)
Lemma loaded_records lines :
  Raw.recordLines JSON_parse lines ->
  Raw.loaded JSON_parse lines = map Some (parsed (Raw.recordOf JSON_parse) lines)
  /\ Raw.warnings JSON_parse lines = parseWarnings (Raw.recordOf JSON_parse) lines.
Proof.
  unfold Raw.recordLines, Raw.loaded, parsed, Raw.warnings, parseWarnings, Raw.recordOf.
  induction 1 as [|line lines Hline _ [IH1 IH2]]; [now split|].
  cbn [omap list_omap List.filter].
  destruct Hline as [E|[e E]]; rewrite E.
  - split; [exact IH1|]. simpl. now rewrite IH2.
  - split; [simpl; now rewrite IH1|]. simpl. exact IH2.
Qed.

Lemma reload_lift t y :
  Raw.recordLog JSON_parse y (TrafficStore.jsonlPath t) ->
  Raw.reloadEntries JSON_parse (Raw.lift t, y)
  = Raw.lifted (reloadEntries (Raw.recordOf JSON_parse) (t, y)).
Proof.
  intros Hlog.
  unfold Raw.reloadEntries, reloadEntries, Raw.lifted, bind, Raw.this, this, gets, tryCatch,
    Raw.sys, sys, zoom, fs_stat, fs_readFile, on_file.
  cbn [fst snd Raw.lift RawStore.jsonlPath RawStore.lastReadPosition].
  destruct (fault y OpStat (TrafficStore.jsonlPath t)) as [err|].
  { cbn. destruct (String.eqb (fst err) ENOENT); reflexivity. }
  destruct (files y !! TrafficStore.jsonlPath t) as [content|] eqn:Hf; [|reflexivity].
  cbn [fst snd].
  destruct (Js.byteLength content <=? TrafficStore.lastReadPosition t); [reflexivity|].
  cbn [fst snd].
  destruct (fault y OpRead (TrafficStore.jsonlPath t)) as [err|].
  { cbn. destruct (String.eqb (fst err) ENOENT); reflexivity. }
  rewrite Hf. cbn [fst snd].
  unfold Raw.set_this, set_this, modify. cbn [fst snd].
  rewrite raw_parse_loop, parse_loop. cbn.
  destruct (loaded_records _ (Hlog _ Hf)) as [-> ->]. reflexivity.
Qed.

Lemma filter_lift {S} k p l (s : S) :
  Raw.filter k p (map Some l) s = (Ok (map Some (List.filter p l)), s).
Proof.
  induction l as [|e l IH]; [reflexivity|].
  cbn [map Raw.filter List.filter]. rewrite (bind_Ok _ _ _ _ _ IH).
  now destruct (p e).
Qed.

Lemma applyFilters_lift {S} o l (s : S) :
  Raw.applyFilters o (map Some l) s = (Ok (map Some (applyFilters o l)), s).
Proof.
  unfold Raw.applyFilters, applyFilters.
  assert (H1 : Raw.byStartTime o (map Some l) s = (Ok (map Some (byStartTime o l)), s))
    by (unfold Raw.byStartTime, byStartTime;
        destruct (QueryOptions.startTimeMs o); [apply filter_lift|reflexivity]).
  rewrite (bind_Ok _ _ _ _ _ H1). clear H1. generalize (byStartTime o l). clear l. intros l.
  assert (H1 : Raw.byEndTime o (map Some l) s = (Ok (map Some (byEndTime o l)), s))
    by (unfold Raw.byEndTime, byEndTime;
        destruct (QueryOptions.endTimeMs o); [apply filter_lift|reflexivity]).
  rewrite (bind_Ok _ _ _ _ _ H1). clear H1. generalize (byEndTime o l). clear l. intros l.
  assert (H1 : Raw.byUrlPattern o (map Some l) s = (Ok (map Some (byUrlPattern o l)), s))
    by (unfold Raw.byUrlPattern, byUrlPattern;
        destruct (Js.truthy (QueryOptions.urlPattern o)); [apply filter_lift|reflexivity]).
  rewrite (bind_Ok _ _ _ _ _ H1). clear H1. generalize (byUrlPattern o l). clear l. intros l.
  assert (H1 : Raw.byMethod o (map Some l) s = (Ok (map Some (byMethod o l)), s))
    by (unfold Raw.byMethod, byMethod;
        destruct (Js.truthy (QueryOptions.method o)); [apply filter_lift|reflexivity]).
  rewrite (bind_Ok _ _ _ _ _ H1). clear H1. generalize (byMethod o l). clear l. intros l.
  assert (H1 : Raw.byStatusCode o (map Some l) s = (Ok (map Some (byStatusCode o l)), s))
    by (unfold Raw.byStatusCode, byStatusCode;
        destruct (QueryOptions.statusCode o); [apply filter_lift|reflexivity]).
  rewrite (bind_Ok _ _ _ _ _ H1). clear H1. generalize (byStatusCode o l). clear l. intros l.
  assert (H1 : Raw.byStatusRange o (map Some l) s = (Ok (map Some (byStatusRange o l)), s))
    by (unfold Raw.byStatusRange, byStatusRange;
        destruct (Js.truthy (QueryOptions.statusRange o)); [apply filter_lift|reflexivity]).
  rewrite (bind_Ok _ _ _ _ _ H1). clear H1. generalize (byStatusRange o l). clear l. intros l.
  unfold Raw.byContentType, byContentType.
  destruct (Js.truthy (QueryOptions.contentType o)); [apply filter_lift|reflexivity].
Qed.

Lemma records_lift l : Raw.records (map Some l) = l.
Proof. unfold Raw.records. induction l as [|e l IH]; [reflexivity|]. cbn. now rewrite IH. Qed.

Lemma isNull_lift l : existsb Raw.isNull (map Some l) = false.
Proof. induction l as [|e l IH]; [reflexivity|exact IH]. Qed.

Lemma sort_lift {S} l (s : S) :
  Raw.sort (map Some l) s = (Ok (map Some (Js.sort newestFirst l)), s).
Proof.
  destruct l as [|a [|b l]]; [reflexivity|reflexivity|].
  unfold Raw.sort. cbn [map]. rewrite <- !map_cons, isNull_lift, records_lift. reflexivity.
Qed.

Lemma summaries_lift {S} l (s : S) :
  Raw.summaries (map Some l) s = (Ok (map toSummary l), s).
Proof.
  induction l as [|e l IH]; [reflexivity|].
  cbn [map Raw.summaries]. now rewrite (bind_Ok _ _ _ _ _ IH).
Qed.

Lemma find_lift {S} entryId l (s : S) :
  Raw.find entryId (map Some l) s
  = (Ok (List.find (fun e => String.eqb (JsonlEntry.id e) entryId) l), s).
Proof.
  induction l as [|e l IH]; [reflexivity|].
  cbn [map Raw.find List.find]. now destruct (String.eqb (JsonlEntry.id e) entryId).
Qed.

Lemma tally_lift {S} t0 l : forall acc (s : S),
  Raw.tally t0 acc (map Some l) s = (Ok (fold_left (accumulate t0) l acc), s).
Proof. induction l as [|e l IH]; intros acc s; [reflexivity|]. cbn [map Raw.tally fold_left]. apply IH. Qed.

Lemma logText_lift es : Raw.logText JSON_stringify (map Some es) = logText JSON_stringify es.
Proof. unfold Raw.logText, logText. now rewrite map_map. Qed.

Lemma bind_Pending {S A B} (m : M S A) (k : A -> M S B) s s' :
  m s = (Pending, s') -> bind m k s = (Pending, s').
Proof. intros H. unfold bind. now rewrite H. Qed.

Ltac after_reload Hlog E t' y' :=
  let Hr := fresh "Hr" in
  pose proof (reload_lift _ _ Hlog) as Hr; unfold Raw.lifted in Hr;
  match type of Hr with
  | _ = (fst (reloadEntries ?P (?t, ?y)), _) =>
      destruct (reloadEntries P (t, y)) as [[[]|?|] [t' y']] eqn:E; cbn [fst snd] in Hr;
      [rewrite (bind_Ok _ _ _ _ _ Hr), (bind_Ok _ _ _ _ _ E)
      |rewrite (bind_Throw _ _ _ _ _ Hr), (bind_Throw _ _ _ _ _ E); reflexivity
      |rewrite (bind_Pending _ _ _ _ Hr), (bind_Pending _ _ _ _ E); reflexivity]
  end.

(** On a log of records, the methods answer as in the embedding of
    records. *)
Lemma query_lift o t y :
  Raw.recordLog JSON_parse y (TrafficStore.jsonlPath t) ->
  Raw.query JSON_parse o (Raw.lift t, y) = Raw.lifted (query (Raw.recordOf JSON_parse) o (t, y)).
Proof.
  intros Hlog. unfold Raw.query, query. after_reload Hlog E t' y'.
  unfold bind at 1. unfold Raw.this, gets. cbn [fst snd Raw.lift RawStore.entries].
  rewrite (bind_Ok _ _ _ _ _ (applyFilters_lift _ _ _)).
  rewrite (bind_Ok _ _ _ _ _ (sort_lift _ _)).
  rewrite slice_map, (bind_Ok _ _ _ _ _ (summaries_lift _ _)).
  now rewrite length_map.
Qed.

Lemma getEntry_lift entryId t y :
  Raw.recordLog JSON_parse y (TrafficStore.jsonlPath t) ->
  Raw.getEntry JSON_parse entryId (Raw.lift t, y)
  = Raw.lifted (getEntry (Raw.recordOf JSON_parse) entryId (t, y)).
Proof.
  intros Hlog. unfold Raw.getEntry, getEntry. after_reload Hlog E t' y'.
  unfold bind at 1. unfold Raw.this, gets. cbn [fst snd Raw.lift RawStore.entries].
  rewrite (bind_Ok _ _ _ _ _ (find_lift _ _ _)).
  unfold bind, this, gets. cbn [fst snd].
  now destruct (List.find _ _).
Qed.

Lemma getStats_lift nowMs t y :
  Raw.recordLog JSON_parse y (TrafficStore.jsonlPath t) ->
  Raw.getStats JSON_parse nowMs (Raw.lift t, y)
  = Raw.lifted (getStats (Raw.recordOf JSON_parse) nowMs (t, y)).
Proof.
  intros Hlog. unfold Raw.getStats, getStats. after_reload Hlog E t' y'.
  unfold bind at 1. unfold Raw.this, gets. cbn [fst snd Raw.lift RawStore.entries].
  rewrite (bind_Ok _ _ _ _ _ (tally_lift _ _ _ _)).
  unfold bind, this, gets. cbn [fst snd]. rewrite length_map.
  now destruct (fold_left _ _ _) as [[a b] c].
Qed.

Lemma clear_lift b t y :
  Raw.recordLog JSON_parse y (TrafficStore.jsonlPath t) ->
  Raw.clear JSON_parse JSON_stringify b (Raw.lift t, y)
  = Raw.lifted (clear (Raw.recordOf JSON_parse) JSON_stringify b (t, y)).
Proof.
  intros Hlog. unfold Raw.clear, clear. after_reload Hlog E t' y'.
  unfold bind at 1. unfold Raw.this at 1, gets. cbn [fst snd Raw.lift RawStore.entries].
  assert (Hkept : forall s : RawStore.t * Sys,
             match b with
             | Some t0 =>
                 Raw.filter "timestampMs" (fun e => JsonlEntry.timestampMs e >=? t0)
                   (map Some (TrafficStore.entries t'))
             | None => ret []
             end s = (Ok (map Some (retained b (TrafficStore.entries t'))), s))
    by (intros s; destruct b; [apply filter_lift|reflexivity]).
  rewrite (bind_Ok _ _ _ _ _ (Hkept _)).
  unfold bind, this, Raw.this, gets, set_this, Raw.set_this, modify, sys, Raw.sys, zoom,
    fs_writeFile, fs_stat, on_file, ret, Raw.lifted.
  cbn [fst snd Raw.lift RawStore.entries RawStore.jsonlPath RawStore.set_entries
       TrafficStore.entries TrafficStore.jsonlPath TrafficStore.set_entries].
  rewrite logText_lift, !length_map.
  destruct (fault y' OpWrite (TrafficStore.jsonlPath t')); [reflexivity|].
  cbn [fst snd files fault set_files].
  destruct (fault y' OpStat (TrafficStore.jsonlPath t')); [reflexivity|].
  rewrite lookup_insert_eq. reflexivity.
Qed.


End RawFacts.

(** ** The claims on the example log *)

Lemma demo_healthy content p : healthy (Demo.disk content) p.
Proof. intros op. reflexivity. Defined.

Lemma clear_retains_recent_witness :
  exists st,
    clear Demo.parse Demo.stringify (Some 400)
      (TrafficStore.create Demo.path, Demo.disk Demo.tenLines) = (Ok 5, st)
    /\ map JsonlEntry.timestampMs (TrafficStore.entries (fst st)) = [400; 400; 600; 700; 650]
    /\ files (snd st) !! Demo.path
       = Some (Demo.lines ["400:500"; "400:201"; "600:499"; "700:400"; "650:399"])
    /\ TrafficStore.lastReadPosition (fst st) = 40.
Proof.
  destruct (clear_retains_recent Demo.parse Demo.stringify (Some 400) _ _ _ _
              (demo_reload Demo.tenLines eq_refl) eq_refl eq_refl) as (Hc & _).
  - vm_compute. repeat (constructor; [discriminate|]). constructor.
  - eexists. split; [exact Hc|]. repeat split; vm_compute; reflexivity.
Defined.



Lemma clear_round_trip_witness :
  exists n t1 y1 t2 y2,
    clear Demo.parse Demo.stringify (Some 400)
      (TrafficStore.create Demo.path, Demo.disk Demo.tenLines) = (Ok n, (t1, y1))
    /\ bind initialize (fun _ => reloadEntries Demo.parse) (TrafficStore.create Demo.path, y1)
       = (Ok tt, (t2, y2))
    /\ TrafficStore.entries t2 = TrafficStore.entries t1
    /\ map JsonlEntry.timestampMs (TrafficStore.entries t1) = [400; 400; 600; 700; 650].
Proof.
  destruct (clear_round_trip Demo.parse Demo.stringify (Some 400) _ _ _ _
              (demo_reload Demo.tenLines eq_refl) (demo_healthy _ _))
    as (n & t1 & y1 & text & Hc & Hk & Hf & _ & y2 & Hfresh).
  - cbv zeta.
    replace (retained (Some 400) _)
      with [Demo.record 400 500; Demo.record 400 201; Demo.record 600 499;
            Demo.record 700 400; Demo.record 650 399] by (vm_compute; reflexivity).
    repeat (constructor;
            [split; [vm_compute; reflexivity
                    |repeat split; vm_compute; (discriminate || reflexivity)]|]).
    constructor.
  - exists n, t1, y1. eexists _, y2. split; [exact Hc|]. split; [exact Hfresh|].
    rewrite Hk. split; [reflexivity|]. vm_compute. reflexivity.
Defined.

(** ** Objects and [StateClient.updateMitm] *)

Lemma obj_get_set_eq k v o : obj_get k (obj_set k v o) = Some v.
Proof.
  induction o as [|[k' v'] o IH]; simpl.
  - now rewrite String.eqb_refl.
  - destruct (String.eqb_spec k k') as [->|Hne]; simpl.
    + now rewrite String.eqb_refl.
    + destruct (String.eqb_spec k k'); [contradiction|exact IH].
Qed.

Lemma obj_get_set_ne k k' v o : k <> k' -> obj_get k (obj_set k' v o) = obj_get k o.
Proof.
  intros Hne. induction o as [|[k0 v0] o IH]; simpl.
  - destruct (String.eqb_spec k k'); [contradiction|reflexivity].
  - destruct (String.eqb_spec k' k0) as [->|Hne']; simpl.
    + destruct (String.eqb_spec k k0); [contradiction|reflexivity].
    + destruct (String.eqb_spec k k0); [reflexivity|exact IH].
Qed.

(** Defining a property neither adds nor moves the other keys. *)
Lemma obj_set_keys k v o :
  map fst (obj_set k v o)
  = match obj_get k o with
    | Some _ => map fst o
    | None => map fst o ++ [k]
    end.
Proof.
  induction o as [|[k' v'] o IH]; [reflexivity|].
  simpl. destruct (String.eqb_spec k k') as [->|Hne]; simpl; [reflexivity|].
  rewrite IH. now destruct (obj_get k o).
Qed.

(** A spread [{...target, ...src}] of an object literal [src]: the
    properties of [src] win, the others are those of [target]. *)
Lemma obj_get_spread k target src :
  NoDup (map fst src) ->
  obj_get k (obj_spread target src)
  = match obj_get k src with
    | Some v => Some v
    | None => obj_get k target
    end.
Proof.
  unfold obj_spread. revert target.
  induction src as [|[k' v'] src IH]; intros target Hnd; [reflexivity|].
  apply NoDup_cons in Hnd as [Hk' Hnd]. simpl. rewrite IH by assumption.
  destruct (String.eqb_spec k k') as [->|Hne].
  - destruct (obj_get k' src) eqn:E.
    + exfalso. apply Hk'. clear -E. induction src as [|[k0 v0] src IH]; [discriminate|].
      simpl in *. destruct (String.eqb_spec k' k0) as [->|]; [now left|right; auto].
    + apply obj_get_set_eq.
  - destruct (obj_get k src); [reflexivity|]. now apply obj_get_set_ne.
Qed.

Lemma obj_get_json_props k o v :
  obj_get k o = Some v -> v <> JUndefined ->
  obj_get k (json_props o) = Some (json_of v).
Proof.
  unfold json_props. cbn [json_of].
  induction o as [|[k' v'] o IH]; [discriminate|].
  cbn [obj_get]. destruct (String.eqb_spec k k') as [->|Hne].
  - intros [= ->] Hv. destruct v; try contradiction; cbn [obj_get];
      now rewrite String.eqb_refl.
  - intros Hg Hv. specialize (IH Hg Hv).
    apply String.eqb_neq in Hne.
    destruct v'; try exact IH; cbn [obj_get]; now rewrite Hne.
Qed.

Lemma obj_get_json_props_set k k' v o :
  k <> k' ->
  obj_get k (json_props (obj_set k' v o)) = obj_get k (json_props o).
Proof.
  intros Hne. apply String.eqb_neq in Hne. unfold json_props. cbn [json_of].
  induction o as [|[k0 v0] o IH].
  - cbn [obj_set]. destruct v; cbn [obj_get]; now rewrite ?Hne.
  - cbn [obj_set]. destruct (String.eqb_spec k' k0) as [->|Hne'].
    + destruct v, v0; cbn [obj_get]; now rewrite ?Hne.
    + destruct v0; try exact IH; cbn [obj_get];
        (destruct (String.eqb k k0); [reflexivity|exact IH]).
Qed.

Section StateFacts.
Context (config : Config.t).

(** [read] and [updateMitm] on a document that can be read. *)
Lemma read_doc sessionId w current :
  fault (system w) OpRead (getStatePath config sessionId) = None ->
  docs w !! sessionId = Some (Doc current) ->
  read config sessionId w = (Ok (Some current), w).
Proof.
  intros Hr Hd. unfold read, tryCatch, readDocument. now rewrite Hr, Hd.
Qed.

Lemma updateMitm_written sessionId mitm w current :
  fault (system w) OpRead (getStatePath config sessionId) = None ->
  fault (system w) OpWrite (getStatePath config sessionId) = None ->
  docs w !! sessionId = Some (Doc current) ->
  updateMitm config sessionId mitm w
  = (Ok (mergeMitm current mitm),
     logged (debug, "Updated mitm state")
       (set_docs (insert sessionId (Doc (json_props (mergeMitm current mitm)))) w)).
Proof.
  intros Hr Hw Hd. unfold updateMitm.
  rewrite (bind_Ok _ _ _ _ _ (read_doc _ _ _ Hr Hd)).
  unfold tryCatch, bind, writeDocument. rewrite Hw. reflexivity.
Qed.

(** C4. [updateMitm] on a document that can be read and written, with an
    object literal as partial state: the object returned and the document
    written differ from the current document only in the property
    [mitm]; every other top-level property keeps its value and its
    place; the new [mitm] is the old one with the given properties
    merged over it; nothing else in the world changes but the debug line
    of the logger. *)
Theorem updateMitm_only_mitm sessionId mitm w current :
  fault (system w) OpRead (getStatePath config sessionId) = None ->
  fault (system w) OpWrite (getStatePath config sessionId) = None ->
  docs w !! sessionId = Some (Doc current) ->
  NoDup (map fst mitm) ->
  exists updated w',
    updateMitm config sessionId mitm w = (Ok updated, w')
    /\ docs w' = <[sessionId := Doc (json_props updated)]> (docs w)
    /\ (forall k, k <> "mitm" -> obj_get k updated = obj_get k current)
    /\ (forall k, k <> "mitm" ->
          obj_get k (json_props updated) = obj_get k (json_props current))
    /\ map fst updated
       = match obj_get "mitm" current with
         | Some _ => map fst current
         | None => map fst current ++ ["mitm"]
         end
    /\ (exists merged,
          obj_get "mitm" updated = Some (JObj merged)
          /\ forall k,
               obj_get k merged
               = match obj_get k mitm with
                 | Some v => Some v
                 | None => obj_get k (spread_of (obj_get "mitm" current))
                 end)
    /\ sessions w' = sessions w /\ trafficStores w' = trafficStores w
    /\ processes w' = processes w /\ alive w' = alive w
    /\ files (system w') = files (system w)
    /\ console (system w') = console (system w) ++ [(debug, "Updated mitm state")].
Proof.
  intros Hr Hw Hd Hnd.
  eexists _, _. split; [apply (updateMitm_written _ _ _ _ Hr Hw Hd)|].
  split; [reflexivity|].
  split; [intros k Hk; now apply obj_get_set_ne|].
  split; [intros k Hk; now apply obj_get_json_props_set|].
  split; [apply obj_set_keys|].
  split; [|repeat split].
  eexists. split; [apply obj_get_set_eq|].
  intros k. now apply obj_get_spread.
Qed.

End StateFacts.

Lemma updateMitm_only_mitm_witness :
  exists updated w',
    updateMitm Demo.config Demo.sid [("status", JStr "ready")] Demo.idle = (Ok updated, w')
    /\ obj_get "android" updated = obj_get "android" Demo.document
    /\ obj_get "createdAt" updated = obj_get "createdAt" Demo.document
    /\ obj_get "mitm" updated
       = Some (JObj [("status", JStr "ready"); ("proxyPort", JNum 8080)])
    /\ docs w' !! Demo.sid = Some (Doc updated).
Proof.
  destruct (updateMitm_only_mitm Demo.config Demo.sid [("status", JStr "ready")]
              Demo.idle Demo.document eq_refl eq_refl ltac:(vm_compute; reflexivity))
    as (updated & w' & Hu & Hdocs & _).
  - apply NoDup_singleton.
  - exists updated, w'. split; [exact Hu|].
    pose proof Hu as Hu'.
    rewrite (updateMitm_written Demo.config Demo.sid _ Demo.idle Demo.document
               eq_refl eq_refl ltac:(vm_compute; reflexivity)) in Hu'.
    injection Hu' as <- <-. repeat split; vm_compute; reflexivity.
Defined.

(** ** Frames of the manager's steps *)

Section Frames.
Context (R : World -> World -> Prop) `{!Reflexive R} `{!Transitive R}.

Lemma respects_ret {A} (a : A) : respects R (ret a).
Proof. intros w r w' [= <- <-]. reflexivity. Qed.

Lemma respects_throw {A} e : respects R (@throw World A e).
Proof. intros w r w' [= <- <-]. reflexivity. Qed.

Lemma respects_gets {A} (f : World -> A) : respects R (gets f).
Proof. intros w r w' [= <- <-]. reflexivity. Qed.

Lemma respects_never {A} : respects R (@never World A).
Proof. intros w r w' [= <- <-]. reflexivity. Qed.

Lemma respects_modify f : (forall w, R w (f w)) -> respects R (modify f).
Proof. intros H w r w' [= <- <-]. apply H. Qed.

Lemma respects_bind {A B} (m : M World A) (k : A -> M World B) :
  respects R m -> (forall a, respects R (k a)) -> respects R (bind m k).
Proof.
  intros Hm Hk w r w' H. unfold bind in H.
  destruct (m w) as [[a|e|] w1] eqn:E.
  - transitivity w1; [now apply (Hm _ _ _ E)|now apply (Hk a _ _ _ H)].
  - injection H as <- <-. now apply (Hm _ _ _ E).
  - injection H as <- <-. now apply (Hm _ _ _ E).
Qed.

Lemma respects_tryCatch {A} (m : M World A) h :
  respects R m -> (forall e, respects R (h e)) -> respects R (tryCatch m h).
Proof.
  intros Hm Hh w r w' H. unfold tryCatch in H.
  destruct (m w) as [[a|e|] w1] eqn:E.
  - injection H as <- <-. now apply (Hm _ _ _ E).
  - transitivity w1; [now apply (Hm _ _ _ E)|now apply (Hh e _ _ _ H)].
  - injection H as <- <-. now apply (Hm _ _ _ E).
Qed.

Lemma respects_when b m : respects R m -> respects R (when b m).
Proof. destruct b; [auto|]. intros _. apply respects_ret. Qed.

Lemma ensures_ret {A} (a : A) : ensures R (ret a).
Proof. intros w. now exists a, w. Qed.

Lemma ensures_gets {A} (f : World -> A) : ensures R (gets f).
Proof. intros w. now exists (f w), w. Qed.

Lemma ensures_modify f : (forall w, R w (f w)) -> ensures R (modify f).
Proof. intros H w. exists tt, (f w). auto. Qed.

Lemma ensures_bind {A B} (m : M World A) (k : A -> M World B) :
  ensures R m -> (forall a, ensures R (k a)) -> ensures R (bind m k).
Proof.
  intros Hm Hk w. destruct (Hm w) as (a & w1 & E1 & R1).
  destruct (Hk a w1) as (b & w2 & E2 & R2).
  exists b, w2. split; [now rewrite (bind_Ok _ _ _ _ _ E1)|].
  now transitivity w1.
Qed.

Lemma ensures_when b m : ensures R m -> ensures R (when b m).
Proof. destruct b; [auto|]. intros _. apply ensures_ret. Qed.

End Frames.

Lemma sameSessions_refl : Reflexive sameSessions.
Proof. now intros w. Qed.

Lemma sameSessions_trans : Transitive sameSessions.
Proof. intros a b c H1 H2. unfold sameSessions in *. congruence. Qed.

Lemma keepsSession_refl sessionId : Reflexive (keepsSession sessionId).
Proof. now intros w. Qed.

Lemma keepsSession_trans sessionId : Transitive (keepsSession sessionId).
Proof. intros a b c H1 H2 H. auto. Qed.

Lemma sameDocuments_refl : Reflexive sameDocuments.
Proof. now intros w. Qed.

Lemma sameDocuments_trans : Transitive sameDocuments.
Proof. intros a b c [H1 H2] [H3 H4]. split; congruence. Qed.

#[local] Existing Instances sameSessions_refl sameSessions_trans keepsSession_refl
  keepsSession_trans sameDocuments_refl sameDocuments_trans.

Lemma respects_weaken {A} (R R' : World -> World -> Prop) (m : M World A) :
  (forall w w', R w w' -> R' w w') -> respects R m -> respects R' m.
Proof. intros H Hm w r w' E. apply H. now apply (Hm _ _ _ E). Qed.

Lemma sameSessions_keeps sessionId w w' : sameSessions w w' -> keepsSession sessionId w w'.
Proof. intros H. unfold keepsSession. now rewrite H. Qed.


Create HintDb frames.

Ltac frame_step :=
  first
    [ solve [eauto with frames]
    | solve [apply respects_ret; exact _]
    | solve [apply respects_throw; exact _]
    | solve [apply respects_gets; exact _]
    | solve [apply respects_never; exact _]
    | apply respects_when; [exact _|]
    | apply respects_bind; [exact _| |intros ?]
    | apply respects_tryCatch; [exact _| |intros ?]
    | apply respects_modify; intros ?;
      (reflexivity || (split; reflexivity) || exact (fun H => H))
    | match goal with
      | |- respects _ (match ?x with _ => _ end) => destruct x
      | |- respects _ (if ?x then _ else _) => destruct x
      end ].

Ltac frame := repeat frame_step.

Ltac primitive :=
  let w := fresh "w" in let r := fresh "r" in let w' := fresh "w'" in
  let E := fresh "E" in
  intros w r w' E; repeat (case_match; simplify_eq); simplify_eq;
  try reflexivity; try (split; reflexivity).

Section ManagerFrames.
Context (config : Config.t).

Lemma log_sameSessions lvl msg : respects sameSessions (log lvl msg).
Proof. unfold log, inSystem, zoom, logger, modify. primitive. Qed.

Lemma log_sameDocuments lvl msg : respects sameDocuments (log lvl msg).
Proof. unfold log, inSystem, zoom, logger, modify. primitive. Qed.

Lemma readDocument_same sessionId w r w' :
  readDocument config sessionId w = (r, w') -> w' = w.
Proof. unfold readDocument. intros E. repeat (case_match; simplify_eq); now simplify_eq. Qed.

Lemma read_same sessionId w r w' : read config sessionId w = (r, w') -> w' = w.
Proof.
  unfold read, tryCatch, throw. intros E.
  destruct (readDocument config sessionId w) as [[o|e|] w1] eqn:E1;
    apply readDocument_same in E1 as ->; repeat (case_match; simplify_eq); now simplify_eq.
Qed.

Lemma read_sameSessions sessionId : respects sameSessions (read config sessionId).
Proof. intros w r w' E. apply read_same in E as ->. reflexivity. Qed.

Lemma writeDocument_sameSessions sessionId o :
  respects sameSessions (writeDocument config sessionId o).
Proof. unfold writeDocument. primitive. Qed.

#[local] Hint Resolve log_sameSessions log_sameDocuments read_sameSessions
  writeDocument_sameSessions : frames.

Lemma updateMitm_sameSessions sessionId mitm :
  respects sameSessions (updateMitm config sessionId mitm).
Proof. unfold updateMitm. frame. Qed.

Lemma setSession_keeps sessionId sid' f : respects (keepsSession sessionId) (setSession sid' f).
Proof.
  unfold setSession, modify. intros w r w' [= <- <-]. unfold keepsSession. simpl.
  rewrite lookup_alter. case_decide; [subst|auto].
  intros [s ->]. now eexists.
Qed.

Lemma setSession_sameDocuments sid' f : respects sameDocuments (setSession sid' f).
Proof. unfold setSession, modify. primitive. Qed.

Lemma sameSessions_respects_keeps {A} sessionId (m : M World A) :
  respects sameSessions m -> respects (keepsSession sessionId) m.
Proof. apply respects_weaken. apply sameSessions_keeps. Qed.

#[local] Hint Resolve updateMitm_sameSessions setSession_keeps setSession_sameDocuments : frames.
#[local] Hint Extern 5 (respects (keepsSession _) _) =>
  apply sameSessions_respects_keeps : frames.

Lemma handleProcessExit_keeps sessionId sid' code signal :
  respects (keepsSession sessionId) (handleProcessExit sid' code signal).
Proof. unfold handleProcessExit, getSession. frame. Qed.

Lemma handleProcessExit_sameDocuments sid' code signal :
  respects sameDocuments (handleProcessExit sid' code signal).
Proof. unfold handleProcessExit, getSession. frame. Qed.

#[local] Hint Resolve handleProcessExit_keeps handleProcessExit_sameDocuments : frames.

Lemma childExit_keeps sessionId pid code signal :
  respects (keepsSession sessionId) (childExit pid code signal).
Proof. unfold childExit, get. frame. Qed.

Lemma childExit_sameDocuments pid code signal :
  respects sameDocuments (childExit pid code signal).
Proof. unfold childExit, get. frame. Qed.

#[local] Hint Resolve childExit_keeps childExit_sameDocuments : frames.

Lemma spawn_keeps sessionId env sid' :
  respects (keepsSession sessionId) (spawn env sid').
Proof.
  unfold spawn, processEnds. destruct (Env.spawned env); frame.
Qed.

Lemma kill_sameDocuments env pid : respects sameDocuments (kill env pid).
Proof. unfold kill, get. frame. Qed.

Lemma newTrafficStore_sameSessions p : respects sameSessions (newTrafficStore p).
Proof. unfold newTrafficStore. primitive. Qed.

Lemma onStore_close_sameDocuments sessionId : respects sameDocuments (onStore sessionId close).
Proof.
  intros w r w' E. unfold onStore in E.
  destruct (trafficStores w !! sessionId) as [store|]; [|now simplify_eq].
  unfold close, bind, set_this, modify, sys, zoom, logger in E. simpl in E.
  simplify_eq. split; reflexivity.
Qed.

#[local] Hint Resolve spawn_keeps kill_sameDocuments newTrafficStore_sameSessions
  onStore_close_sameDocuments : frames.

Lemma startAttempt_keeps env sessionId c :
  respects (keepsSession sessionId) (startAttempt config env sessionId c).
Proof. unfold startAttempt. frame. Qed.

Lemma stopTeardown_sameDocuments env sessionId s :
  respects sameDocuments (stopTeardown env sessionId s).
Proof. unfold stopTeardown, killIfRunning, isRunning. frame. Qed.

(** C5. [startProxy] for a session the manager already holds in status
    [starting] or [ready] throws [PROXY_ALREADY_RUNNING] and leaves the
    whole world as it was: no process is spawned, and the session map,
    the stores and the shared documents are unchanged. *)
Theorem startProxy_rejects_running env input w existing :
  sessions w !! StartProxyInput.sessionId input = Some existing ->
  ProxySession.status existing = starting \/ ProxySession.status existing = ready ->
  startProxy config env input w
  = (Throw (MitmError PROXY_ALREADY_RUNNING
              ("Proxy already running for session: " +:+ StartProxyInput.sessionId input)
              [("sessionId", JStr (StartProxyInput.sessionId input));
               ("status", JStr (statusName (ProxySession.status existing)))]),
     w).
Proof.
  intros H Hs. unfold startProxy, startSetup, bind, getSession, gets. rewrite H.
  destruct Hs as [-> | ->]; reflexivity.
Qed.

(** *** Teardown *)

Lemma teardownStep_refl sessionId s : Reflexive (teardownStep sessionId s).
Proof. intros w. repeat split; auto. Qed.

Lemma teardownStep_trans sessionId s : Transitive (teardownStep sessionId s).
Proof.
  intros a b c (H1 & H2 & H3) (H4 & H5 & H6).
  repeat split; [auto|intros x Hx; auto|congruence].
Qed.

#[local] Existing Instances teardownStep_refl teardownStep_trans.

Create HintDb teardown.

Ltac ensure_step :=
  first
    [ solve [eauto with teardown]
    | solve [apply ensures_ret; exact _]
    | solve [apply ensures_gets; exact _]
    | apply ensures_when; [exact _|]
    | apply ensures_bind; [exact _| |intros ?]
    | apply ensures_modify; intros ?; repeat split; solve [auto|set_solver]
    | match goal with
      | |- ensures _ (match ?x with _ => _ end) => destruct x
      | |- ensures _ (if ?x then _ else _) => destruct x
      end ].

Ltac ensure := repeat ensure_step.

Lemma log_teardown sessionId s lvl msg : ensures (teardownStep sessionId s) (log lvl msg).
Proof.
  intros w. eexists tt, _. split; [reflexivity|]. repeat split; auto.
Qed.

Lemma setStatus_teardown sessionId s sid' st :
  ensures (teardownStep sessionId s) (setSession sid' (ProxySession.set_status st)).
Proof.
  intros w. eexists tt, _. split; [reflexivity|]. repeat split; auto.
  intros [st0 H]. unfold sessionUpTo. simpl. rewrite lookup_alter.
  case_decide; [subst; rewrite H; now exists st|now exists st0].
Qed.

#[local] Hint Resolve log_teardown setStatus_teardown : teardown.

Lemma handleProcessExit_teardown sessionId s sid' code signal :
  ensures (teardownStep sessionId s) (handleProcessExit sid' code signal).
Proof. unfold handleProcessExit, getSession. ensure. Qed.

#[local] Hint Resolve handleProcessExit_teardown : teardown.

Lemma childExit_teardown sessionId s pid code signal :
  ensures (teardownStep sessionId s) (childExit pid code signal).
Proof. unfold childExit, get. ensure. Qed.

#[local] Hint Resolve childExit_teardown : teardown.

Lemma kill_teardown sessionId s env pid :
  ensures (teardownStep sessionId s) (kill env pid).
Proof. unfold kill, get. ensure. Qed.

Lemma onStore_close_teardown sessionId s sid' :
  ensures (teardownStep sessionId s) (onStore sid' close).
Proof.
  intros w. unfold onStore.
  destruct (trafficStores w !! sid') as [store|]; eexists _, _;
    (split; [reflexivity|]); repeat split; auto.
Qed.

#[local] Hint Resolve kill_teardown onStore_close_teardown : teardown.

(** A tracked process is not alive after [kill]. *)
Lemma kill_ends sessionId s env pid w :
  is_Some (processes w !! pid) ->
  exists w',
    kill env pid w = (Ok tt, w') /\ teardownStep sessionId s w w' /\ pid ∉ alive w'.
Proof.
  intros [sid' H]. unfold kill, get, bind. simpl. rewrite H.
  destruct (Env.exitOnSigterm env) as [[code signal]|].
  - unfold childExit, get, bind, modify. simpl. rewrite H.
    set (w0 := set_processes (delete pid) (set_alive (fun a => a ∖ {[pid]}) w)).
    destruct (handleProcessExit_teardown sessionId s sid' code signal w0)
      as ([] & w' & E & Hup & Ha & Hl).
    exists w'. split; [exact E|]. simpl in Ha.
    split; [repeat split; [exact Hup|set_solver|exact Hl]|set_solver].
  - eexists. split; [reflexivity|]. simpl.
    split; [repeat split; [auto|set_solver]|set_solver].
Qed.

Lemma killIfRunning_teardown sessionId s env pid :
  ensures (teardownStep sessionId s) (killIfRunning env pid).
Proof. unfold killIfRunning, isRunning. ensure. Qed.

Lemma killIfRunning_ends sessionId s env pid w :
  pid <> 0 -> is_Some (processes w !! pid) ->
  exists w',
    killIfRunning env (Some pid) w = (Ok tt, w')
    /\ teardownStep sessionId s w w' /\ pid ∉ alive w'.
Proof.
  intros Hp Ht. unfold killIfRunning, isRunning, bind, gets.
  destruct (Z.eqb_spec pid 0); [contradiction|].
  destruct (bool_decide (pid ∈ alive w)) eqn:Ha.
  - now apply kill_ends.
  - apply bool_decide_eq_false_1 in Ha. exists w. repeat split; auto.
Qed.

#[local] Hint Resolve killIfRunning_teardown : teardown.

(** The teardown of [stopProxy] always completes. *)
Lemma stopTeardown_done env sessionId s w :
  sessions w !! sessionId = Some s ->
  exists w1,
    stopTeardown env sessionId s w = (Ok tt, w1)
    /\ sessions w1 !! sessionId
       = Some (ProxySession.set_stoppedAt (Some (Env.nowISO env))
                 (ProxySession.set_status stopped s))
    /\ trafficStores w1 !! sessionId = None
    /\ (forall pid,
          ProxySession.pid s = Some pid -> pid <> 0 -> is_Some (processes w !! pid) ->
          pid ∉ alive w1)
    /\ sessionLogs w1 = sessionLogs w.
Proof.
  intros Hs. unfold stopTeardown.
  destruct (log_teardown sessionId s info "Stopping proxy" w) as ([] & wa & Ea & Ra).
  rewrite (bind_Ok _ _ _ _ _ Ea).
  destruct (killIfRunning_teardown sessionId s env (ProxySession.pid s) wa)
    as ([] & wb & Eb & Rb).
  rewrite (bind_Ok _ _ _ _ _ Eb).
  destruct (onStore_close_teardown sessionId s sessionId wb) as (o & wc & Ec & Rc).
  rewrite (bind_Ok _ _ _ _ _ Ec).
  assert (Rall : teardownStep sessionId s w wc)
    by (transitivity wa; [exact Ra|transitivity wb; [exact Rb|exact Rc]]).
  destruct Rall as (Hup & Halive & Hlogs).
  destruct Hup as [st Hst]; [exists (ProxySession.status s); now destruct s|].
  eexists. split; [reflexivity|]. simpl.
  split; [|split; [|split]].
  - rewrite !lookup_alter_eq, Hst. reflexivity.
  - apply lookup_delete_eq.
  - intros pid Hpid Hne Htracked.
    assert (Hwa : processes wa = processes w) by (now injection Ea as <-).
    rewrite <- Hwa in Htracked.
    destruct (killIfRunning_ends sessionId s env pid wa Hne Htracked)
      as (wb' & Eb' & _ & Hdead).
    rewrite Hpid in Eb. rewrite Eb in Eb'. injection Eb' as <-.
    destruct Rc as (_ & Hc & _). intros Hin. apply Hdead, Hc, Hin.
  - exact Hlogs.
Qed.

(** *** [stopProxy] *)

(** A failing [updateMitm] leaves the world as it is, throws one of four
    kinds of error (the fourth is the [TypeError] of a document that is
    [null]), and fails in the same way wherever the documents and the
    refusals of the operating system are the same. *)
Lemma updateMitm_Throw sessionId mitm w e w0 :
  updateMitm config sessionId mitm w = (Throw e, w0) ->
  w0 = w
  /\ (exn_code e = Some SESSION_NOT_FOUND \/ exn_code e = Some STATE_READ_FAILED
      \/ exn_code e = Some STATE_WRITE_FAILED \/ e = nullProperty "mitm")
  /\ (fault (system w) OpRead (getStatePath config sessionId) = None ->
      docs w !! sessionId = None -> exn_code e = Some SESSION_NOT_FOUND)
  /\ (fault (system w) OpRead (getStatePath config sessionId) = None ->
      forall o, docs w !! sessionId = Some (Doc o) -> exn_code e = Some STATE_WRITE_FAILED)
  /\ (fault (system w) OpRead (getStatePath config sessionId) = None ->
      forall message,
        docs w !! sessionId = Some (Unparseable message) ->
        exn_code e = Some STATE_READ_FAILED)
  /\ (fault (system w) OpRead (getStatePath config sessionId) = None ->
      docs w !! sessionId = Some DocNull -> e = nullProperty "mitm")
  /\ (forall w1, sameDocuments w w1 ->
        updateMitm config sessionId mitm w1 = (Throw e, w1)).
Proof.
  unfold updateMitm, bind, read, tryCatch, readDocument, writeDocument, throw, sameDocuments.
  intros E.
  destruct (fault (system w) OpRead (getStatePath config sessionId)) as [err|] eqn:Hr.
  - destruct (isENOENT (io_error err)) eqn:Hen; simplify_eq;
      (split; [reflexivity|]); (split; [auto|]);
      (split; [discriminate|]); (split; [discriminate|]);
      (split; [discriminate|]); (split; [discriminate|]);
      intros w1 [Hd Hf]; rewrite Hf, Hr, Hen; reflexivity.
  - destruct (docs w !! sessionId) as [[msg|o|]|] eqn:Hd.
    + simpl in E. simplify_eq.
      (split; [reflexivity|]); (split; [auto|]);
      (split; [discriminate|]); (split; [discriminate|]);
      (split; [reflexivity|]); (split; [discriminate|]).
      intros w1 [Hd1 Hf]. rewrite Hf, Hr, Hd1, Hd. reflexivity.
    + destruct (fault (system w) OpWrite (getStatePath config sessionId)) as [err|] eqn:Hw;
        [|discriminate].
      simplify_eq.
      (split; [reflexivity|]); (split; [auto|]);
      (split; [discriminate|]); (split; [reflexivity|]);
      (split; [discriminate|]); (split; [discriminate|]).
      intros w1 [Hd1 Hf]. rewrite Hf, Hr, Hd1, Hd. simpl. rewrite Hf, Hw. reflexivity.
    + simpl in E. simplify_eq.
      (split; [reflexivity|]); (split; [auto 10|]);
      (split; [discriminate|]); (split; [discriminate|]);
      (split; [discriminate|]); (split; [reflexivity|]).
      intros w1 [Hd1 Hf]. rewrite Hf, Hr, Hd1, Hd. reflexivity.
    + simpl in E. simplify_eq.
      (split; [reflexivity|]); (split; [auto|]);
      (split; [reflexivity|]); (split; [discriminate|]);
      (split; [discriminate|]); (split; [discriminate|]).
      intros w1 [Hd1 Hf]. rewrite Hf, Hr, Hd1, Hd. reflexivity.
Qed.

(** C10 (amended). [stopProxy] for a session in the map, when its state
    update fails (as it would in the world the call starts in, with
    error [e]): the call throws [e], which is a [MitmError] of kind
    [SESSION_NOT_FOUND], [STATE_READ_FAILED] or [STATE_WRITE_FAILED], or
    the bare [TypeError] of reading [mitm] of [null] ([SESSION_NOT_FOUND]
    when the document is absent, [STATE_READ_FAILED] when its text is
    not JSON, the [TypeError] when its text is [null], and
    [STATE_WRITE_FAILED] when it is read and cannot be written); by then
    the tracked capture process is not alive, the store is gone from the
    map, and the session, still in the map, has status [stopped] and
    [stoppedAt] set; its log is still registered. *)
Theorem stopProxy_not_atomic env sessionId w s e w0 :
  sessions w !! sessionId = Some s ->
  updateMitm config sessionId [("status", JStr "stopped"); ("pid", JUndefined)] w
  = (Throw e, w0) ->
  exists w',
    stopProxy config env sessionId w = (Throw e, w')
    /\ sessions w' !! sessionId
       = Some (ProxySession.set_stoppedAt (Some (Env.nowISO env))
                 (ProxySession.set_status stopped s))
    /\ trafficStores w' !! sessionId = None
    /\ (forall pid,
          ProxySession.pid s = Some pid -> pid <> 0 -> is_Some (processes w !! pid) ->
          pid ∉ alive w')
    /\ sessionLogs w' = sessionLogs w
    /\ docs w' = docs w
    /\ (exn_code e = Some SESSION_NOT_FOUND \/ exn_code e = Some STATE_READ_FAILED
        \/ exn_code e = Some STATE_WRITE_FAILED \/ e = nullProperty "mitm")
    /\ (fault (system w) OpRead (getStatePath config sessionId) = None ->
        docs w !! sessionId = None -> exn_code e = Some SESSION_NOT_FOUND)
    /\ (fault (system w) OpRead (getStatePath config sessionId) = None ->
        forall o, docs w !! sessionId = Some (Doc o) -> exn_code e = Some STATE_WRITE_FAILED)
    /\ (fault (system w) OpRead (getStatePath config sessionId) = None ->
        forall message,
          docs w !! sessionId = Some (Unparseable message) ->
          exn_code e = Some STATE_READ_FAILED)
    /\ (fault (system w) OpRead (getStatePath config sessionId) = None ->
        docs w !! sessionId = Some DocNull -> e = nullProperty "mitm").
Proof.
  intros Hs Hu.
  destruct (updateMitm_Throw _ _ _ _ _ Hu)
    as (_ & Hcode & Habsent & Hwrite & Hread & Hnull & Hsame).
  destruct (stopTeardown_done env sessionId s w Hs) as (w1 & Et & Hs1 & Ht1 & Hp1 & Hl1).
  pose proof (stopTeardown_sameDocuments env sessionId s _ _ _ Et) as Hdocs.
  exists w1. split.
  - unfold stopProxy, getSession. unfold bind at 1. unfold gets. rewrite Hs.
    rewrite (bind_Ok _ _ _ _ _ Et). apply bind_Throw. now apply Hsame.
  - destruct Hdocs as [Hd _]. auto 10.
Qed.

(** *** [startProxy] *)

Lemma updateMitm_Ok sessionId mitm w d w' :
  updateMitm config sessionId mitm w = (Ok d, w') ->
  exists current,
    docs w !! sessionId = Some (Doc current)
    /\ d = mergeMitm current mitm
    /\ w' = logged (debug, "Updated mitm state")
              (set_docs (insert sessionId (Doc (json_props d))) w).
Proof.
  unfold updateMitm, bind, read, tryCatch, readDocument, writeDocument, throw.
  intros E.
  destruct (fault (system w) OpRead (getStatePath config sessionId)) as [err|];
    [destruct (isENOENT (io_error err)); discriminate|].
  destruct (docs w !! sessionId) as [[msg|o|]|]; [discriminate| |discriminate|discriminate].
  destruct (fault (system w) OpWrite (getStatePath config sessionId)); [discriminate|].
  simpl in E. injection E as <- <-. now exists o.
Qed.

(** What a successful [updateMitm] publishes, for a property of the
    partial state that is not [undefined]. *)
Lemma updateMitm_published sessionId mitm w d w' k v :
  updateMitm config sessionId mitm w = (Ok d, w') ->
  NoDup (map fst mitm) -> obj_get k mitm = Some v -> v <> JUndefined ->
  published sessionId k w' = Some (json_of v).
Proof.
  intros E Hnd Hk Hv. apply updateMitm_Ok in E as (current & Hd & -> & ->).
  unfold published, mergeMitm. simpl. rewrite lookup_insert_eq.
  rewrite (obj_get_json_props "mitm" _ _ (obj_get_set_eq _ _ _)) by discriminate.
  cbn [json_of]. apply obj_get_json_props; [|exact Hv].
  rewrite obj_get_spread by assumption. now rewrite Hk.
Qed.

Lemma registerSessionLog_sameSessions env sessionId :
  respects sameSessions (registerSessionLog env sessionId).
Proof. unfold registerSessionLog. frame. Qed.

Lemma ensureMitmDir_sameSessions sessionId :
  respects sameSessions (ensureMitmDir config sessionId).
Proof. unfold ensureMitmDir. primitive. Qed.

#[local] Hint Resolve registerSessionLog_sameSessions ensureMitmDir_sameSessions : frames.

(** When the setup of [startProxy] completes, the map holds the new
    session, in status [starting]. *)
Lemma startSetup_Ok env input w c w1 :
  startSetup config env input w = (Ok c, w1) ->
  sessions w1 !! StartProxyInput.sessionId input = Some (Started.session c)
  /\ ProxySession.status (Started.session c) = starting.
Proof.
  unfold startSetup. intros H.
  apply bind_Ok_inv in H as (existing & wa & _ & H).
  apply bind_Ok_inv in H as ([] & wb & _ & H).
  apply bind_Ok_inv in H as (sessionState & wc & _ & H).
  apply bind_Ok_inv in H as (status & wc' & _ & H).
  apply bind_Ok_inv in H as ([] & wd & _ & H).
  destruct (resolvePort config env (StartProxyInput.port input)) as [[|p|p]|];
    try discriminate;
    apply bind_Ok_inv in H as (mitmDir & we & _ & H);
    apply bind_Ok_inv in H as ([] & wf & Hf & H);
    injection Hf as <-;
    match type of H with
    | ?m _ = _ =>
        assert (Hsame : respects sameSessions m) by frame;
        pose proof (Hsame _ _ _ H) as Hs
    end;
    apply bind_Ok_inv in H as (? & wg & _ & H);
    apply bind_Ok_inv in H as (? & wh & _ & H); injection H as <- <-;
    unfold sameSessions in Hs; rewrite Hs; simpl;
    (split; [apply lookup_insert_eq|reflexivity]).
Qed.

(** When the setup of [startProxy] completes, shared state holds status
    [starting]. *)
Lemma startSetup_published env input w c w1 :
  startSetup config env input w = (Ok c, w1) ->
  published (StartProxyInput.sessionId input) "status" w1 = Some (JStr "starting").
Proof.
  unfold startSetup. intros H.
  apply bind_Ok_inv in H as (existing & wa & _ & H).
  apply bind_Ok_inv in H as ([] & wb & _ & H).
  apply bind_Ok_inv in H as (sessionState & wc & _ & H).
  apply bind_Ok_inv in H as (status & wc' & _ & H).
  apply bind_Ok_inv in H as ([] & wd & _ & H).
  destruct (resolvePort config env (StartProxyInput.port input)) as [[|p|p]|];
    try discriminate;
    apply bind_Ok_inv in H as (mitmDir & we & _ & H);
    apply bind_Ok_inv in H as ([] & wf & _ & H);
    apply bind_Ok_inv in H as ([] & wg & _ & H);
    apply bind_Ok_inv in H as (d & wh & E & H); injection H as _ <-;
    (apply (updateMitm_published _ _ _ _ _ "status" (JStr "starting") E);
     [apply (bool_decide_unpack (NoDup _)); vm_compute; exact I|reflexivity|discriminate]).
Qed.

(** When no port can be resolved, [startProxy] throws [PORT_UNAVAILABLE]
    and leaves the world as it is. *)
Lemma startProxy_no_port env input w sessionState :
  match sessions w !! StartProxyInput.sessionId input with
  | Some existing => isActive (ProxySession.status existing) = false
  | None => True
  end ->
  read config (StartProxyInput.sessionId input) w = (Ok (Some sessionState), w) ->
  isStr (propOr "status" sessionState) "active" = true ->
  resolvePort config env (StartProxyInput.port input) = None
  \/ resolvePort config env (StartProxyInput.port input) = Some 0 ->
  startProxy config env input w
  = (Throw (MitmError PORT_UNAVAILABLE
              ("No available port in range " +:+ portRangeText config)
              [("portRangeStart", JNum (Config.portRangeStart config));
               ("portRangeEnd", JNum (Config.portRangeEnd config))]), w).
Proof.
  intros Hex Hread Hactive Hport.
  unfold startProxy, startSetup. unfold bind at 1 2. unfold getSession, gets.
  assert (Hfirst : match sessions w !! StartProxyInput.sessionId input with
                   | Some existing =>
                       when (isActive (ProxySession.status existing))
                         (throw (MitmError PROXY_ALREADY_RUNNING
                                   ("Proxy already running for session: "
                                    +:+ StartProxyInput.sessionId input)
                                   [("sessionId", JStr (StartProxyInput.sessionId input));
                                    ("status",
                                     JStr (statusName (ProxySession.status existing)))]))
                   | None => ret tt
                   end w = (Ok tt, w)).
  { destruct (sessions w !! StartProxyInput.sessionId input) as [existing|];
      [rewrite Hex|]; reflexivity. }
  rewrite (bind_Ok _ _ _ _ _ Hfirst), (bind_Ok _ _ _ _ _ Hread).
  unfold property. unfold bind at 1. unfold ret at 1.
  rewrite Hactive. unfold bind at 1. cbn [negb when ret].
  destruct Hport as [-> | ->]; reflexivity.
Qed.


(** *** A crash of the capture process *)

Context (JSON_parse : string -> option JsonlEntry.t).

(** C7 (amended). When the capture process of a [ready] session exits,
    the session goes to status [error] and a state update carrying the
    exit code and signal is started; without any stop, the [mitm.status]
    tool then reports status [error], in an answer made of the session's
    fields and the statistics, which carries no message; the message
    reaches shared state when the update that was started completes. *)
Theorem crash_reported_as_error env pid code signal w sessionId s :
  processes w !! pid = Some sessionId ->
  sessions w !! sessionId = Some s ->
  ProxySession.status s = ready ->
  match trafficStores w !! sessionId with
  | Some store => healthy (system w) (TrafficStore.jsonlPath store)
  | None => True
  end ->
  exists w',
    childExit pid code signal w = (Ok tt, w')
    /\ sessions w' !! sessionId = Some (ProxySession.set_status error_ s)
    /\ detached w'
       = detached w
         ++ [(sessionId,
              [("status", JStr "error"); ("error", JStr (exitMessage code signal))])]
    /\ docs w' = docs w
    /\ (exists stats w'',
          statusTool JSON_parse env sessionId w'
          = (Ok {| ToolResponse.isError := false;
                   ToolResponse.payload :=
                     [("ok", JBool true);
                      ("sessionId", JStr (ProxySession.sessionId s));
                      ("status", JStr "error");
                      ("proxyPort", JNum (ProxySession.proxyPort s));
                      ("proxyHost", JStr (ProxySession.proxyHost s));
                      ("pid", nullable JNum (ProxySession.pid s));
                      ("startedAt", nullable JStr (ProxySession.startedAt s));
                      ("stats", statsObject stats)] |}, w''))
    /\ (detached w = [] ->
        forall d w2,
          updateMitm config sessionId
            [("status", JStr "error"); ("error", JStr (exitMessage code signal))]
            (set_detached (fun _ => []) w') = (Ok d, w2) ->
          settleDetached config w' = (Ok tt, w2)
          /\ published sessionId "status" w2 = Some (JStr "error")
          /\ published sessionId "error" w2 = Some (JStr (exitMessage code signal))).
Proof.
  intros Hp Hs Hready Hstore.
  eexists. split.
  { unfold childExit, get, bind, modify. simpl. rewrite Hp.
    unfold handleProcessExit, bind, log, inSystem, zoom, logger, modify, getSession, gets.
    simpl. rewrite Hs, Hready. reflexivity. }
  assert (Hl : alter (ProxySession.set_status error_) sessionId (sessions w) !! sessionId
               = Some (ProxySession.set_status error_ s))
    by (rewrite lookup_alter_eq; rewrite Hs; reflexivity).
  simpl. split; [exact Hl|].
  split; [reflexivity|]. split; [reflexivity|]. split.
  - unfold statusTool, tryCatch, bind, getSession, gets. simpl.
    rewrite Hl. simpl. unfold onStore. simpl.
    destruct (trafficStores w !! sessionId) as [store|].
    + destruct (getStats_total JSON_parse (Env.nowMs env) store
                  (add_log (info, "Mitmdump process exited") (system w)) Hstore)
        as (stats & [store' y'] & E).
      rewrite E. now eexists _, _.
    + now eexists _, _.
  - intros Hd d w2 E.
    assert (Hnd : NoDup (map fst [("status", JStr "error");
                                  ("error", JStr (exitMessage code signal))])).
    { simpl. apply NoDup_cons. split; [|apply NoDup_singleton].
      intros Hin. apply list_elem_of_singleton in Hin. discriminate. }
    split.
    + unfold settleDetached, get, bind, modify, tryCatch. simpl. rewrite Hd. simpl.
      unfold set_detached in E. simpl in E. unfold set_detached. simpl.
      now rewrite E.
    + split.
      * now apply (updateMitm_published _ _ _ _ _ "status" (JStr "error") E Hnd).
      * now apply (updateMitm_published _ _ _ _ _ "error"
                     (JStr (exitMessage code signal)) E Hnd).
Qed.

End ManagerFrames.

(** ** The manager on the example worlds *)

Lemma startProxy_rejects_running_witness :
  startProxy Demo.config (Demo.env (fun _ => true) (SpawnRunning 5000)) Demo.input Demo.running
  = (Throw (MitmError PROXY_ALREADY_RUNNING "Proxy already running for session: s1"
              [("sessionId", JStr "s1"); ("status", JStr "ready")]),
     Demo.running).
Proof.
  apply (startProxy_rejects_running Demo.config _ Demo.input Demo.running Demo.session).
  - vm_compute. reflexivity.
  - right. reflexivity.
Defined.



(** Counterexample to C7 as stated: the capture process of a [ready]
    session is killed from outside (code 137); the status tool then
    reports status [error], and nothing in its answer mentions the exit
    code or the message of the crash. *)
Lemma crash_status_has_no_message :
  exists w' r w'',
    childExit 4242 (Some 137) None Demo.running = (Ok tt, w')
    /\ statusTool Demo.parse (Demo.env (fun _ => true) (SpawnRunning 4242)) Demo.sid w'
       = (Ok r, w'')
    /\ obj_get "status" (ToolResponse.payload r) = Some (JStr "error")
    /\ map fst (ToolResponse.payload r)
       = ["ok"; "sessionId"; "status"; "proxyPort"; "proxyHost"; "pid"; "startedAt"; "stats"]
    /\ ~ reportsExit 137 r
    /\ mentions "Process exited" (JObj (ToolResponse.payload r)) = false.
Proof.
  eexists _, _, _. split; [vm_compute; reflexivity|].
  split; [vm_compute; reflexivity|].
  split; [reflexivity|]. split; [reflexivity|].
  split; [unfold reportsExit; vm_compute; discriminate|vm_compute; reflexivity].
Qed.

Lemma crash_reported_as_error_witness :
  exists w' r w'',
    childExit 4242 (Some 137) None Demo.running = (Ok tt, w')
    /\ statusOf Demo.sid w' = Some error_
    /\ detached w'
       = [(Demo.sid, [("status", JStr "error");
                      ("error", JStr "Process exited with code 137, signal null")])]
    /\ statusTool Demo.parse (Demo.env (fun _ => true) (SpawnRunning 4242)) Demo.sid w'
       = (Ok r, w'')
    /\ obj_get "status" (ToolResponse.payload r) = Some (JStr "error").
Proof.
  destruct (crash_reported_as_error Demo.config Demo.parse
              (Demo.env (fun _ => true) (SpawnRunning 4242)) 4242 (Some 137) None
              Demo.running Demo.sid Demo.session)
    as (w' & Hexit & Hs & Hd & _ & (stats & w'' & Htool) & _).
  - vm_compute. reflexivity.
  - vm_compute. reflexivity.
  - reflexivity.
  - replace (trafficStores Demo.running !! Demo.sid)
      with (Some (TrafficStore.create Demo.path)) by (vm_compute; reflexivity).
    apply demo_healthy.
  - eexists w', _, w''. split; [exact Hexit|].
    split; [unfold statusOf; now rewrite Hs|].
    split; [exact Hd|]. split; [exact Htool|reflexivity].
Defined.

Lemma stopProxy_not_atomic_witness :
  exists e w',
    stopProxy Demo.config (Demo.env (fun _ => true) (SpawnRunning 4242)) Demo.sid Demo.orphaned
    = (Throw e, w')
    /\ exn_code e = Some SESSION_NOT_FOUND
    /\ statusOf Demo.sid w' = Some stopped
    /\ (ProxySession.stoppedAt <$> sessions w' !! Demo.sid)
       = Some (Some "2024-05-01T00:00:01.000Z")
    /\ trafficStores w' !! Demo.sid = None
    /\ 4242 ∉ alive w'.
Proof.
  set (env := Demo.env (fun _ => true) (SpawnRunning 4242)).
  assert (H : exists e w0,
             updateMitm Demo.config Demo.sid [("status", JStr "stopped"); ("pid", JUndefined)]
               Demo.orphaned = (Throw e, w0))
    by (eexists _, _; vm_compute; reflexivity).
  destruct H as (e & w0 & Hu).
  destruct (stopProxy_not_atomic Demo.config env Demo.sid Demo.orphaned Demo.session e w0
              ltac:(vm_compute; reflexivity) Hu)
    as (w' & Hstop & Hs & Ht & Hp & _ & _ & _ & Habsent & _).
  exists e, w'. split; [exact Hstop|].
  split; [apply Habsent; vm_compute; reflexivity|].
  split; [unfold statusOf; now rewrite Hs|].
  split; [now rewrite Hs|]. split; [exact Ht|].
  apply Hp; [reflexivity|discriminate|]. exists Demo.sid. vm_compute. reflexivity.
Defined.

(** Counterexample to C10 as stated: the session document is not JSON;
    the state update of [stopProxy] fails and the call raises
    [STATE_READ_FAILED], neither [STATE_WRITE_FAILED] nor
    [SESSION_NOT_FOUND], with the teardown done. *)
Lemma stopProxy_raises_read_failure :
  exists e w',
    stopProxy Demo.config (Demo.env (fun _ => true) (SpawnRunning 4242)) Demo.sid Demo.corrupted
    = (Throw e, w')
    /\ exn_code e = Some STATE_READ_FAILED
    /\ exn_code e <> Some STATE_WRITE_FAILED
    /\ exn_code e <> Some SESSION_NOT_FOUND
    /\ statusOf Demo.sid w' = Some stopped
    /\ trafficStores w' !! Demo.sid = None
    /\ 4242 ∉ alive w'.
Proof.
  eexists _, _. split; [vm_compute; reflexivity|].
  split; [reflexivity|]. split; [discriminate|]. split; [discriminate|].
  split; [vm_compute; reflexivity|]. split; [vm_compute; reflexivity|].
  intros Hin. vm_compute in Hin. discriminate Hin.
Qed.

(** A session document whose text is [null]: the state update of
    [stopProxy] fails with a [TypeError], which is no [MitmError], with
    the teardown done. *)
Example stopProxy_raises_type_error :
  exists w',
    stopProxy Demo.config (Demo.env (fun _ => true) (SpawnRunning 4242)) Demo.sid Demo.nulled
    = (Throw (JsError None "Cannot read properties of null (reading 'mitm')"), w')
    /\ statusOf Demo.sid w' = Some stopped
    /\ trafficStores w' !! Demo.sid = None
    /\ docs w' !! Demo.sid = Some DocNull.
Proof.
  eexists. split; [vm_compute; reflexivity|].
  split; [vm_compute; reflexivity|]. split; vm_compute; reflexivity.
Qed.

(** Outside the [try] block: when the publication of [starting] fails,
    the error surfaces as it is and the session stays in the map in
    status [starting], so that a second start is rejected. *)
Example start_publication_failure :
  let env := Demo.env (fun _ => true) (SpawnRunning 4242) in
  let r := startProxy Demo.config env Demo.input Demo.readOnly in
  exn_code <$> (match fst r with Throw e => Some e | _ => None end)
  = Some (Some STATE_WRITE_FAILED)
  /\ statusOf Demo.sid (snd r) = Some starting
  /\ exn_code <$> (match fst (startProxy Demo.config env Demo.input (snd r)) with
                   | Throw e => Some e
                   | _ => None
                   end)
     = Some (Some PROXY_ALREADY_RUNNING).
Proof. repeat split; vm_compute; reflexivity. Qed.

(** A child that exits within the first 100 ms leaves [startProxy]
    pending: [spawn] neither resolves nor rejects. *)
Example start_pending_on_early_exit :
  fst (startProxy Demo.config (Demo.env (fun _ => true) (SpawnExited 4242 (Some 1) None))
         Demo.input Demo.idle)
  = Pending.
Proof. vm_compute. reflexivity. Qed.

(** [slice] counts a negative start from the end; the query tool only
    passes offsets and limits that are not negative. *)
Example slice_negative_offset : Js.slice [10; 20; 30; 40] (-1) 2 = [].
Proof. reflexivity. Qed.

(** * Further properties *)

#[local] Set Default Proof Using "Type".

(** ** [PortFinder.findAvailablePort] *)

Lemma scanPorts_spec available n : forall port,
  match scanPorts available n port with
  | Some p =>
      port <= p < port + Z.of_nat n /\ available p = true
      /\ forall q, port <= q < p -> available q = false
  | None => forall q, port <= q < port + Z.of_nat n -> available q = false
  end.
Proof.
  induction n as [|n IH]; intros port.
  - simpl. intros q Hq. lia.
  - cbn [scanPorts]. destruct (available port) eqn:Hp.
    + split; [lia|]. split; [exact Hp|]. intros q Hq. lia.
    + specialize (IH (port + 1)). destruct (scanPorts available n (port + 1)) as [p|].
      * destruct IH as (Hr & Ha & Hlow). split; [lia|]. split; [exact Ha|].
        intros q Hq. destruct (Z.eq_dec q port) as [->|]; [exact Hp|]. apply Hlow. lia.
      * intros q Hq. destruct (Z.eq_dec q port) as [->|]; [exact Hp|]. apply IH. lia.
Qed.

(** X1. [findAvailablePort] returns the lowest port of the range that is
    available, and [null] exactly when no port of the range is; an empty
    range ([endPort < startPort]) gives [null]. *)
Theorem findAvailablePort_lowest available startPort endPort :
  match findAvailablePort available startPort endPort with
  | Some port =>
      startPort <= port <= endPort /\ available port = true
      /\ forall q, startPort <= q < port -> available q = false
  | None => forall q, startPort <= q <= endPort -> available q = false
  end.
Proof.
  unfold findAvailablePort.
  pose proof (scanPorts_spec available (Z.to_nat (endPort - startPort + 1)) startPort) as H.
  destruct (scanPorts _ _ _) as [p|].
  - destruct H as (Hr & Ha & Hlow). split; [lia|]. split; assumption.
  - intros q Hq. apply H. lia.
Qed.

(** ** [TrafficStore]: statistics, entries, the cache *)

(** ** The store: reloading, by cases *)

Section StoreMore.
Context (JSON_parse : string -> option JsonlEntry.t).
Context (JSON_stringify : JsonlEntry.t -> string).

(** A refused [stat] is swallowed when its code is [ENOENT] and rethrown
    otherwise. *)
Lemma reload_stat_refused t y err :
  fault y OpStat (TrafficStore.jsonlPath t) = Some err ->
  reloadEntries JSON_parse (t, y)
  = if String.eqb (fst err) ENOENT then (Ok tt, (t, y)) else (Throw (io_error err), (t, y)).
Proof.
  intros Hs.
  unfold reloadEntries, bind, this, gets, tryCatch, sys, zoom, fs_stat, on_file.
  simpl. rewrite Hs. simpl. now destruct (String.eqb (fst err) ENOENT).
Qed.

(** The same for a refused read of a file that has grown. *)
Lemma reload_read_refused t y content err :
  fault y OpStat (TrafficStore.jsonlPath t) = None ->
  files y !! TrafficStore.jsonlPath t = Some content ->
  TrafficStore.lastReadPosition t < Js.byteLength content ->
  fault y OpRead (TrafficStore.jsonlPath t) = Some err ->
  reloadEntries JSON_parse (t, y)
  = if String.eqb (fst err) ENOENT then (Ok tt, (t, y)) else (Throw (io_error err), (t, y)).
Proof.
  intros Hs Hf Hlt Hr.
  unfold reloadEntries, bind, this, gets, tryCatch, sys, zoom, fs_stat, fs_readFile, on_file.
  simpl. rewrite Hs, Hf. simpl.
  destruct (Z.leb_spec (Js.byteLength content) (TrafficStore.lastReadPosition t)); [lia|].
  simpl. rewrite Hr. simpl. now destruct (String.eqb (fst err) ENOENT).
Qed.

(** [reloadEntries] leaves everything as it is, rethrows an error of the
    file system, or loads the whole file. *)
Lemma reload_cases t y :
  let p := TrafficStore.jsonlPath t in
  reloadEntries JSON_parse (t, y) = (Ok tt, (t, y))
  \/ (exists err, reloadEntries JSON_parse (t, y) = (Throw (io_error err), (t, y)))
  \/ (exists content,
        files y !! p = Some content
        /\ fault y OpStat p = None
        /\ TrafficStore.lastReadPosition t < Js.byteLength content
        /\ reloadEntries JSON_parse (t, y)
           = (Ok tt,
              ({| TrafficStore.jsonlPath := p;
                  TrafficStore.entries := parsed JSON_parse (splitLines content);
                  TrafficStore.lastReadPosition := Js.byteLength content |},
               add_logs (parseWarnings JSON_parse (splitLines content)
                         ++ [(debug, "Reloaded entries")]) y))).
Proof.
  intros p.
  destruct (fault y OpStat p) as [err|] eqn:Hs.
  - rewrite (reload_stat_refused t y err Hs).
    destruct (String.eqb (fst err) ENOENT); [now left|right; left; now exists err].
  - destruct (files y !! p) as [content|] eqn:Hf.
    + destruct (Z.le_gt_cases (Js.byteLength content) (TrafficStore.lastReadPosition t))
        as [Hle|Hgt].
      * left. apply reload_unchanged; [exact Hs|]. fold p. now rewrite Hf.
      * destruct (fault y OpRead p) as [err|] eqn:Hr.
        -- rewrite (reload_read_refused t y content err Hs Hf Hgt Hr).
           destruct (String.eqb (fst err) ENOENT); [now left|right; left; now exists err].
        -- right. right. exists content. split; [reflexivity|]. split; [reflexivity|].
           split; [lia|]. apply reload_grown; auto.
    + left. apply reload_unchanged; [exact Hs|]. fold p. now rewrite Hf.
Qed.

Lemma reload_settles st : fst (reloadEntries JSON_parse st) <> Pending.
Proof.
  destruct st as [t y].
  destruct (reload_cases t y) as [E|[(err & E)|(content & _ & _ & _ & E)]];
    rewrite E; discriminate.
Qed.

(** A reload that fulfilled has nothing left to read. *)
Lemma reload_again t y u t1 y1 :
  reloadEntries JSON_parse (t, y) = (Ok u, (t1, y1)) ->
  reloadEntries JSON_parse (t1, y1) = (Ok tt, (t1, y1)).
Proof.
  intros H.
  destruct (reload_cases t y) as [E|[(err & E)|(content & Hf & Hs & Hlt & E)]];
    rewrite E in H.
  - injection H as <- <- <-. exact E.
  - discriminate.
  - injection H as <- <- <-.
    apply reload_unchanged; [exact Hs|]. simpl. rewrite Hf. simpl. lia.
Qed.

Lemma query_Ok_inv o t y r t1 y1 :
  query JSON_parse o (t, y) = (Ok r, (t1, y1)) ->
  reloadEntries JSON_parse (t, y) = (Ok tt, (t1, y1))
  /\ r = {| QueryResult.entries :=
              map toSummary
                (Js.slice (Js.sort newestFirst (applyFilters o (TrafficStore.entries t1)))
                   (QueryOptions.offset o) (QueryOptions.offset o + QueryOptions.limit o));
            QueryResult.total :=
              Z.of_nat (length (Js.sort newestFirst (applyFilters o (TrafficStore.entries t1)))) |}.
Proof.
  intros H. pose proof H as H0. unfold query in H.
  apply bind_Ok_inv in H as ([] & [t' y'] & Hr & H).
  rewrite (query_after_reload JSON_parse o _ _ _ _ Hr) in H0.
  injection H0 as <- <- <-. auto.
Qed.

(** ** [getStats] *)

Lemma fold_accumulate t0 es : forall a b c,
  fold_left (accumulate t0) es (a, b, c)
  = (a + sumOf (fun e => Request.bodySize (JsonlEntry.request e)) es,
     b + sumOf (fun e => Response.bodySize (JsonlEntry.response e)) es,
     c + Z.of_nat (length (since t0 es))).
Proof.
  induction es as [|e es IH]; intros a b c.
  - simpl. now rewrite !Z.add_0_r.
  - cbn [fold_left]. unfold accumulate at 2. rewrite IH. unfold since, sumOf.
    cbn [fold_right List.filter].
    destruct (JsonlEntry.timestampMs e >=? t0); cbn [length];
      (f_equal; [f_equal|..]); lia.
Qed.

(** X2. After a reload that fulfils, [getStats] counts the records
    loaded, adds up the body sizes of their requests and of their
    responses, and counts as recent the records captured no more than 60
    seconds before the call; the recent ones are never more than all. *)
Theorem getStats_counts nowMs t y t' y' :
  reloadEntries JSON_parse (t, y) = (Ok tt, (t', y')) ->
  let es := TrafficStore.entries t' in
  let recent := since (nowMs - 60000) es in
  getStats JSON_parse nowMs (t, y)
  = (Ok {| TrafficStats.totalEntries := Z.of_nat (length es);
           TrafficStats.totalRequestBytes :=
             sumOf (fun e => Request.bodySize (JsonlEntry.request e)) es;
           TrafficStats.totalResponseBytes :=
             sumOf (fun e => Response.bodySize (JsonlEntry.response e)) es;
           TrafficStats.entriesLast60s := Z.of_nat (length recent) |}, (t', y'))
  /\ (forall e, In e recent <-> In e es /\ nowMs - 60000 <= JsonlEntry.timestampMs e)
  /\ 0 <= Z.of_nat (length recent) <= Z.of_nat (length es).
Proof.
  intros Hr es recent. split; [|split].
  - unfold getStats. rewrite (bind_Ok _ _ _ _ _ Hr).
    unfold bind, this, gets. cbn [fst snd]. fold es.
    rewrite fold_accumulate. reflexivity.
  - intros e. unfold recent, since. rewrite filter_In, Z.geb_le. reflexivity.
  - unfold recent, since. pose proof (List.filter_length_le
      (fun e => JsonlEntry.timestampMs e >=? nowMs - 60000) es). lia.
Qed.

(** ** [getEntry] *)

Lemma find_first {A} (f : A -> bool) l x :
  find f l = Some x ->
  exists before after,
    l = before ++ x :: after /\ f x = true /\ forall b, In b before -> f b = false.
Proof.
  induction l as [|a l IH]; [discriminate|]. cbn [find].
  destruct (f a) eqn:Ha.
  - intros [= ->]. exists [], l. split; [reflexivity|]. split; [exact Ha|]. intros b [].
  - intros H. destruct (IH H) as (before & after & -> & Hx & Hb).
    exists (a :: before), after. split; [reflexivity|]. split; [exact Hx|].
    intros b [<-|Hin]; auto.
Qed.

(** X3. [getEntry] answers [null] exactly when no record loaded has the
    id; otherwise it converts the first record with that id: the entry
    has the id asked for, and the bodies are those of the record. *)
Theorem getEntry_first_match entryId t y t' y' :
  reloadEntries JSON_parse (t, y) = (Ok tt, (t', y')) ->
  let es := TrafficStore.entries t' in
  exists r,
    getEntry JSON_parse entryId (t, y) = (Ok r, (t', y'))
    /\ match r with
       | None => forall e, In e es -> JsonlEntry.id e <> entryId
       | Some found =>
           exists before e after,
             es = before ++ e :: after
             /\ JsonlEntry.id e = entryId
             /\ (forall b, In b before -> JsonlEntry.id b <> entryId)
             /\ EntryResult.entry found = toHarEntry e
             /\ HarEntry.id (EntryResult.entry found) = entryId
             /\ EntryResult.requestBody found = Request.body (JsonlEntry.request e)
             /\ EntryResult.responseBody found = Response.body (JsonlEntry.response e)
       end.
Proof.
  intros Hr es. unfold getEntry. rewrite (bind_Ok _ _ _ _ _ Hr).
  unfold bind, this, gets. cbn [fst snd]. fold es.
  destruct (find (fun e => String.eqb (JsonlEntry.id e) entryId) es) as [e|] eqn:Hfind.
  - eexists. split; [reflexivity|].
    destruct (find_first _ _ _ Hfind) as (before & after & Hes & He & Hb).
    apply String.eqb_eq in He.
    exists before, e, after. repeat split; auto.
    intros b Hin. apply String.eqb_neq. now apply Hb.
  - eexists. split; [reflexivity|]. intros e Hin.
    apply String.eqb_neq. exact (find_none _ _ Hfind e Hin).
Qed.

Lemma In_slice {A} (l : list A) a b x : In x (Js.slice l a b) -> In x l.
Proof.
  unfold Js.slice. intros H.
  set (k := Z.to_nat _) in H. set (n := Z.to_nat _) in H.
  rewrite <- (take_drop n l). apply in_or_app. right.
  rewrite <- (take_drop k (drop n l)). apply in_or_app. now left.
Qed.

(** X4. Every entry [query] returns can be fetched: [getEntry] with the
    id of a summary returned finds an entry with that id, as long as the
    file has not grown in between. *)
Theorem query_entries_resolvable o t y r t1 y1 s :
  query JSON_parse o (t, y) = (Ok r, (t1, y1)) ->
  In s (QueryResult.entries r) ->
  exists found,
    getEntry JSON_parse (Summary.id s) (t1, y1) = (Ok (Some found), (t1, y1))
    /\ HarEntry.id (EntryResult.entry found) = Summary.id s.
Proof.
  intros Hq Hs. apply query_Ok_inv in Hq as [Hr ->]. cbn [QueryResult.entries] in Hs.
  apply in_map_iff in Hs as (e & <- & He).
  apply In_slice in He.
  apply (Permutation_in _ (sort_perm JsonlEntry.timestampMs _)) in He.
  rewrite applyFilters_matches in He. apply filter_In in He as [He _].
  apply reload_again in Hr.
  unfold getEntry. rewrite (bind_Ok _ _ _ _ _ Hr).
  unfold bind, this, gets. cbn [fst snd].
  destruct (find (fun e0 => String.eqb (JsonlEntry.id e0) (Summary.id (toSummary e)))
              (TrafficStore.entries t1)) as [e'|] eqn:Hfind.
  - eexists. split; [reflexivity|].
    apply find_some in Hfind as [_ Hid]. apply String.eqb_eq in Hid. exact Hid.
  - exfalso. pose proof (find_none _ _ Hfind e He) as Hn.
    apply String.eqb_neq in Hn. now apply Hn.
Qed.

(** X5. [query] answers from the records it has cached: asked again with
    the file as it was, it gives the same answer and logs nothing; and it
    keeps giving that answer when the file has since been removed, emptied
    or replaced by a text that is not longer than what was read. *)
Theorem query_answers_from_cache o t y r t1 y1 :
  query JSON_parse o (t, y) = (Ok r, (t1, y1)) ->
  query JSON_parse o (t1, y1) = (Ok r, (t1, y1))
  /\ forall y2,
       fault y2 OpStat (TrafficStore.jsonlPath t1) = None ->
       match files y2 !! TrafficStore.jsonlPath t1 with
       | Some content => Js.byteLength content <= TrafficStore.lastReadPosition t1
       | None => True
       end ->
       query JSON_parse o (t1, y2) = (Ok r, (t1, y2)).
Proof.
  intros Hq. apply query_Ok_inv in Hq as [Hr ->]. split.
  - apply query_after_reload. now apply reload_again in Hr.
  - intros y2 Hs Hf. apply query_after_reload. now apply reload_unchanged.
Qed.

(** ** Errors of the file system *)

Lemma reload_Throw t y e :
  reloadEntries JSON_parse (t, y) = (Throw e, (t, y)) ->
  (forall o, query JSON_parse o (t, y) = (Throw e, (t, y)))
  /\ (forall entryId, getEntry JSON_parse entryId (t, y) = (Throw e, (t, y)))
  /\ (forall b, clear JSON_parse JSON_stringify b (t, y) = (Throw e, (t, y)))
  /\ (forall nowMs, getStats JSON_parse nowMs (t, y) = (Throw e, (t, y))).
Proof.
  intros H. repeat split; intros ?; [unfold query|unfold getEntry|unfold clear|unfold getStats];
    now rewrite (bind_Throw _ _ _ _ _ H).
Qed.

(** X6. An error of the file system other than [ENOENT], met when the
    store examines or reads its file, is rethrown as it is by [query],
    [getEntry], [clear] and [getStats]; the records cached and the file
    stay as they are (in particular [clear] writes nothing). *)
Theorem store_rethrows_io_errors t y code message :
  let p := TrafficStore.jsonlPath t in
  fault y OpStat p = Some (code, message)
  \/ (fault y OpStat p = None
      /\ (exists content,
            files y !! p = Some content
            /\ TrafficStore.lastReadPosition t < Js.byteLength content)
      /\ fault y OpRead p = Some (code, message)) ->
  code <> ENOENT ->
  let e := JsError (Some code) message in
  (forall o, query JSON_parse o (t, y) = (Throw e, (t, y)))
  /\ (forall entryId, getEntry JSON_parse entryId (t, y) = (Throw e, (t, y)))
  /\ (forall b, clear JSON_parse JSON_stringify b (t, y) = (Throw e, (t, y)))
  /\ (forall nowMs, getStats JSON_parse nowMs (t, y) = (Throw e, (t, y))).
Proof.
  intros p H Hcode e. apply reload_Throw.
  apply String.eqb_neq in Hcode.
  destruct H as [Hs|(Hs & (content & Hf & Hlt) & Hr)].
  - rewrite (reload_stat_refused t y _ Hs). cbn [fst]. now rewrite Hcode.
  - rewrite (reload_read_refused t y content _ Hs Hf Hlt Hr). cbn [fst]. now rewrite Hcode.
Qed.

(** ** [close] and [initialize] *)

Lemma close_run t y :
  close (t, y)
  = (Ok tt, (TrafficStore.create (TrafficStore.jsonlPath t),
             add_log (info, "Traffic store closed") y)).
Proof. reflexivity. Qed.

(** [initialize] on a healthy path: the file is there afterwards, with
    the text it had or empty. *)
Lemma initialize_run t y :
  healthy y (TrafficStore.jsonlPath t) ->
  initialize (t, y)
  = (Ok tt,
     (t, add_log (info, "Traffic store initialized")
           (match files y !! TrafficStore.jsonlPath t with
            | Some _ => y
            | None => set_files (insert (TrafficStore.jsonlPath t) EmptyString) y
            end))).
Proof.
  intros H.
  unfold initialize, bind, this, gets, tryCatch, sys, zoom, fs_access, fs_writeFile, on_file,
    logger, modify.
  simpl. rewrite (H OpAccess).
  destruct (files y !! TrafficStore.jsonlPath t); simpl; [reflexivity|].
  now rewrite (H OpWrite).
Qed.

(** A fresh store reads the file whole. *)
Lemma reload_fresh p y content :
  healthy y p -> files y !! p = Some content ->
  exists y',
    reloadEntries JSON_parse (TrafficStore.create p, y)
    = (Ok tt,
       ({| TrafficStore.jsonlPath := p;
           TrafficStore.entries := parsed JSON_parse (splitLines content);
           TrafficStore.lastReadPosition := Js.byteLength content |}, y'))
    /\ files y' = files y /\ fault y' = fault y.
Proof.
  intros H Hf.
  destruct (Z.le_gt_cases (Js.byteLength content) 0) as [Hz|Hz].
  - exists y.
    assert (content = EmptyString) as ->.
    { destruct content as [|c content]; [reflexivity|].
      pose proof (byteLength_pos (String c content) ltac:(discriminate)). lia. }
    split; [|auto]. apply reload_unchanged; [apply H|]. simpl. now rewrite Hf.
  - eexists. split;
      [apply (reload_grown JSON_parse (TrafficStore.create p));
         [exact Hf|apply H|apply H|exact Hz]
      |split; reflexivity].
Qed.

(** X7. [close] drops what the store has cached: on a log of records,
    closed, initialised again and queried, the store answers as a store
    newly made for the same file, from the whole file, and ends in the
    same state; [initialize] leaves a file that is there as it is. *)
Theorem close_resets_store o t y :
  healthy y (TrafficStore.jsonlPath t) ->
  exists r t1 ya yb,
    (close;; initialize;; query JSON_parse o) (t, y) = (Ok r, (t1, ya))
    /\ (initialize;; query JSON_parse o) (TrafficStore.create (TrafficStore.jsonlPath t), y)
       = (Ok r, (t1, yb))
    /\ files ya = files yb
    /\ (forall content,
          files y !! TrafficStore.jsonlPath t = Some content ->
          files ya = files y
          /\ TrafficStore.entries t1 = parsed JSON_parse (splitLines content)).
Proof.
  intros H. set (p := TrafficStore.jsonlPath t) in *.
  set (y0 := add_log (info, "Traffic store closed") y).
  assert (H0 : healthy y0 p) by exact H.
  set (disk := fun y : Sys =>
                 match files y !! p with
                 | Some _ => y
                 | None => set_files (insert p EmptyString) y
                 end).
  assert (Hdisk : forall y1, healthy y1 p ->
            exists content,
              files (add_log (info, "Traffic store initialized") (disk y1)) !! p = Some content
              /\ healthy (add_log (info, "Traffic store initialized") (disk y1)) p
              /\ (forall c, files y1 !! p = Some c -> c = content /\ files (disk y1) = files y1)
              /\ (files y1 !! p = None -> content = EmptyString)).
  { intros y1 H1. unfold disk. destruct (files y1 !! p) as [c|] eqn:E.
    - exists c. split; [exact E|]. split; [exact H1|]. split; [|discriminate].
      now intros ? [= <-].
    - exists EmptyString. split; [simpl; apply lookup_insert_eq|]. split; [exact H1|].
      split; [discriminate|reflexivity]. }
  destruct (Hdisk y0 H0) as (ca & Hfa & Hha & Hsame_a & Hnone_a).
  destruct (Hdisk y H) as (cb & Hfb & Hhb & Hsame_b & Hnone_b).
  assert (Hc : ca = cb).
  { change (files y0) with (files y) in *. destruct (files y !! p) as [c|] eqn:E.
    - destruct (Hsame_a c eq_refl) as [<- _]. now destruct (Hsame_b c eq_refl) as [<- _].
    - now rewrite Hnone_a, Hnone_b. }
  subst cb.
  destruct (reload_fresh p _ ca Hha Hfa) as (ya & Hra & Hfilesa & _).
  destruct (reload_fresh p _ ca Hhb Hfb) as (yb & Hrb & Hfilesb & _).
  eexists _, _, ya, yb. split; [|split; [|split]].
  - rewrite (bind_Ok _ _ _ _ _ (close_run t y)). fold p y0.
    rewrite (bind_Ok _ _ _ _ _ (initialize_run (TrafficStore.create p) y0 H0)).
    apply (query_after_reload JSON_parse o _ _ _ _ Hra).
  - rewrite (bind_Ok _ _ _ _ _ (initialize_run (TrafficStore.create p) y H)).
    apply (query_after_reload JSON_parse o _ _ _ _ Hrb).
  - rewrite Hfilesa, Hfilesb. unfold disk. simpl. change (files y0) with (files y).
    now destruct (files y !! p).
  - intros content Hf. rewrite Hfilesa. change (files y0) with (files y) in *.
    destruct (Hsame_a content Hf) as [-> Hd]. split; [|reflexivity].
    simpl. exact Hd.
Qed.

(** ** [clear], again *)

Lemma retained_twice b es : retained b (retained b es) = retained b es.
Proof.
  destruct b as [t0|]; [|reflexivity]. simpl.
  induction es as [|e es IH]; [reflexivity|]. simpl.
  destruct (JsonlEntry.timestampMs e >=? t0) eqn:E; simpl; rewrite ?E, IH; reflexivity.
Qed.

(** X8. [clear] with the same threshold a second time removes nothing: it
    returns 0 and leaves the store and the file as the first call left
    them. *)
Theorem clear_twice b t y t' y' :
  reloadEntries JSON_parse (t, y) = (Ok tt, (t', y')) ->
  fault y' OpWrite (TrafficStore.jsonlPath t') = None ->
  fault y' OpStat (TrafficStore.jsonlPath t') = None ->
  exists n st,
    clear JSON_parse JSON_stringify b (t, y) = (Ok n, st)
    /\ clear JSON_parse JSON_stringify b st = (Ok 0, st).
Proof.
  intros Hr Hw Hs.
  pose proof (clear_after_reload JSON_parse JSON_stringify b _ _ _ _ Hr Hw Hs) as H1.
  cbv zeta in H1.
  set (kept := retained b (TrafficStore.entries t')) in *.
  set (text := logText JSON_stringify kept) in *.
  set (t1 := {| TrafficStore.jsonlPath := TrafficStore.jsonlPath t';
                TrafficStore.entries := kept;
                TrafficStore.lastReadPosition := Js.byteLength text |}) in *.
  set (y1 := set_files (insert (TrafficStore.jsonlPath t') text) y') in *.
  eexists _, (t1, y1). split; [exact H1|].
  assert (Hr1 : reloadEntries JSON_parse (t1, y1) = (Ok tt, (t1, y1))).
  { apply reload_unchanged; [exact Hs|]. simpl. rewrite lookup_insert_eq. simpl. lia. }
  rewrite (clear_after_reload JSON_parse JSON_stringify b _ _ _ _ Hr1 Hw Hs).
  assert (Hk : retained b kept = kept) by apply retained_twice.
  cbv zeta. unfold t1. cbn [TrafficStore.entries TrafficStore.jsonlPath].
  rewrite !Hk. fold text.
  unfold y1, set_files. cbn [files fault console]. rewrite insert_insert_eq.
  f_equal. f_equal. lia.
Qed.

(** ** Pages of a query *)

Lemma applyFilters_withPage offset limit o l :
  applyFilters (withPage offset limit o) l = applyFilters o l.
Proof. reflexivity. Qed.

(** X9. The pages of a query are consecutive pieces of one list: for an
    offset and limits that are not negative, the page of [n] entries at
    [offset] followed by the page of [m] entries at [offset + n] is the
    page of [n + m] entries at [offset]; [total] is the same for every
    page, and a page holds [min(limit, max(0, total - offset))] entries. *)
Theorem query_pages_concatenate o t y t' y' offset n m :
  reloadEntries JSON_parse (t, y) = (Ok tt, (t', y')) ->
  0 <= offset -> 0 <= n -> 0 <= m ->
  exists total first second both,
    query JSON_parse (withPage offset n o) (t, y)
    = (Ok {| QueryResult.entries := first; QueryResult.total := total |}, (t', y'))
    /\ query JSON_parse (withPage (offset + n) m o) (t, y)
       = (Ok {| QueryResult.entries := second; QueryResult.total := total |}, (t', y'))
    /\ query JSON_parse (withPage offset (n + m) o) (t, y)
       = (Ok {| QueryResult.entries := both; QueryResult.total := total |}, (t', y'))
    /\ both = first ++ second
    /\ Z.of_nat (length first) = Z.min n (Z.max 0 (total - offset)).
Proof.
  intros Hr Ho Hn Hm.
  set (sorted := Js.sort newestFirst (applyFilters o (TrafficStore.entries t'))).
  exists (Z.of_nat (length sorted)),
    (map toSummary (take (Z.to_nat n) (drop (Z.to_nat offset) sorted))),
    (map toSummary (take (Z.to_nat m) (drop (Z.to_nat (offset + n)) sorted))),
    (map toSummary (take (Z.to_nat (n + m)) (drop (Z.to_nat offset) sorted))).
  split; [|split; [|split; [|split]]].
  - rewrite (query_after_reload JSON_parse _ _ _ _ _ Hr), applyFilters_withPage.
    cbn [QueryOptions.offset QueryOptions.limit withPage]. fold sorted.
    now rewrite slice_page by assumption.
  - rewrite (query_after_reload JSON_parse _ _ _ _ _ Hr), applyFilters_withPage.
    cbn [QueryOptions.offset QueryOptions.limit withPage]. fold sorted.
    now rewrite slice_page by lia.
  - rewrite (query_after_reload JSON_parse _ _ _ _ _ Hr), applyFilters_withPage.
    cbn [QueryOptions.offset QueryOptions.limit withPage]. fold sorted.
    now rewrite slice_page by lia.
  - rewrite <- map_app. f_equal.
    rewrite Z2Nat.inj_add by assumption. rewrite <- take_take_drop. f_equal. f_equal.
    rewrite drop_drop. f_equal. rewrite Z2Nat.inj_add by assumption. reflexivity.
  - rewrite length_map, length_take, length_drop. lia.
Qed.

(** ** The pattern filters *)

Lemma startsWith_spec pat : forall s,
  Js.startsWith pat s = true <-> exists post, s = pat +:+ post.
Proof.
  induction pat as [|a pat IH]; intros s.
  - split; [intros _; now exists s|reflexivity].
  - destruct s as [|b s]; cbn [Js.startsWith].
    + split; [discriminate|]. intros [post H]. rewrite append_cons in H. discriminate.
    + rewrite andb_true_iff, IH. split.
      * intros [Hab [post ->]]. apply Ascii.eqb_eq in Hab as ->. now exists post.
      * intros [post H]. rewrite append_cons in H. injection H as -> ->.
        split; [apply Ascii.eqb_refl|now exists post].
Qed.

Lemma includes_spec pat : forall s,
  Js.includes pat s = true <-> exists pre post, s = pre +:+ pat +:+ post.
Proof.
  induction s as [|c s IH].
  - cbn [Js.includes]. rewrite orb_false_r, startsWith_spec. split.
    + intros [post H]. now exists EmptyString, post.
    + intros (pre & post & H). destruct pre as [|? pre]; [now exists post|].
      rewrite append_cons in H. discriminate.
  - cbn [Js.includes]. rewrite orb_true_iff, startsWith_spec, IH. split.
    + intros [[post H]|(pre & post & H)].
      * now exists EmptyString, post.
      * exists (String c pre), post. rewrite append_cons. now rewrite H.
    + intros (pre & post & H). destruct pre as [|d pre].
      * left. now exists post.
      * right. rewrite append_cons in H. injection H as -> ->. now exists pre, post.
Qed.

(** X10. [urlPattern] is matched as a piece of text, not as a regular
    expression, and without regard to case: next to the other filters,
    a record passes exactly when its URL in lower case contains the
    pattern in lower case; an empty pattern filters nothing. *)
Theorem urlPattern_literal_substring o l :
  (forall p e,
     p <> EmptyString ->
     In e (applyFilters (withUrlPattern (Some p) o) l)
     <-> In e (applyFilters (withUrlPattern None o) l)
         /\ exists pre post,
              Js.toLowerCase (Request.url (JsonlEntry.request e))
              = pre +:+ Js.toLowerCase p +:+ post)
  /\ applyFilters (withUrlPattern (Some EmptyString) o) l
     = applyFilters (withUrlPattern None o) l.
Proof.
  split; [|reflexivity].
  intros p e Hp. rewrite !applyFilters_matches, !filter_In, <- includes_spec.
  unfold matches. cbn [withUrlPattern QueryOptions.startTimeMs QueryOptions.endTimeMs
    QueryOptions.urlPattern QueryOptions.method QueryOptions.statusCode
    QueryOptions.statusRange QueryOptions.contentType].
  assert (Js.truthy (Some p) = Some p) as ->
    by (unfold Js.truthy; now destruct (String.eqb_spec p EmptyString)).
  cbn [Js.truthy]. rewrite !andb_true_iff. clear JSON_parse JSON_stringify. tauto.
Qed.

End StoreMore.

(** ** Objects through [JSON.stringify] *)

Lemma json_of_defined v : v <> JUndefined -> json_of v <> JUndefined.
Proof. destruct v; simpl; congruence. Qed.

Lemma json_props_cons k v o :
  json_props ((k, v) :: o)
  = match v with
    | JUndefined => json_props o
    | _ => (k, json_of v) :: json_props o
    end.
Proof. unfold json_props. cbn [json_of]. now destruct v. Qed.

Lemma json_of_object o : json_of (JObj o) = JObj (json_props o).
Proof. reflexivity. Qed.

(** What [JSON.stringify] writes never holds [undefined]. *)
Lemma json_props_defined k o x : obj_get k (json_props o) = Some x -> x <> JUndefined.
Proof.
  induction o as [|[k' v] o IH]; [discriminate|]. rewrite json_props_cons.
  destruct v; try exact IH; cbn [obj_get];
    (destruct (String.eqb k k'); [intros [= <-]; discriminate|exact IH]).
Qed.

Lemma json_props_absent k o : obj_get k o = None -> obj_get k (json_props o) = None.
Proof.
  induction o as [|[k' v] o IH]; [reflexivity|]. rewrite json_props_cons. cbn [obj_get].
  destruct (String.eqb k k') eqn:E; [discriminate|]. intros H.
  destruct v; cbn [obj_get]; rewrite ?E; auto.
Qed.

Lemma obj_get_In k o v : obj_get k o = Some v -> In k (map fst o).
Proof.
  induction o as [|[k' v'] o IH]; [discriminate|]. cbn [obj_get map fst].
  destruct (String.eqb_spec k k') as [->|]; [now left|right; auto].
Qed.

(** A property given as [undefined] is not written. *)
Lemma json_props_undefined k o :
  NoDup (map fst o) -> obj_get k o = Some JUndefined -> obj_get k (json_props o) = None.
Proof.
  induction o as [|[k' v] o IH]; [discriminate|]. cbn [map fst].
  intros Hnd. apply NoDup_cons in Hnd as [Hk' Hnd]. rewrite json_props_cons. cbn [obj_get].
  destruct (String.eqb_spec k k') as [->|Hne].
  - intros [= ->]. apply json_props_absent.
    destruct (obj_get k' o) eqn:E; [|reflexivity].
    exfalso. apply Hk'. apply list_elem_of_In. now apply obj_get_In in E.
  - intros H. specialize (IH Hnd H). apply String.eqb_neq in Hne.
    destruct v; cbn [obj_get]; rewrite ?Hne; exact IH.
Qed.

(** An object that is what [JSON.stringify] keeps of itself, as every
    object read from a JSON text is, holds values of the same kind. *)
Lemma json_props_fixed k o v :
  json_props o = o -> obj_get k o = Some v -> v <> JUndefined /\ json_of v = v.
Proof.
  intros Hfix Hk.
  assert (Hv : v <> JUndefined).
  { rewrite <- Hfix in Hk. now apply json_props_defined in Hk. }
  split; [exact Hv|].
  pose proof (obj_get_json_props k o v Hk Hv) as H. rewrite Hfix, Hk in H. congruence.
Qed.

Lemma obj_set_NoDup k v o : NoDup (map fst o) -> NoDup (map fst (obj_set k v o)).
Proof.
  intros H. rewrite obj_set_keys. destruct (obj_get k o) eqn:E; [exact H|].
  apply NoDup_app. split; [exact H|]. split; [|apply NoDup_singleton].
  intros x Hx Hx'. apply list_elem_of_singleton in Hx' as ->.
  apply list_elem_of_In in Hx. clear H. induction o as [|[k' v'] o IH]; [destruct Hx|].
  cbn [obj_get] in E. cbn [map fst] in Hx.
  destruct (String.eqb_spec k k') as [->|Hne]; [discriminate|].
  destruct Hx as [->|Hx]; [congruence|auto].
Qed.

Lemma obj_spread_NoDup target src :
  NoDup (map fst target) -> NoDup (map fst (obj_spread target src)).
Proof.
  unfold obj_spread. revert target.
  induction src as [|[k v] src IH]; intros target H; [exact H|].
  cbn [fold_left]. apply IH. now apply obj_set_NoDup.
Qed.

Lemma isStr_propOr k o s : isStr (propOr k o) s = true <-> obj_get k o = Some (JStr s).
Proof.
  unfold propOr. destruct (obj_get k o) as [[]|]; simpl; try (split; [discriminate|congruence]).
  rewrite String.eqb_eq. split; congruence.
Qed.

Section StateMore.
Context (config : Config.t).

(** X11. [isSessionStopping] never throws and changes nothing; it answers
    [false] exactly when the state document can be read and its status
    is neither [stopping] nor [stopped]: a session whose state cannot be
    read (no document, text that is not JSON, a refused read) or is
    [null] counts as stopping. *)
Theorem isSessionStopping_defaults_to_true sessionId w :
  exists b,
    isSessionStopping config sessionId w = (Ok b, w)
    /\ (b = false
        <-> exists o,
              fault (system w) OpRead (getStatePath config sessionId) = None
              /\ docs w !! sessionId = Some (Doc o)
              /\ obj_get "status" o <> Some (JStr "stopping")
              /\ obj_get "status" o <> Some (JStr "stopped")).
Proof.
  unfold isSessionStopping, read, property. unfold tryCatch, bind, readDocument, throw, ret.
  destruct (fault (system w) OpRead (getStatePath config sessionId)) as [err|] eqn:Hr.
  - exists true. split; [now destruct (isENOENT (io_error err))|].
    split; [discriminate|]. now intros (o & ? & _).
  - destruct (docs w !! sessionId) as [[msg|o|]|] eqn:Hd.
    + exists true. split; [reflexivity|]. split; [discriminate|]. now intros (o & _ & ? & _).
    + eexists. split; [reflexivity|]. rewrite orb_false_iff.
      rewrite <- !not_true_iff_false, !isStr_propOr. split.
      * intros [H1 H2]. now exists o.
      * intros (o' & _ & [= <-] & H1 & H2). auto.
    + exists true. split; [reflexivity|]. split; [discriminate|]. now intros (o & _ & ? & _).
    + exists true. split; [reflexivity|]. split; [discriminate|]. now intros (o & _ & ? & _).
Qed.

Lemma published_doc sessionId k w doc :
  docs w !! sessionId = Some (Doc doc) -> published sessionId k w = mitmProperty k doc.
Proof. intros H. unfold published, mitmProperty. now rewrite H. Qed.

(** The [mitm] properties of the document [updateMitm] writes. *)
Lemma patched_property current mitm k :
  NoDup (map fst mitm) ->
  json_props current = current ->
  (forall m, obj_get "mitm" current = Some (JObj m) -> NoDup (map fst m)) ->
  mitmProperty k (json_props (mergeMitm current mitm))
  = match obj_get k mitm with
    | Some JUndefined => None
    | Some v => Some (json_of v)
    | None => mitmProperty k current
    end.
Proof.
  intros Hnd Hfix Hkeys.
  set (old := spread_of (obj_get "mitm" current)).
  assert (Hold : mitmProperty k current = obj_get k old).
  { unfold mitmProperty, old. now destruct (obj_get "mitm" current) as [[]|]. }
  assert (Hnew : mitmProperty k (json_props (mergeMitm current mitm))
                 = obj_get k (json_props (obj_spread old mitm))).
  { unfold mitmProperty, mergeMitm.
    now rewrite (obj_get_json_props "mitm" _ _ (obj_get_set_eq _ _ _)) by discriminate. }
  rewrite Hnew, Hold.
  assert (Hold_nd : NoDup (map fst old)).
  { unfold old. destruct (obj_get "mitm" current) as [[]|] eqn:E; try apply NoDup_nil_2.
    now apply Hkeys. }
  pose proof (obj_get_spread k old mitm Hnd) as Hget.
  destruct (obj_get k mitm) as [v|] eqn:Hk.
  - assert (Hcases : v = JUndefined \/ v <> JUndefined)
      by (destruct v; auto; right; discriminate).
    destruct Hcases as [->|Hv].
    + apply json_props_undefined; [now apply obj_spread_NoDup|exact Hget].
    + rewrite (obj_get_json_props _ _ _ Hget Hv). now destruct v.
  - destruct (obj_get k old) as [v|] eqn:Ho.
    + assert (Hm : obj_get "mitm" current = Some (JObj old)).
      { unfold old in *. destruct (obj_get "mitm" current) as [[]|]; try discriminate.
        reflexivity. }
      destruct (json_props_fixed _ _ _ Hfix Hm) as [_ Hfix'].
      rewrite json_of_object in Hfix'. injection Hfix' as Hfix'.
      destruct (json_props_fixed _ _ _ Hfix' Ho) as [Hv Hjv].
      rewrite (obj_get_json_props _ _ _ Hget Hv). now rewrite Hjv.
    + now apply json_props_absent.
Qed.

(** X12. [updateMitm] patches the [mitm] object of the written document
    property by property: a property of the partial state is written with
    the value given, or removed when the value given is [undefined]; a
    property the partial state does not name keeps the value the document
    had. *)
Theorem updateMitm_patches_properties sessionId mitm w d w' current :
  updateMitm config sessionId mitm w = (Ok d, w') ->
  docs w !! sessionId = Some (Doc current) ->
  NoDup (map fst mitm) ->
  json_props current = current ->
  (forall m, obj_get "mitm" current = Some (JObj m) -> NoDup (map fst m)) ->
  forall k,
    published sessionId k w'
    = match obj_get k mitm with
      | Some JUndefined => None
      | Some v => Some (json_of v)
      | None => published sessionId k w
      end.
Proof.
  intros Hu Hd Hnd Hfix Hkeys k.
  apply updateMitm_Ok in Hu as (current' & Hd' & -> & ->).
  rewrite Hd in Hd'. injection Hd' as <-.
  rewrite (published_doc sessionId k w current Hd).
  rewrite (published_doc sessionId k _ (json_props (mergeMitm current mitm)))
    by (simpl; apply lookup_insert_eq).
  now apply patched_property.
Qed.

End StateMore.

(** ** Outcomes of computations *)

Section Outcomes.
Context {S : Type}.

Lemma settles_ret {A} (a : A) : settles (@ret S A a).
Proof. intros s. discriminate. Qed.

Lemma settles_throw {A} e : settles (@throw S A e).
Proof. intros s. discriminate. Qed.

Lemma settles_get : settles (@get S).
Proof. intros s. discriminate. Qed.

Lemma settles_gets {A} (f : S -> A) : settles (gets f).
Proof. intros s. discriminate. Qed.

Lemma settles_modify (f : S -> S) : settles (modify f).
Proof. intros s. discriminate. Qed.

Lemma settles_bind {A B} (m : M S A) (k : A -> M S B) :
  settles m -> (forall a, settles (k a)) -> settles (bind m k).
Proof.
  intros Hm Hk s. unfold bind. specialize (Hm s).
  destruct (m s) as [[a|e|] s1]; [apply Hk|discriminate|contradiction].
Qed.

Lemma settles_tryCatch {A} (m : M S A) h :
  settles m -> (forall e, settles (h e)) -> settles (tryCatch m h).
Proof.
  intros Hm Hh s. unfold tryCatch. specialize (Hm s).
  destruct (m s) as [[a|e|] s1]; [discriminate|apply Hh|contradiction].
Qed.

Lemma settles_forEach {A} (l : list A) (body : A -> M S unit) :
  (forall x, settles (body x)) -> settles (forEach l body).
Proof.
  intros H. induction l as [|x l IH]; [apply settles_ret|].
  apply settles_bind; auto.
Qed.

(** A handler that answers turns a computation that settles into one
    that fulfils. *)
Lemma caught_fulfils {A} (m : M S A) (answer : Exn -> A) s :
  settles m -> exists a s', tryCatch m (fun e => ret (answer e)) s = (Ok a, s').
Proof.
  intros Hm. unfold tryCatch. specialize (Hm s).
  destruct (m s) as [[a|e|] s1]; [now eexists _, _|now eexists _, _|contradiction].
Qed.

Lemma throwsOnly_ret P {A} (a : A) : throwsOnly P (@ret S A a).
Proof. intros s e s'. discriminate. Qed.

Lemma throwsOnly_throw (P : Exn -> Prop) {A} e : P e -> throwsOnly P (@throw S A e).
Proof. intros H s e' s' [= <- _]. exact H. Qed.

Lemma throwsOnly_get P : throwsOnly P (@get S).
Proof. intros s e s'. discriminate. Qed.

Lemma throwsOnly_gets P {A} (f : S -> A) : throwsOnly P (gets f).
Proof. intros s e s'. discriminate. Qed.

Lemma throwsOnly_modify P (f : S -> S) : throwsOnly P (modify f).
Proof. intros s e s'. discriminate. Qed.

Lemma throwsOnly_bind P {A B} (m : M S A) (k : A -> M S B) :
  throwsOnly P m -> (forall a, throwsOnly P (k a)) -> throwsOnly P (bind m k).
Proof.
  intros Hm Hk s e s' H. unfold bind in H.
  destruct (m s) as [[a|e1|] s1] eqn:E.
  - exact (Hk a _ _ _ H).
  - injection H as <- <-. exact (Hm _ _ _ E).
  - discriminate.
Qed.

Lemma throwsOnly_tryCatch P {A} (m : M S A) h :
  (forall e, throwsOnly P (h e)) -> throwsOnly P (tryCatch m h).
Proof.
  intros Hh s e s' H. unfold tryCatch in H.
  destruct (m s) as [[a|e1|] s1] eqn:E; [discriminate| |discriminate].
  exact (Hh e1 _ _ _ H).
Qed.

Lemma throwsOnly_weaken (P Q : Exn -> Prop) {A} (m : M S A) :
  (forall e, P e -> Q e) -> throwsOnly P m -> throwsOnly Q m.
Proof. intros H Hm s e s' E. apply H. exact (Hm _ _ _ E). Qed.

End Outcomes.

Lemma settles_when b (m : M World unit) : settles m -> settles (when b m).
Proof. destruct b; [auto|]. intros _. apply settles_ret. Qed.

Lemma throwsOnly_when P b (m : M World unit) : throwsOnly P m -> throwsOnly P (when b m).
Proof. destruct b; [auto|]. intros _. apply throwsOnly_ret. Qed.

Lemma settles_zoom {S T A} (proj : S -> T) (inj : T -> S -> S) (m : M T A) :
  settles m -> settles (zoom proj inj m).
Proof.
  intros Hm s. unfold zoom. specialize (Hm (proj s)). now destruct (m (proj s)).
Qed.

Lemma throwsOnly_zoom P {S T A} (proj : S -> T) (inj : T -> S -> S) (m : M T A) :
  throwsOnly P m -> throwsOnly P (zoom proj inj m).
Proof.
  intros Hm s e s' H. unfold zoom in H.
  destruct (m (proj s)) as [r t] eqn:E. injection H as -> _. exact (Hm _ _ _ E).
Qed.

Lemma settles_on_file {A} op p (f : string -> A) : settles (on_file op p f).
Proof. intros y. unfold on_file. repeat case_match; discriminate. Qed.

Lemma settles_writeFile p content : settles (fs_writeFile p content).
Proof. intros y. unfold fs_writeFile. repeat case_match; discriminate. Qed.

Create HintDb outcomes.

#[export] Hint Resolve settles_ret settles_throw settles_get settles_gets settles_modify
  settles_on_file settles_writeFile : outcomes.

Ltac settle_step :=
  first
    [ solve [eauto with outcomes]
    | apply settles_when
    | apply settles_bind; [|intros ?]
    | apply settles_tryCatch; [|intros ?]
    | apply settles_zoom
    | apply settles_forEach; intros ?
    | match goal with
      | |- settles (match ?x with _ => _ end) => destruct x
      | |- settles (if ?x then _ else _) => destruct x
      | |- settles (let '(_, _) := ?x in _) => destruct x
      end ].

Ltac settle := repeat settle_step.

Section StoreOutcomes.
Context (JSON_parse : string -> option JsonlEntry.t).
Context (JSON_stringify : JsonlEntry.t -> string).

Lemma settles_reloadEntries : settles (reloadEntries JSON_parse).
Proof. intros st. apply reload_settles. Qed.

#[local] Hint Resolve settles_reloadEntries : outcomes.

Lemma settles_getStats nowMs : settles (getStats JSON_parse nowMs).
Proof.
  unfold getStats, this. settle.
Qed.

Lemma settles_getEntry entryId : settles (getEntry JSON_parse entryId).
Proof. unfold getEntry, this. settle. Qed.

Lemma settles_query o : settles (query JSON_parse o).
Proof. unfold query, this. settle. Qed.

Lemma settles_clear b : settles (clear JSON_parse JSON_stringify b).
Proof. unfold clear, this, set_this, sys, fs_stat. settle. Qed.

Lemma settles_close : settles close.
Proof. unfold close, set_this, sys, logger. settle. Qed.

Lemma settles_initialize : settles initialize.
Proof. unfold initialize, this, sys, fs_access, logger. settle. Qed.

End StoreOutcomes.

(** ** The manager never hangs outside [startProxy] *)

Lemma settles_onStore {A} sessionId (m : M (TrafficStore.t * Sys) A) :
  settles m -> settles (onStore sessionId m).
Proof.
  intros Hm w. unfold onStore. destruct (trafficStores w !! sessionId) as [store|]; [|discriminate].
  specialize (Hm (store, system w)).
  destruct (m (store, system w)) as [[a|e|] [store' y]]; [discriminate|discriminate|contradiction].
Qed.

Section ManagerOutcomes.
Context (config : Config.t).

Lemma settles_log lvl msg : settles (log lvl msg).
Proof. unfold log, inSystem, logger. settle. Qed.

Lemma settles_readDocument sessionId : settles (readDocument config sessionId).
Proof. intros w. unfold readDocument. repeat case_match; discriminate. Qed.

Lemma settles_writeDocument sessionId o : settles (writeDocument config sessionId o).
Proof. intros w. unfold writeDocument. repeat case_match; discriminate. Qed.

#[local] Hint Resolve settles_log settles_readDocument settles_writeDocument : outcomes.

Lemma settles_read sessionId : settles (read config sessionId).
Proof. unfold read. settle. Qed.

#[local] Hint Resolve settles_read : outcomes.

Lemma settles_updateMitm sessionId mitm : settles (updateMitm config sessionId mitm).
Proof. unfold updateMitm. settle. Qed.

Lemma settles_handleProcessExit sessionId code signal :
  settles (handleProcessExit sessionId code signal).
Proof. unfold handleProcessExit, getSession, setSession. settle. Qed.

#[local] Hint Resolve settles_updateMitm settles_handleProcessExit : outcomes.

Lemma settles_childExit pid code signal : settles (childExit pid code signal).
Proof. unfold childExit. settle. Qed.

#[local] Hint Resolve settles_childExit : outcomes.

Lemma settles_kill env pid : settles (kill env pid).
Proof. unfold kill. settle. Qed.

#[local] Hint Resolve settles_kill : outcomes.

Lemma settles_killIfRunning env pid : settles (killIfRunning env pid).
Proof. unfold killIfRunning, isRunning. settle. Qed.

Lemma settles_stopTeardown env sessionId s : settles (stopTeardown env sessionId s).
Proof.
  unfold stopTeardown, setSession. settle; try apply settles_killIfRunning.
  apply settles_onStore, settles_close.
Qed.

#[local] Hint Resolve settles_stopTeardown : outcomes.

Lemma settles_stopProxy env sessionId : settles (stopProxy config env sessionId).
Proof. unfold stopProxy, getSession, unregisterSessionLog. settle. Qed.

End ManagerOutcomes.

(** ** What the manager throws *)

Lemma noThrow_any {S A} P (m : M S A) : noThrow m -> throwsOnly P m.
Proof. apply throwsOnly_weaken. intros e []. Qed.

Lemma hasCode_incl codes codes' e :
  (forall c, In c codes -> In c codes') -> hasCode codes e -> hasCode codes' e.
Proof. intros H (c & Hc & Hin). exists c. auto. Qed.

Ltac throws_step :=
  first
    [ solve [eauto with outcomes]
    | solve [apply throwsOnly_ret]
    | solve [apply throwsOnly_get]
    | solve [apply throwsOnly_gets]
    | solve [apply throwsOnly_modify]
    | apply throwsOnly_when
    | apply throwsOnly_bind; [|intros ?]
    | apply throwsOnly_tryCatch; intros ?
    | apply throwsOnly_zoom
    | match goal with
      | |- throwsOnly _ (match ?x with _ => _ end) => destruct x
      | |- throwsOnly _ (if ?x then _ else _) => destruct x
      end ].

Ltac throws := repeat throws_step.

Lemma throwsOnly_onStore P {A} sessionId (m : M (TrafficStore.t * Sys) A) :
  throwsOnly P m -> throwsOnly P (onStore sessionId m).
Proof.
  intros Hm w e w' H. unfold onStore in H.
  destruct (trafficStores w !! sessionId) as [store|]; [|discriminate].
  destruct (m (store, system w)) as [[a|e1|] [store' y]] eqn:E; try discriminate.
  injection H as <- _. exact (Hm _ _ _ E).
Qed.

Lemma throwsOnly_orl {S A} (P Q : Exn -> Prop) (m : M S A) :
  throwsOnly P m -> throwsOnly (fun e => P e \/ Q e) m.
Proof. apply throwsOnly_weaken. now left. Qed.

Lemma throwsOnly_orr {S A} (P Q : Exn -> Prop) (m : M S A) :
  throwsOnly Q m -> throwsOnly (fun e => P e \/ Q e) m.
Proof. apply throwsOnly_weaken. now right. Qed.

Section ManagerThrows.
Context (config : Config.t).

Lemma log_noThrow P lvl msg : throwsOnly P (log lvl msg).
Proof. intros w e w'. discriminate. Qed.

Lemma read_throws sessionId :
  throwsOnly (hasCode [SESSION_NOT_FOUND; STATE_READ_FAILED]) (read config sessionId).
Proof.
  unfold read. apply throwsOnly_tryCatch. intros e.
  destruct (isENOENT e); apply throwsOnly_throw; eexists; (split; [reflexivity|]); simpl; auto.
Qed.

Lemma property_throws k state : throwsOnly nullRead (property k state).
Proof.
  destruct state; [apply throwsOnly_ret|]. apply throwsOnly_throw. now exists k.
Qed.

Lemma updateMitm_throws sessionId mitm :
  throwsOnly
    (fun e => hasCode [SESSION_NOT_FOUND; STATE_READ_FAILED; STATE_WRITE_FAILED] e
              \/ nullRead e)
    (updateMitm config sessionId mitm).
Proof.
  intros w e w' H. destruct (updateMitm_Throw _ _ _ _ _ _ H) as (_ & Hc & _).
  destruct Hc as [Hc|[Hc|[Hc|Hc]]];
    [left; eexists; (split; [exact Hc|]); simpl; auto ..|right; exists "mitm"%string; exact Hc].
Qed.

#[local] Hint Resolve log_noThrow : outcomes.

Lemma handleProcessExit_noThrow P sessionId code signal :
  throwsOnly P (handleProcessExit sessionId code signal).
Proof. unfold handleProcessExit, getSession, setSession. throws. Qed.

#[local] Hint Resolve handleProcessExit_noThrow : outcomes.

Lemma childExit_noThrow P pid code signal : throwsOnly P (childExit pid code signal).
Proof. unfold childExit. throws. Qed.

#[local] Hint Resolve childExit_noThrow : outcomes.

Lemma kill_noThrow P env pid : throwsOnly P (kill env pid).
Proof. unfold kill. throws. Qed.

#[local] Hint Resolve kill_noThrow : outcomes.

Lemma killIfRunning_noThrow P env pid : throwsOnly P (killIfRunning env pid).
Proof. unfold killIfRunning, isRunning. throws. Qed.

Lemma close_noThrow P : throwsOnly P close.
Proof. intros st e st'. discriminate. Qed.

Lemma onStore_close_noThrow P sessionId : throwsOnly P (onStore sessionId close).
Proof. apply throwsOnly_onStore, close_noThrow. Qed.

#[local] Hint Resolve killIfRunning_noThrow onStore_close_noThrow : outcomes.

Lemma stopTeardown_noThrow P env sessionId s : throwsOnly P (stopTeardown env sessionId s).
Proof. unfold stopTeardown, setSession. throws. Qed.

#[local] Hint Resolve stopTeardown_noThrow : outcomes.

Section Raises.
Context (codes : list ErrorCode) (Q : Exn -> Prop).

Lemma updateMitm_raises sessionId mitm :
  (forall c, In c [SESSION_NOT_FOUND; STATE_READ_FAILED; STATE_WRITE_FAILED] -> In c codes) ->
  (forall e, nullRead e -> Q e) ->
  throwsOnly (fun e => hasCode codes e \/ Q e) (updateMitm config sessionId mitm).
Proof.
  intros H HQ. eapply throwsOnly_weaken; [|apply updateMitm_throws].
  intros e [He|He]; [left; revert He; now apply hasCode_incl|right; auto].
Qed.

Lemma read_raises sessionId :
  (forall c, In c [SESSION_NOT_FOUND; STATE_READ_FAILED] -> In c codes) ->
  throwsOnly (fun e => hasCode codes e \/ Q e) (read config sessionId).
Proof.
  intros H. apply throwsOnly_orl. eapply throwsOnly_weaken; [|apply read_throws].
  intros e. now apply hasCode_incl.
Qed.

Lemma property_raises k state :
  (forall e, nullRead e -> Q e) ->
  throwsOnly (fun e => hasCode codes e \/ Q e) (property k state).
Proof.
  intros HQ. apply throwsOnly_orr. eapply throwsOnly_weaken; [|apply property_throws]. exact HQ.
Qed.

Lemma throw_raises {S A} c message details :
  In c codes ->
  throwsOnly (fun e => hasCode codes e \/ Q e) (@throw S A (MitmError c message details)).
Proof. intros H. apply throwsOnly_orl, throwsOnly_throw. now exists c. Qed.

End Raises.

#[local] Hint Extern 1 (throwsOnly _ (updateMitm _ _ _)) =>
  apply updateMitm_raises; [simpl; tauto|cbv beta; auto] : outcomes.
#[local] Hint Extern 1 (throwsOnly _ (read _ _)) =>
  apply read_raises; simpl; tauto : outcomes.
#[local] Hint Extern 1 (throwsOnly _ (property _ _)) =>
  apply property_raises; cbv beta; auto : outcomes.
#[local] Hint Extern 1 (throwsOnly _ (throw (MitmError _ _ _))) =>
  apply throw_raises; simpl; tauto : outcomes.

Lemma stopProxy_throws env sessionId :
  throwsOnly (fun e => hasCode stopCodes e \/ nullRead e) (stopProxy config env sessionId).
Proof. unfold stopProxy, getSession, unregisterSessionLog, stopCodes. throws. Qed.

End ManagerThrows.

Lemma bind_Throw_inv {S A B} (m : M S A) (k : A -> M S B) s e s' :
  bind m k s = (Throw e, s') ->
  m s = (Throw e, s') \/ exists a s1, m s = (Ok a, s1) /\ k a s1 = (Throw e, s').
Proof.
  unfold bind. destruct (m s) as [[a|e1|] s1]; intros H;
    [right; eauto|left; now injection H as -> ->|discriminate].
Qed.

Section StartThrows.
Context (config : Config.t).

Lemma ensureMitmDir_throws sessionId : throwsOnly fsError (ensureMitmDir config sessionId).
Proof.
  intros w e w'. unfold ensureMitmDir. cbv beta zeta.
  destruct (fault (system w) OpMkdir (getMitmDir config sessionId)) as [err|];
    intros [= <- _]. now exists err.
Qed.

Lemma ensureMitmDir_raises codes sessionId :
  throwsOnly (fun e => hasCode codes e \/ plain e) (ensureMitmDir config sessionId).
Proof.
  apply throwsOnly_orr. eapply throwsOnly_weaken; [|apply ensureMitmDir_throws]. now left.
Qed.

Lemma registerSessionLog_noThrow P env sessionId :
  Env.sessionLogError env = None -> throwsOnly P (registerSessionLog env sessionId).
Proof. intros H. unfold registerSessionLog. rewrite H. apply throwsOnly_modify. Qed.

Lemma nullRead_plain e : nullRead e -> plain e.
Proof. now right. Qed.

#[local] Hint Resolve nullRead_plain : core.
#[local] Hint Resolve log_noThrow : outcomes.
#[local] Hint Extern 1 (throwsOnly _ (updateMitm _ _ _)) =>
  apply updateMitm_raises; [simpl; tauto|cbv beta; auto] : outcomes.
#[local] Hint Extern 1 (throwsOnly _ (read _ _)) =>
  apply read_raises; simpl; tauto : outcomes.
#[local] Hint Extern 1 (throwsOnly _ (property _ _)) =>
  apply property_raises; cbv beta; auto : outcomes.
#[local] Hint Extern 1 (throwsOnly _ (throw (MitmError _ _ _))) =>
  apply throw_raises; simpl; tauto : outcomes.
#[local] Hint Resolve ensureMitmDir_raises registerSessionLog_noThrow : outcomes.

(** The [catch] block of [startProxy] throws the error of its state
    update or [MITMDUMP_START_FAILED]. *)
Lemma startFailed_throws sessionId e :
  throwsOnly
    (fun e =>
       hasCode [SESSION_NOT_FOUND; STATE_READ_FAILED; STATE_WRITE_FAILED; MITMDUMP_START_FAILED]
         e
       \/ nullRead e)
    (startFailed config sessionId e).
Proof. unfold startFailed, setSession. throws. Qed.

Lemma started_throws env sessionId c :
  throwsOnly
    (fun e =>
       hasCode [SESSION_NOT_FOUND; STATE_READ_FAILED; STATE_WRITE_FAILED; MITMDUMP_START_FAILED]
         e
       \/ nullRead e)
    (tryCatch (startAttempt config env sessionId c) (startFailed config sessionId)).
Proof. apply throwsOnly_tryCatch. intros e. apply startFailed_throws. Qed.

End StartThrows.

(** ** [ProxyManager.startProxy] *)

Ltac pass_check Hex :=
  unfold startProxy, startSetup; unfold bind at 1 2; unfold getSession, gets;
  match goal with
  | |- context [bind ?chk ?k ?w] =>
      let H := fresh "Hfirst" in
      assert (H : chk w = (Ok tt, w));
      [ destruct (sessions w !! _) as [?|]; [rewrite Hex|]; reflexivity
      | rewrite (bind_Ok _ _ _ _ _ H); clear H ]
  end.

Section StartMore.
Context (config : Config.t).

(** X13. [startProxy] examines the session document before it does
    anything: with no document it throws [SESSION_NOT_FOUND], with a
    document that is not JSON [STATE_READ_FAILED], with the document
    [null] the [TypeError] of reading its status, with a document whose
    status is not [active] [SESSION_INVALID_STATE] (the status found goes
    into the details); in each case nothing in the world has changed. *)
Theorem startProxy_checks_session_first env input w :
  let sessionId := StartProxyInput.sessionId input in
  match sessions w !! sessionId with
  | Some existing => isActive (ProxySession.status existing) = false
  | None => True
  end ->
  fault (system w) OpRead (getStatePath config sessionId) = None ->
  match docs w !! sessionId with
  | None =>
      startProxy config env input w
      = (Throw (MitmError SESSION_NOT_FOUND
                  ("Session not found: " +:+ sessionId
                   +:+ ". Create a session first with core.start_session()")
                  [("sessionId", JStr sessionId)]), w)
  | Some (Unparseable message) =>
      startProxy config env input w
      = (Throw (MitmError STATE_READ_FAILED
                  ("Failed to read session state: " +:+ message)
                  [("sessionId", JStr sessionId);
                   ("statePath", JStr (getStatePath config sessionId))]), w)
  | Some (Doc state) =>
      obj_get "status" state <> Some (JStr "active") ->
      startProxy config env input w
      = (Throw (MitmError SESSION_INVALID_STATE
                  ("Session is not active: " +:+ sessionId)
                  [("sessionId", JStr sessionId);
                   ("status", propOr "status" state)]), w)
  | Some DocNull =>
      startProxy config env input w = (Throw (nullProperty "status"), w)
  end.
Proof.
  intros sessionId Hex Hr.
  destruct (docs w !! sessionId) as [[message|state|]|] eqn:Hd.
  - pass_check Hex. fold sessionId.
    assert (E : read config sessionId w
                = (Throw (MitmError STATE_READ_FAILED
                            ("Failed to read session state: " +:+ message)
                            [("sessionId", JStr sessionId);
                             ("statePath", JStr (getStatePath config sessionId))]), w))
      by (unfold read, tryCatch, readDocument; now rewrite Hr, Hd).
    now rewrite (bind_Throw _ _ _ _ _ E).
  - intros Hstatus. pass_check Hex. fold sessionId.
    rewrite (bind_Ok _ _ _ _ _ (read_doc config sessionId w state Hr Hd)).
    unfold property. unfold bind at 1. unfold ret at 1.
    assert (isStr (propOr "status" state) "active" = false) as ->.
    { apply not_true_iff_false. now rewrite isStr_propOr. }
    reflexivity.
  - pass_check Hex. fold sessionId.
    assert (E : read config sessionId w = (Ok None, w))
      by (unfold read, tryCatch, readDocument; now rewrite Hr, Hd).
    now rewrite (bind_Ok _ _ _ _ _ E).
  - pass_check Hex. fold sessionId.
    assert (E : read config sessionId w
                = (Throw (MitmError SESSION_NOT_FOUND
                            ("Session not found: " +:+ sessionId
                             +:+ ". Create a session first with core.start_session()")
                            [("sessionId", JStr sessionId)]), w))
      by (unfold read, tryCatch, readDocument; now rewrite Hr, Hd).
    now rewrite (bind_Throw _ _ _ _ _ E).
Qed.

(** The setup of [startProxy] when every step goes through. *)
Lemma startSetup_run env input w state port :
  let sessionId := StartProxyInput.sessionId input in
  let listenHost := default "0.0.0.0" (Js.truthy (StartProxyInput.listenHost input)) in
  match sessions w !! sessionId with
  | Some existing => isActive (ProxySession.status existing) = false
  | None => True
  end ->
  fault (system w) OpRead (getStatePath config sessionId) = None ->
  fault (system w) OpWrite (getStatePath config sessionId) = None ->
  fault (system w) OpMkdir (getMitmDir config sessionId) = None ->
  docs w !! sessionId = Some (Doc state) ->
  obj_get "status" state = Some (JStr "active") ->
  resolvePort config env (StartProxyInput.port input) = Some port -> port <> 0 ->
  Env.sessionLogError env = None ->
  exists w1,
    startSetup config env input w
    = (Ok {| Started.port := port; Started.listenHost := listenHost;
             Started.jsonlPath := path_join (getMitmDir config sessionId) "traffic.jsonl";
             Started.logPath := path_join (getMitmDir config sessionId) "mitmdump.log";
             Started.session := newSession config sessionId port listenHost |}, w1)
    /\ sessions w1 = <[sessionId := newSession config sessionId port listenHost]> (sessions w)
    /\ docs w1
       = <[sessionId :=
             Doc (json_props
                    (mergeMitm state
                       [("status", JStr "starting"); ("proxyPort", JNum port);
                        ("proxyHost", JStr listenHost)]))]> (docs w)
    /\ fault (system w1) = fault (system w)
    /\ files (system w1) = files (system w)
    /\ trafficStores w1 = trafficStores w
    /\ processes w1 = processes w
    /\ alive w1 = alive w
    /\ sessionLogs w1 = {[sessionId]} ∪ sessionLogs w
    /\ detached w1 = detached w.
Proof.
  intros sessionId listenHost Hex Hr Hw Hmk Hd Hactive Hport Hp Hlog.
  unfold startSetup. unfold bind at 1. unfold getSession, gets.
  match goal with
  | |- context [bind ?chk ?k ?w] =>
      assert (Hfirst : chk w = (Ok tt, w))
        by (destruct (sessions w !! _) as [?|]; [rewrite Hex|]; reflexivity);
      rewrite (bind_Ok _ _ _ _ _ Hfirst); clear Hfirst
  end.
  fold sessionId.
  rewrite (bind_Ok _ _ _ _ _ (read_doc config sessionId w state Hr Hd)).
  unfold property. unfold bind at 1. unfold ret at 1.
  apply isStr_propOr in Hactive. rewrite Hactive. unfold bind at 1. cbn [negb when ret].
  rewrite Hport. fold listenHost.
  assert (Hdir : ensureMitmDir config sessionId w
                 = (Ok (getMitmDir config sessionId),
                    set_dirs (fun d => {[getMitmDir config sessionId]} ∪ d) w))
    by (unfold ensureMitmDir; now rewrite Hmk).
  set (w0 := set_sessionLogs (fun l => {[sessionId]} ∪ l)
               (set_sessions (insert sessionId (newSession config sessionId port listenHost))
                  (set_dirs (fun d => {[getMitmDir config sessionId]} ∪ d) w))).
  pose proof (updateMitm_written config sessionId
                [("status", JStr "starting"); ("proxyPort", JNum port);
                 ("proxyHost", JStr listenHost)] w0 state Hr Hw Hd) as Hu.
  destruct port as [|p|p]; [congruence| |];
    rewrite (bind_Ok _ _ _ _ _ Hdir);
    unfold bind at 1; unfold modify at 1;
    unfold registerSessionLog; rewrite Hlog;
    unfold bind at 1; unfold modify at 1;
    fold (newSession config sessionId (Z.pos p) listenHost);
    fold (newSession config sessionId (Z.neg p) listenHost);
    fold w0; rewrite (bind_Ok _ _ _ _ _ Hu);
    (eexists; split; [reflexivity|]; simpl; repeat split; reflexivity).
Qed.

(** What a document written by [updateMitm] publishes. *)
Lemma published_written sessionId current mitm w k v :
  docs w !! sessionId = Some (Doc (json_props (mergeMitm current mitm))) ->
  NoDup (map fst mitm) -> obj_get k mitm = Some v -> v <> JUndefined ->
  published sessionId k w = Some (json_of v).
Proof.
  intros Hd Hnd Hk Hv. unfold published, mergeMitm in *. rewrite Hd.
  rewrite (obj_get_json_props "mitm" _ _ (obj_get_set_eq _ _ _)) by discriminate.
  cbn [json_of]. apply obj_get_json_props; [|exact Hv].
  rewrite obj_get_spread by assumption. now rewrite Hk.
Qed.

Lemma newTrafficStore_run p w :
  healthy (system w) p ->
  newTrafficStore p w
  = (Ok (TrafficStore.create p),
     set_system (fun _ =>
       add_log (info, "Traffic store initialized")
         (match files (system w) !! p with
          | Some _ => system w
          | None => set_files (insert p EmptyString) (system w)
          end)) w).
Proof.
  intros H. unfold newTrafficStore.
  now rewrite (initialize_run (TrafficStore.create p) (system w) H).
Qed.

(** The [try] block of [startProxy] when the child is running after the
    100 ms. *)
Lemma startAttempt_run env sessionId c w state pid :
  healthy (system w) (Started.jsonlPath c) ->
  fault (system w) OpRead (getStatePath config sessionId) = None ->
  fault (system w) OpWrite (getStatePath config sessionId) = None ->
  docs w !! sessionId = Some (Doc state) ->
  Env.spawned env = SpawnRunning pid ->
  let patch :=
    [("status", JStr "ready");
     ("proxyPort", JNum (Started.port c));
     ("proxyHost", JStr (Started.listenHost c));
     ("pid", JNum pid);
     ("androidProxyConfig",
      JObj [("host", JStr "10.0.2.2"); ("port", JNum (Started.port c))])] in
  exists w2,
    startAttempt config env sessionId c w
    = (Ok (ProxySession.set_startedAt (Some (Env.nowISO env))
             (ProxySession.set_status ready
                (ProxySession.set_pid (Some pid) (Started.session c)))), w2)
    /\ sessions w2
       = alter (ProxySession.set_startedAt (Some (Env.nowISO env))) sessionId
           (alter (ProxySession.set_status ready) sessionId
              (alter (ProxySession.set_pid (Some pid)) sessionId (sessions w)))
    /\ docs w2 = <[sessionId := Doc (json_props (mergeMitm state patch))]> (docs w)
    /\ trafficStores w2
       = <[sessionId := TrafficStore.create (Started.jsonlPath c)]> (trafficStores w)
    /\ processes w2 = <[pid := sessionId]> (processes w)
    /\ alive w2 = {[pid]} ∪ alive w
    /\ sessionLogs w2 = sessionLogs w
    /\ detached w2 = detached w
    /\ files (system w2)
       = match files (system w) !! Started.jsonlPath c with
         | Some _ => files (system w)
         | None => <[Started.jsonlPath c := EmptyString]> (files (system w))
         end.
Proof.
  intros Hh Hr Hw Hd Hsp patch.
  unfold startAttempt.
  rewrite (bind_Ok _ _ _ _ _ (newTrafficStore_run _ _ Hh)).
  unfold bind at 1. unfold modify at 1.
  unfold bind at 1. unfold log at 1, inSystem, zoom, logger, modify at 1.
  cbn [system set_system set_trafficStores].
  unfold spawn. rewrite Hsp.
  unfold bind at 1. unfold bind at 1. unfold modify at 1. unfold bind at 1. unfold modify at 1.
  unfold ret at 1.
  unfold setSession.
  unfold bind at 1. unfold modify at 1.
  unfold bind at 1. unfold modify at 1.
  unfold bind at 1. unfold modify at 1.
  match goal with
  | |- context [bind (updateMitm config sessionId ?p) _ ?w0] =>
      assert (Hr' : fault (system w0) OpRead (getStatePath config sessionId) = None)
        by (simpl; now destruct (files (system w) !! Started.jsonlPath c));
      assert (Hw' : fault (system w0) OpWrite (getStatePath config sessionId) = None)
        by (simpl; now destruct (files (system w) !! Started.jsonlPath c));
      pose proof (updateMitm_written config sessionId p w0 state Hr' Hw' Hd) as Hu;
      rewrite (bind_Ok _ _ _ _ _ Hu)
  end.
  eexists. split; [reflexivity|]. simpl.
  repeat split; try reflexivity.
  now destruct (files (system w) !! Started.jsonlPath c).
Qed.

Lemma tryCatch_Pending {S A} (m : M S A) h s s' :
  m s = (Pending, s') -> tryCatch m h s = (Pending, s').
Proof. intros H. unfold tryCatch. now rewrite H. Qed.

Lemma tryCatch_Ok {S A} (m : M S A) h s a s' :
  m s = (Ok a, s') -> tryCatch m h s = (Ok a, s').
Proof. intros H. unfold tryCatch. now rewrite H. Qed.

(** X14. [startProxy] when every step goes through (no session of that id
    is starting or ready, the document is there with status [active], a
    port is resolved, the directory and the files can be made, and the
    child is running after the 100 ms): the call returns the session in
    status [ready] with the port, the pid and the start time; the
    manager holds that session and a fresh store on [traffic.jsonl]
    under the session's [mitm] directory; the child is tracked for the
    session; and shared state publishes status [ready], the port, the
    host, the pid and the proxy configuration for the emulator (host
    [10.0.2.2], the same port). A log file that was there keeps its
    content. *)
Theorem startProxy_ready env input w state port pid :
  let sessionId := StartProxyInput.sessionId input in
  let listenHost := default "0.0.0.0" (Js.truthy (StartProxyInput.listenHost input)) in
  let jsonlPath := path_join (getMitmDir config sessionId) "traffic.jsonl" in
  match sessions w !! sessionId with
  | Some existing => isActive (ProxySession.status existing) = false
  | None => True
  end ->
  fault (system w) OpRead (getStatePath config sessionId) = None ->
  fault (system w) OpWrite (getStatePath config sessionId) = None ->
  fault (system w) OpMkdir (getMitmDir config sessionId) = None ->
  healthy (system w) jsonlPath ->
  docs w !! sessionId = Some (Doc state) ->
  obj_get "status" state = Some (JStr "active") ->
  resolvePort config env (StartProxyInput.port input) = Some port -> port <> 0 ->
  Env.sessionLogError env = None ->
  Env.spawned env = SpawnRunning pid ->
  let session :=
    {| ProxySession.sessionId := sessionId;
       ProxySession.status := ready;
       ProxySession.proxyPort := port;
       ProxySession.proxyHost := listenHost;
       ProxySession.pid := Some pid;
       ProxySession.jsonlPath := jsonlPath;
       ProxySession.logPath := path_join (getMitmDir config sessionId) "mitmdump.log";
       ProxySession.startedAt := Some (Env.nowISO env);
       ProxySession.stoppedAt := None |} in
  exists w',
    startProxy config env input w = (Ok session, w')
    /\ sessions w' !! sessionId = Some session
    /\ trafficStores w' !! sessionId = Some (TrafficStore.create jsonlPath)
    /\ processes w' !! pid = Some sessionId
    /\ pid ∈ alive w'
    /\ sessionId ∈ sessionLogs w'
    /\ published sessionId "status" w' = Some (JStr "ready")
    /\ published sessionId "proxyPort" w' = Some (JNum port)
    /\ published sessionId "proxyHost" w' = Some (JStr listenHost)
    /\ published sessionId "pid" w' = Some (JNum pid)
    /\ published sessionId "androidProxyConfig" w'
       = Some (JObj [("host", JStr "10.0.2.2"); ("port", JNum port)])
    /\ files (system w') !! jsonlPath
       = Some (default EmptyString (files (system w) !! jsonlPath)).
Proof.
  intros sessionId listenHost jsonlPath Hex Hr Hw Hmk Hh Hd Hactive Hport Hp Hlog Hsp session.
  destruct (startSetup_run env input w state port Hex Hr Hw Hmk Hd Hactive Hport Hp Hlog)
    as (w1 & Hsetup & Hs1 & Hd1 & Hf1 & Hfiles1 & Ht1 & Hp1 & Ha1 & Hl1 & _).
  fold sessionId listenHost in Hsetup, Hs1, Hd1, Hl1.
  set (c := {| Started.port := port; Started.listenHost := listenHost;
               Started.jsonlPath := jsonlPath;
               Started.logPath := path_join (getMitmDir config sessionId) "mitmdump.log";
               Started.session := newSession config sessionId port listenHost |}) in *.
  set (state1 := json_props
                   (mergeMitm state
                      [("status", JStr "starting"); ("proxyPort", JNum port);
                       ("proxyHost", JStr listenHost)])) in *.
  assert (Hh1 : healthy (system w1) (Started.jsonlPath c))
    by (intros op; rewrite Hf1; apply Hh).
  assert (Hd1' : docs w1 !! sessionId = Some (Doc state1))
    by (rewrite Hd1; apply lookup_insert_eq).
  destruct (startAttempt_run env sessionId c w1 state1 pid Hh1
              ltac:(now rewrite Hf1) ltac:(now rewrite Hf1) Hd1' Hsp)
    as (w2 & Hattempt & Hs2 & Hd2 & Ht2 & Hp2 & Ha2 & Hl2 & _ & Hfiles2).
  exists w2. split.
  { unfold startProxy. fold sessionId. rewrite (bind_Ok _ _ _ _ _ Hsetup).
    now rewrite (tryCatch_Ok _ _ _ _ _ Hattempt). }
  assert (Hdoc : docs w2 !! sessionId
                 = Some (Doc (json_props
                                (mergeMitm state1
                                   [("status", JStr "ready");
                                    ("proxyPort", JNum (Started.port c));
                                    ("proxyHost", JStr (Started.listenHost c));
                                    ("pid", JNum pid);
                                    ("androidProxyConfig",
                                     JObj [("host", JStr "10.0.2.2");
                                           ("port", JNum (Started.port c))])]))))
    by (rewrite Hd2; apply lookup_insert_eq).
  assert (Hnd : NoDup ["status"; "proxyPort"; "proxyHost"; "pid"; "androidProxyConfig"])
    by (apply (bool_decide_unpack (NoDup _)); vm_compute; exact I).
  split; [rewrite Hs2, !lookup_alter_eq, Hs1, lookup_insert_eq; reflexivity|].
  split; [rewrite Ht2; apply lookup_insert_eq|].
  split; [rewrite Hp2; apply lookup_insert_eq|].
  split; [rewrite Ha2; set_solver|].
  split; [rewrite Hl2, Hl1; set_solver|].
  split; [exact (published_written _ _ _ _ "status" _ Hdoc Hnd eq_refl ltac:(discriminate))|].
  split; [exact (published_written _ _ _ _ "proxyPort" _ Hdoc Hnd eq_refl ltac:(discriminate))|].
  split; [exact (published_written _ _ _ _ "proxyHost" _ Hdoc Hnd eq_refl ltac:(discriminate))|].
  split; [exact (published_written _ _ _ _ "pid" _ Hdoc Hnd eq_refl ltac:(discriminate))|].
  split; [exact (published_written _ _ _ _ "androidProxyConfig" _ Hdoc Hnd eq_refl
                   ltac:(discriminate))|].
  rewrite Hfiles2, Hfiles1. cbn [Started.jsonlPath c].
  destruct (files (system w) !! jsonlPath) eqn:E; [now rewrite E|apply lookup_insert_eq].
Qed.

(** A session in status [starting] or [ready] makes [startProxy] throw. *)
Lemma startProxy_active env input w existing :
  sessions w !! StartProxyInput.sessionId input = Some existing ->
  isActive (ProxySession.status existing) = true ->
  startProxy config env input w
  = (Throw (MitmError PROXY_ALREADY_RUNNING
              ("Proxy already running for session: " +:+ StartProxyInput.sessionId input)
              [("sessionId", JStr (StartProxyInput.sessionId input));
               ("status", JStr (statusName (ProxySession.status existing)))]),
     w).
Proof.
  intros H Hs. unfold startProxy, startSetup, bind, getSession, gets. rewrite H, Hs.
  reflexivity.
Qed.

(** X15. When the child exits with a code within the 100 ms that [spawn]
    waits, [spawn] neither resolves nor rejects, and [startProxy] never
    settles: the session stays in the map in status [starting], with
    [starting] published, and every later [startProxy] for it throws
    [PROXY_ALREADY_RUNNING]. *)
Theorem start_hangs_on_early_exit env input w state port pid code signal :
  let sessionId := StartProxyInput.sessionId input in
  let jsonlPath := path_join (getMitmDir config sessionId) "traffic.jsonl" in
  match sessions w !! sessionId with
  | Some existing => isActive (ProxySession.status existing) = false
  | None => True
  end ->
  fault (system w) OpRead (getStatePath config sessionId) = None ->
  fault (system w) OpWrite (getStatePath config sessionId) = None ->
  fault (system w) OpMkdir (getMitmDir config sessionId) = None ->
  healthy (system w) jsonlPath ->
  docs w !! sessionId = Some (Doc state) ->
  obj_get "status" state = Some (JStr "active") ->
  resolvePort config env (StartProxyInput.port input) = Some port -> port <> 0 ->
  Env.sessionLogError env = None ->
  Env.spawned env = SpawnExited pid (Some code) signal ->
  exists w',
    startProxy config env input w = (Pending, w')
    /\ statusOf sessionId w' = Some starting
    /\ published sessionId "status" w' = Some (JStr "starting")
    /\ (pid ∉ alive w')
    /\ processes w' !! pid = None
    /\ forall env',
         exists message details,
           startProxy config env' input w'
           = (Throw (MitmError PROXY_ALREADY_RUNNING message details), w').
Proof.
  intros sessionId jsonlPath Hex Hr Hw Hmk Hh Hd Hactive Hport Hp Hlog Hsp.
  destruct (startSetup_run env input w state port Hex Hr Hw Hmk Hd Hactive Hport Hp Hlog)
    as (w1 & Hsetup & Hs1 & Hd1 & Hf1 & Hfiles1 & Ht1 & Hp1 & Ha1 & Hl1 & _).
  fold sessionId in Hsetup, Hs1, Hd1, Hl1.
  set (listenHost := default "0.0.0.0" (Js.truthy (StartProxyInput.listenHost input))) in *.
  set (c := {| Started.port := port; Started.listenHost := listenHost;
               Started.jsonlPath := jsonlPath;
               Started.logPath := path_join (getMitmDir config sessionId) "mitmdump.log";
               Started.session := newSession config sessionId port listenHost |}) in *.
  assert (Hh1 : healthy (system w1) (Started.jsonlPath c))
    by (intros op; rewrite Hf1; apply Hh).
  assert (Hsession : sessions w1 !! sessionId = Some (newSession config sessionId port listenHost))
    by (rewrite Hs1; apply lookup_insert_eq).
  assert (Hattempt : exists w2,
             startAttempt config env sessionId c w1 = (Pending, w2)
             /\ sessions w2 = sessions w1 /\ docs w2 = docs w1
             /\ alive w2 = (alive w1 ∖ {[pid]})
             /\ processes w2 = delete pid (<[pid := sessionId]> (processes w1))).
  { unfold startAttempt.
    rewrite (bind_Ok _ _ _ _ _ (newTrafficStore_run _ _ Hh1)).
    unfold bind at 1. unfold modify at 1.
    unfold bind at 1. unfold log at 1, inSystem, zoom, logger, modify at 1.
    cbn [system set_system set_trafficStores].
    unfold spawn. rewrite Hsp.
    unfold bind at 1. unfold bind at 1. unfold modify at 1.
    unfold childExit, get. unfold bind at 1. unfold bind at 1. unfold bind at 1.
    unfold modify at 1. unfold bind at 1. unfold modify at 1.
    cbn [processes set_processes set_system set_trafficStores set_alive].
    rewrite lookup_insert_eq.
    unfold handleProcessExit, getSession, gets.
    unfold bind at 1. unfold log at 1, inSystem, zoom, logger, modify at 1.
    unfold bind at 1.
    cbn [sessions set_processes set_system set_trafficStores set_alive].
    rewrite Hsession. cbn [newSession ProxySession.status]. unfold ret.
    eexists. split; [reflexivity|]. simpl. repeat split; reflexivity. }
  destruct Hattempt as (w2 & Hattempt & Hs2 & Hd2 & Ha2 & Hp2).
  exists w2.
  assert (Hlookup : sessions w2 !! sessionId = Some (newSession config sessionId port listenHost))
    by (now rewrite Hs2).
  split.
  { unfold startProxy. fold sessionId. rewrite (bind_Ok _ _ _ _ _ Hsetup).
    exact (tryCatch_Pending _ _ _ _ Hattempt). }
  split; [unfold statusOf; now rewrite Hlookup|].
  split.
  { apply (published_written sessionId state
             [("status", JStr "starting"); ("proxyPort", JNum port);
              ("proxyHost", JStr listenHost)] w2 "status" (JStr "starting"));
      [rewrite Hd2, Hd1; apply lookup_insert_eq
      |apply (bool_decide_unpack (NoDup _)); vm_compute; exact I
      |reflexivity|discriminate]. }
  split; [rewrite Ha2; set_solver|].
  split; [rewrite Hp2; apply lookup_delete_eq|].
  intros env'. eexists _, _. now apply (startProxy_active env' input w2 _ Hlookup).
Qed.

(** X16. A port given by the caller is taken as it is: which ports would
    bind is not examined, so the outcome of [startProxy] is the same
    whatever the answer would have been. *)
Theorem explicit_port_not_probed env available input w port :
  StartProxyInput.port input = Some port -> port <> 0 ->
  startProxy config (withAvailability available env) input w
  = startProxy config env input w.
Proof.
  intros Hport Hp. unfold startProxy, startSetup, resolvePort. rewrite Hport.
  destruct (Z.eqb_spec port 0) as [|_]; [contradiction|]. reflexivity.
Qed.

#[local] Hint Resolve nullRead_plain : core.
#[local] Hint Resolve log_noThrow : outcomes.
#[local] Hint Extern 1 (throwsOnly _ (updateMitm _ _ _)) =>
  apply updateMitm_raises; [simpl; tauto|cbv beta; auto] : outcomes.
#[local] Hint Extern 1 (throwsOnly _ (read _ _)) =>
  apply read_raises; simpl; tauto : outcomes.
#[local] Hint Extern 1 (throwsOnly _ (property _ _)) =>
  apply property_raises; cbv beta; auto : outcomes.
#[local] Hint Extern 1 (throwsOnly _ (throw (MitmError _ _ _))) =>
  apply throw_raises; simpl; tauto : outcomes.
#[local] Hint Resolve ensureMitmDir_raises registerSessionLog_noThrow : outcomes.

Lemma hasCode_code codes e c : hasCode codes e -> exn_code e = Some c -> In c codes.
Proof. intros (c' & Hc & Hin) H. congruence. Qed.

Lemma plain_code e : plain e -> exn_code e = None.
Proof. now intros [[err ->]|[k ->]]. Qed.

(** The ways [startProxy] throws. *)
Lemma startProxy_Throw_inv env input w e w' :
  Env.sessionLogError env = None ->
  startProxy config env input w = (Throw e, w') ->
  (w' = w
   /\ exn_code e = Some PROXY_ALREADY_RUNNING
   /\ exists existing,
        sessions w !! StartProxyInput.sessionId input = Some existing
        /\ isActive (ProxySession.status existing) = true)
  \/ hasCode [SESSION_NOT_FOUND; STATE_READ_FAILED; SESSION_INVALID_STATE; PORT_UNAVAILABLE;
              STATE_WRITE_FAILED; MITMDUMP_START_FAILED] e
  \/ plain e.
Proof.
  intros Hlog H. unfold startProxy in H.
  apply bind_Throw_inv in H as [H|(c & w1 & Hsetup & H)].
  - unfold startSetup in H.
    apply bind_Throw_inv in H as [H|(existing & wa & Hget & H)]; [discriminate|].
    injection Hget as <- <-.
    apply bind_Throw_inv in H as [H|([] & wb & Hchk & H)].
    + destruct (sessions w !! StartProxyInput.sessionId input) as [existing|]; [|discriminate].
      unfold when in H. destruct (isActive (ProxySession.status existing)) eqn:Hact;
        [|discriminate].
      injection H as <- <-. left. split; [reflexivity|]. split; [reflexivity|].
      now exists existing.
    + match type of H with
      | ?m _ = _ =>
          assert (Hm : throwsOnly
                         (fun e => hasCode [SESSION_NOT_FOUND; STATE_READ_FAILED;
                                            SESSION_INVALID_STATE; PORT_UNAVAILABLE;
                                            STATE_WRITE_FAILED] e \/ plain e) m)
            by throws
      end.
      destruct (Hm _ _ _ H) as [Hc|Hfs]; [|now right; right].
      right; left. revert Hc. apply hasCode_incl. simpl. tauto.
  - destruct (started_throws config env _ c _ _ _ H) as [Hc|Hn]; [|right; right; now right].
    right; left. revert Hc. apply hasCode_incl. simpl. tauto.
Qed.

(** X17. With the logger of [utils/logger.ts], [startProxy] rejects only
    with a [MitmError] of one of seven codes, or with what is no
    [MitmError]: the error of the file system that made the session
    directory fail, as it is, or the [TypeError] of reading a property
    of a session document that is [null]; it never uses the other codes
    of [ErrorCode]. [PROXY_ALREADY_RUNNING] is thrown only for a session
    the manager holds in status [starting] or [ready], and then nothing
    has changed. *)
Theorem startProxy_error_codes env input w e w' :
  Env.sessionLogError env = None ->
  startProxy config env input w = (Throw e, w') ->
  (hasCode startCodes e \/ fsError e \/ nullRead e)
  /\ (exn_code e = Some PROXY_ALREADY_RUNNING ->
      w' = w
      /\ exists existing,
           sessions w !! StartProxyInput.sessionId input = Some existing
           /\ isActive (ProxySession.status existing) = true).
Proof.
  intros Hlog H.
  destruct (startProxy_Throw_inv env input w e w' Hlog H) as [(-> & Hc & Hex)|[Hc|Hfs]].
  - split; [|now intros _]. left. exists PROXY_ALREADY_RUNNING. split; [exact Hc|now left].
  - split; [left; revert Hc; apply hasCode_incl; unfold startCodes; simpl; tauto|].
    intros Hpar. apply (hasCode_code _ _ _ Hc) in Hpar. simpl in Hpar.
    repeat (destruct Hpar as [Hpar|Hpar]; [discriminate|]). destruct Hpar.
  - split; [now right|]. intros Hpar. now rewrite (plain_code _ Hfs) in Hpar.
Qed.

End StartMore.

(** ** [ProxyManager.stopProxy] *)

Section StopMore.
Context (config : Config.t).

(** [stopProxy] when its state update goes through. *)
Lemma stopProxy_run env sessionId w s current :
  sessions w !! sessionId = Some s ->
  docs w !! sessionId = Some (Doc current) ->
  fault (system w) OpRead (getStatePath config sessionId) = None ->
  fault (system w) OpWrite (getStatePath config sessionId) = None ->
  exists w',
    stopProxy config env sessionId w = (Ok tt, w')
    /\ sessions w' !! sessionId = None
    /\ trafficStores w' !! sessionId = None
    /\ (sessionId ∉ sessionLogs w')
    /\ (forall pid,
          ProxySession.pid s = Some pid -> pid <> 0 -> is_Some (processes w !! pid) ->
          pid ∉ alive w')
    /\ docs w' !! sessionId
       = Some (Doc (json_props
                      (mergeMitm current [("status", JStr "stopped"); ("pid", JUndefined)]))).
Proof.
  intros Hs Hd Hr Hw.
  destruct (stopTeardown_done env sessionId s w Hs) as (w1 & Et & Hs1 & Ht1 & Hp1 & Hl1).
  destruct (stopTeardown_sameDocuments env sessionId s _ _ _ Et) as [Hd1 Hf1].
  pose proof (updateMitm_written config sessionId
                [("status", JStr "stopped"); ("pid", JUndefined)] w1 current
                ltac:(now rewrite Hf1) ltac:(now rewrite Hf1) ltac:(now rewrite Hd1)) as Hu.
  eexists. split.
  { unfold stopProxy, getSession. unfold bind at 1. unfold gets. rewrite Hs.
    rewrite (bind_Ok _ _ _ _ _ Et), (bind_Ok _ _ _ _ _ Hu). reflexivity. }
  simpl. split; [apply lookup_delete_eq|]. split; [exact Ht1|].
  split; [set_solver|]. split; [exact Hp1|]. apply lookup_insert_eq.
Qed.


(** What is left when [stopProxy] has fulfilled. *)
Lemma stopProxy_Ok_inv env sessionId w u w' :
  stopProxy config env sessionId w = (Ok u, w') ->
  sessions w' !! sessionId = None
  /\ trafficStores w' !! sessionId = None
  /\ (sessionId ∉ sessionLogs w').
Proof.
  intros H. unfold stopProxy in H.
  apply bind_Ok_inv in H as (session & wa & Hget & H).
  unfold getSession, gets in Hget. injection Hget as <- <-.
  destruct (sessions w !! sessionId) as [s|] eqn:Hs; [|discriminate].
  apply bind_Ok_inv in H as ([] & w1 & Et & H).
  apply bind_Ok_inv in H as (d & w2 & Hu & H).
  apply bind_Ok_inv in H as ([] & w3 & Hun & H).
  apply bind_Ok_inv in H as ([] & w4 & Hdel & H).
  injection Hun as <-. injection Hdel as <-. injection H as <- <-.
  apply updateMitm_Ok in Hu as (current & _ & _ & ->).
  destruct (stopTeardown_done env sessionId s w Hs) as (w1' & Et' & _ & Ht1 & _).
  rewrite Et in Et'. injection Et' as <-.
  simpl. split; [apply lookup_delete_eq|]. split; [exact Ht1|set_solver].
Qed.

(** X19. A proxy is stopped once: after a [stopProxy] that fulfilled, a
    second [stopProxy] for the session throws [PROXY_NOT_RUNNING] and the
    status tool answers with that error; neither changes anything. *)
Theorem stopProxy_twice JSON_parse env sessionId w w' :
  stopProxy config env sessionId w = (Ok tt, w') ->
  forall env',
    let e := MitmError PROXY_NOT_RUNNING
               ("No proxy running for session: " +:+ sessionId)
               [("sessionId", JStr sessionId)] in
    stopProxy config env' sessionId w' = (Throw e, w')
    /\ statusTool JSON_parse env' sessionId w' = (Ok (failure e), w').
Proof.
  intros H env' e. apply stopProxy_Ok_inv in H as (Hs & _).
  split.
  - unfold stopProxy, getSession, gets, bind. now rewrite Hs.
  - unfold statusTool, tryCatch, getSession, gets, bind. now rewrite Hs.
Qed.

(** X20. Stopping a [ready] proxy whose process is running and exits on
    SIGTERM runs the exit handler while the session is still [ready]:
    the exit is taken for a crash, and a state update to status [error]
    with the exit message is started without being awaited, before
    [stopProxy] marks the session [stopped] and writes its own update.
    Whatever the outcome of [stopProxy], that update has been started. *)
Theorem stop_runs_crash_handler env sessionId w s pid code signal :
  sessions w !! sessionId = Some s ->
  ProxySession.status s = ready ->
  ProxySession.pid s = Some pid -> pid <> 0 ->
  pid ∈ alive w ->
  processes w !! pid = Some sessionId ->
  Env.exitOnSigterm env = Some (code, signal) ->
  exists r w',
    stopProxy config env sessionId w = (r, w')
    /\ detached w'
       = detached w
         ++ [(sessionId,
              [("status", JStr "error"); ("error", JStr (exitMessage code signal))])]
    /\ (pid ∉ alive w')
    /\ (statusOf sessionId w' = Some stopped \/ statusOf sessionId w' = None).
Proof.
  intros Hs Hready Hpid Hp Halive Htracked Hexit.
  assert (Et : exists w1,
             stopTeardown env sessionId s w = (Ok tt, w1)
             /\ detached w1
                = detached w
                  ++ [(sessionId,
                       [("status", JStr "error");
                        ("error", JStr (exitMessage code signal))])]
             /\ (pid ∉ alive w1)
             /\ statusOf sessionId w1 = Some stopped).
  { unfold stopTeardown.
    unfold bind at 1. unfold log at 1, inSystem, zoom, logger, modify at 1.
    unfold killIfRunning. rewrite Hpid.
    destruct (Z.eqb_spec pid 0) as [|_]; [contradiction|].
    unfold isRunning, gets. unfold bind at 1. unfold bind at 1.
    cbn [alive set_system]. rewrite (bool_decide_eq_true_2 _ Halive).
    unfold when, kill, get. unfold bind at 1.
    cbn [processes set_system]. rewrite Htracked, Hexit.
    unfold childExit, get. unfold bind at 1. unfold bind at 1. unfold modify at 1.
    unfold bind at 1. unfold modify at 1.
    cbn [processes set_system set_alive]. rewrite Htracked.
    unfold handleProcessExit, getSession, gets.
    unfold bind at 1. unfold log at 1, inSystem, zoom, logger, modify at 1.
    unfold bind at 1.
    cbn [sessions set_system set_alive set_processes]. rewrite Hs, Hready.
    unfold setSession.
    unfold bind at 1. unfold modify at 1. unfold modify at 1.
    unfold onStore. unfold bind at 1.
    cbn [trafficStores set_detached set_sessions set_system set_alive set_processes].
    destruct (trafficStores w !! sessionId) as [store|];
      (eexists; split; [reflexivity|]); simpl;
      (split; [reflexivity|]); (split; [set_solver|]);
      unfold statusOf; simpl; rewrite !lookup_alter_eq, Hs; reflexivity. }
  destruct Et as (w1 & Et & Hdet & Hdead & Hstatus).
  destruct (updateMitm config sessionId [("status", JStr "stopped"); ("pid", JUndefined)] w1)
    as [[d|e|] w2] eqn:Hu.
  - apply updateMitm_Ok in Hu as Hform. destruct Hform as (current & _ & _ & Hw2).
    eexists _, _. split.
    { unfold stopProxy, getSession. unfold bind at 1. unfold gets. rewrite Hs.
      rewrite (bind_Ok _ _ _ _ _ Et), (bind_Ok _ _ _ _ _ Hu). reflexivity. }
    rewrite Hw2. simpl. split; [exact Hdet|]. split; [exact Hdead|].
    right. unfold statusOf. simpl. now rewrite lookup_delete_eq.
  - destruct (updateMitm_Throw _ _ _ _ _ _ Hu) as (-> & _).
    eexists _, _. split.
    { unfold stopProxy, getSession. unfold bind at 1. unfold gets. rewrite Hs.
      rewrite (bind_Ok _ _ _ _ _ Et). apply (bind_Throw _ _ _ _ _ Hu). }
    auto.
  - exfalso.
    apply (settles_updateMitm config sessionId
             [("status", JStr "stopped"); ("pid", JUndefined)] w1).
    now rewrite Hu.
Qed.

End StopMore.

(** ** [ProxyManager.cleanup] and the signal handler *)

Lemma releases_refl : Reflexive releases.
Proof. intros w. split; [reflexivity|]. split; [reflexivity|]. split; auto. Qed.

(** What holds of a world whose logs, stores and processes evolve by
    releasing. *)
Ltac releasing :=
  unfold releases, trackedOrDead; simpl;
  split; [set_solver|]; split; [set_solver|]; split.

Lemma releases_trans : Transitive releases.
Proof.
  intros a b c (H1 & H2 & H3 & H4) (H5 & H6 & H7 & H8).
  split; [set_solver|]. split; [set_solver|]. split; auto.
Qed.

Lemma stopStep_refl sessionId : Reflexive (stopStep sessionId).
Proof. intros w. split; [apply releases_refl|]. intros x s _ H. now exists s. Qed.

Lemma stopStep_trans sessionId : Transitive (stopStep sessionId).
Proof.
  intros a b c [H1 H2] [H3 H4]. split; [now apply (releases_trans a b c)|].
  intros x s Hx Hs. destruct (H2 x s Hx Hs) as (s1 & Hs1 & Hp1).
  destruct (H4 x s1 Hx Hs1) as (s2 & Hs2 & Hp2). exists s2. split; [exact Hs2|congruence].
Qed.

#[local] Existing Instances releases_refl releases_trans stopStep_refl stopStep_trans.

(** A step that leaves the logs, the stores and the processes as they
    are, and changes of a session at most its status. *)
Lemma stopStep_quiet sessionId w w' :
  sessionLogs w' = sessionLogs w -> alive w' = alive w ->
  trafficStores w' = trafficStores w -> processes w' = processes w ->
  (forall x s, sessions w !! x = Some s ->
     exists s', sessions w' !! x = Some s' /\ ProxySession.pid s' = ProxySession.pid s) ->
  stopStep sessionId w w'.
Proof.
  intros Hl Ha Ht Hp Hs. split; [|intros x s _; apply Hs].
  unfold releases, trackedOrDead. rewrite Hl, Ha, Ht, Hp.
  split; [reflexivity|]. split; [reflexivity|]. split; auto.
Qed.

Lemma alter_status_pid st x y (m : gmap string ProxySession.t) s :
  m !! x = Some s ->
  exists s', alter (ProxySession.set_status st) y m !! x = Some s'
             /\ ProxySession.pid s' = ProxySession.pid s.
Proof.
  intros H. rewrite lookup_alter. case_decide; [subst; rewrite H|rewrite H]; now eexists.
Qed.

Section CleanupFrames.
Context (config : Config.t).

Lemma log_stopStep sessionId lvl msg : respects (stopStep sessionId) (log lvl msg).
Proof.
  intros w r w' [= <- <-]. apply stopStep_quiet; try reflexivity. intros x s H. now exists s.
Qed.

Lemma handleProcessExit_stopStep sessionId sid' code signal :
  respects (stopStep sessionId) (handleProcessExit sid' code signal).
Proof.
  intros w r w' E.
  unfold handleProcessExit, bind, log, inSystem, zoom, logger, modify, getSession, gets,
    setSession, ret in E. simpl in E.
  destruct (sessions w !! sid') as [s0|]; [destruct (ProxySession.status s0)|];
    injection E as <- <-; apply stopStep_quiet; try reflexivity;
    intros x s H; simpl; try (now exists s). now apply alter_status_pid.
Qed.

Lemma childExit_stopStep sessionId pid code signal :
  respects (stopStep sessionId) (childExit pid code signal).
Proof.
  intros w r w' E. unfold childExit, get in E. unfold bind at 1 2 3 in E.
  unfold modify at 1 2 in E.
  set (w0 := set_processes (delete pid) (set_alive (fun a => a ∖ {[pid]}) w)) in E.
  assert (H0 : stopStep sessionId w w0).
  { split; [|intros x s _ H; now exists s].
    unfold w0. releasing; [auto|].
    intros q [Hq|Hq].
    - destruct (decide (q = pid)) as [->|Hne]; [right; set_solver|].
      left. now rewrite lookup_delete_ne.
    - right. set_solver. }
  transitivity w0; [exact H0|].
  destruct (processes w !! pid) as [sid'|].
  - exact (handleProcessExit_stopStep sessionId sid' code signal _ _ _ E).
  - injection E as <- <-. reflexivity.
Qed.

Lemma kill_stopStep sessionId env pid : respects (stopStep sessionId) (kill env pid).
Proof.
  intros w r w' E. unfold kill, get in E. unfold bind at 1 in E.
  destruct (processes w !! pid) as [sid'|] eqn:Hp.
  - destruct (Env.exitOnSigterm env) as [[code signal]|].
    + exact (childExit_stopStep sessionId pid code signal _ _ _ E).
    + injection E as <- <-. split; [|intros x s _ H; now exists s].
      releasing; [auto|].
      intros q [Hq|Hq]; [|right; set_solver].
      destruct (decide (q = pid)) as [->|Hne]; [right; set_solver|now left].
  - exact (log_stopStep sessionId _ _ _ _ _ E).
Qed.

Lemma killIfRunning_stopStep sessionId env pid :
  respects (stopStep sessionId) (killIfRunning env pid).
Proof.
  intros w r w' E. unfold killIfRunning in E. destruct pid as [pid|].
  - unfold bind in E.
    destruct (if pid =? 0 then ret false else isRunning pid) eqn:Hrun.
    assert (Hw : w0 = w) by (destruct (pid =? 0); now injection Hrun as <- <-). subst w0.
    destruct o as [[]| |]; try (injection E as <- <-; reflexivity).
    exact (kill_stopStep sessionId env pid _ _ _ E).
  - injection E as <- <-. reflexivity.
Qed.

Lemma onStore_close_stopStep sessionId sid' :
  respects (stopStep sessionId) (onStore sid' close).
Proof.
  intros w r w' E. unfold onStore in E.
  destruct (trafficStores w !! sid') as [store|] eqn:Hst.
  - unfold close, bind, set_this, modify, sys, zoom, logger in E. simpl in E.
    injection E as <- <-. split; [|intros x s _ H; now exists s].
    releasing; [|auto].
    intros x Hx. rewrite lookup_insert_ne; [exact Hx|congruence].
  - injection E as <- <-. reflexivity.
Qed.

Lemma updateMitm_stopStep sessionId sid' mitm :
  respects (stopStep sessionId) (updateMitm config sid' mitm).
Proof.
  intros w r w' E. destruct r as [d|e|].
  - apply updateMitm_Ok in E as (current & _ & _ & ->).
    apply stopStep_quiet; try reflexivity. intros x s H. now exists s.
  - destruct (updateMitm_Throw _ _ _ _ _ _ E) as (-> & _). reflexivity.
  - exfalso. apply (settles_updateMitm config sid' mitm w). now rewrite E.
Qed.

Lemma setSession_stopStep sessionId f :
  respects (stopStep sessionId) (setSession sessionId f).
Proof.
  intros w r w' [= <- <-]. split.
  - releasing; auto.
  - intros x s Hx H. exists s. simpl. rewrite lookup_alter_ne by congruence. auto.
Qed.

Lemma stopTeardown_stopStep sessionId env s :
  respects (stopStep sessionId) (stopTeardown env sessionId s).
Proof.
  unfold stopTeardown.
  repeat first [apply log_stopStep|apply killIfRunning_stopStep|apply onStore_close_stopStep
               |apply setSession_stopStep|apply respects_bind; [exact _| |intros ?]].
  intros w r w' [= <- <-]. split.
  - releasing; [|auto].
    intros x Hx. destruct (decide (x = sessionId)) as [->|Hne];
      [apply lookup_delete_eq|now rewrite lookup_delete_ne].
  - intros x s0 _ H. now exists s0.
Qed.

Lemma unregisterSessionLog_stopStep sessionId :
  respects (stopStep sessionId) (unregisterSessionLog sessionId).
Proof.
  intros w r w' [= <- <-]. split; [|intros x s _ H; now exists s].
  releasing; auto.
Qed.

Lemma stopProxy_stopStep env sessionId :
  respects (stopStep sessionId) (stopProxy config env sessionId).
Proof.
  unfold stopProxy, getSession.
  apply respects_bind; [exact _|apply respects_gets; exact _|intros [s|]];
    [|apply respects_throw; exact _].
  repeat first [apply stopTeardown_stopStep|apply updateMitm_stopStep
               |apply unregisterSessionLog_stopStep|apply log_stopStep
               |apply respects_bind; [exact _| |intros ?]].
  intros w r w' [= <- <-]. split.
  - releasing; auto.
  - intros x s0 Hx H. exists s0. simpl. rewrite lookup_delete_ne by congruence. auto.
Qed.

(** A computation that settles and never throws fulfils. *)
Lemma fulfils {S A} (m : M S A) s :
  settles m -> throwsOnly (fun _ => False) m -> exists a s', m s = (Ok a, s').
Proof.
  intros Hs Ht. specialize (Hs s). destruct (m s) as [[a|e|] s'] eqn:E.
  - now exists a, s'.
  - destruct (Ht _ _ _ E).
  - contradiction.
Qed.

(** [kill] ends a process that is tracked. *)
Lemma kill_dead env pid w :
  trackedOrDead pid w ->
  exists w', kill env pid w = (Ok tt, w') /\ stopStep EmptyString w w' /\ (pid ∉ alive w').
Proof.
  intros Ht.
  destruct (fulfils (kill env pid) w (settles_kill env pid) (kill_noThrow _ env pid))
    as ([] & w' & E).
  pose proof (kill_stopStep EmptyString env pid _ _ _ E) as Hstep.
  exists w'. split; [exact E|]. split; [exact Hstep|].
  destruct Ht as [[sid' Hp]|Hdead]; [|destruct Hstep as [(_ & Ha & _) _]; set_solver].
  unfold kill, get in E. unfold bind at 1 in E. rewrite Hp in E.
  destruct (Env.exitOnSigterm env) as [[code signal]|].
  - unfold childExit, get in E. unfold bind at 1 2 3 in E. unfold modify at 1 2 in E.
    rewrite Hp in E.
    apply handleProcessExit_stopStep with (sessionId := EmptyString) in E.
    destruct E as [(_ & Ha & _) _]. simpl in Ha. set_solver.
  - injection E as <-. simpl. set_solver.
Qed.

Lemma kill_all calls : forall w,
  exists w',
    forEach calls (fun call : Env.t * Z => kill (fst call) (snd call)) w = (Ok tt, w')
    /\ releases w w'
    /\ forall call, In call calls -> trackedOrDead (snd call) w -> snd call ∉ alive w'.
Proof.
  induction calls as [|[env pid] calls IH]; intros w.
  - exists w. split; [reflexivity|]. split; [reflexivity|]. intros call [].
  - destruct (fulfils (kill env pid) w (settles_kill env pid) (kill_noThrow _ env pid))
      as ([] & w1 & E).
    destruct (kill_stopStep EmptyString env pid _ _ _ E) as [Hrel _].
    destruct (IH w1) as (w' & Erest & Hrel' & Hpost).
    exists w'. split; [cbn [forEach fst snd]; now rewrite (bind_Ok _ _ _ _ _ E)|].
    split; [now transitivity w1|].
    intros call [<-|Hin] Ht.
    + destruct (kill_dead env pid w Ht) as (w1' & E' & _ & Hdead).
      rewrite E in E'. injection E' as <-.
      destruct Hrel' as (_ & Ha & _). cbn [snd]. set_solver.
    + apply (Hpost call Hin). now apply Hrel.
Qed.

(** X22. The handler the supervisor installs for SIGTERM and SIGINT, run
    to its end, fulfils and ends every child of its table: no process it
    tracked is alive afterwards, and it starts none. *)
Theorem signalCleanup_ends_children calls w :
  exists w',
    signalCleanup calls w = (Ok tt, w')
    /\ alive w' ⊆ alive w
    /\ forall env pid,
         In (env, pid) calls -> is_Some (processes w !! pid) -> pid ∉ alive w'.
Proof.
  unfold signalCleanup. unfold bind. unfold log, inSystem, zoom, logger, modify. simpl.
  set (w0 := set_system _ w).
  destruct (kill_all calls w0) as (w' & E & (_ & Ha & _) & Hpost).
  exists w'. split; [exact E|]. split; [exact Ha|].
  intros env pid Hin Ht. apply (Hpost _ Hin). now left.
Qed.

(** One turn of the loop of [cleanup]. *)
Lemma cleanup_call env sessionId w s :
  sessions w !! sessionId = Some s ->
  exists w1,
    tryCatch (stopProxy config env sessionId)
      (fun _ => log error "Error during cleanup";; unregisterSessionLog sessionId) w
    = (Ok tt, w1)
    /\ stopStep sessionId w w1
    /\ (sessionId ∉ sessionLogs w1)
    /\ trafficStores w1 !! sessionId = None
    /\ (forall pid,
          ProxySession.pid s = Some pid -> pid <> 0 -> trackedOrDead pid w ->
          pid ∉ alive w1).
Proof.
  intros Hs.
  destruct (stopTeardown_done env sessionId s w Hs) as (wt & Et & _ & Ht & Hp & _).
  destruct (stopTeardown_stopStep sessionId env s _ _ _ Et) as [(_ & Hat & _) _].
  assert (Hdead : forall pid,
             ProxySession.pid s = Some pid -> pid <> 0 -> trackedOrDead pid w ->
             pid ∉ alive wt).
  { intros pid Hpid Hne [Htr|Hd]; [now apply Hp|set_solver]. }
  assert (Hstep : forall r w1,
             tryCatch (stopProxy config env sessionId)
               (fun _ => log error "Error during cleanup";; unregisterSessionLog sessionId) w
             = (r, w1) -> stopStep sessionId w w1).
  { apply respects_tryCatch; [exact _|apply stopProxy_stopStep|intros e].
    apply respects_bind; [exact _|apply log_stopStep|intros ?].
    apply unregisterSessionLog_stopStep. }
  destruct (updateMitm config sessionId [("status", JStr "stopped"); ("pid", JUndefined)] wt)
    as [[d|e|] w2] eqn:Hu.
  - apply updateMitm_Ok in Hu as Hform. destruct Hform as (current & _ & _ & Hw2).
    assert (E : stopProxy config env sessionId w
                = (Ok tt,
                   logged (info, "Proxy stopped")
                     (set_sessions (delete sessionId)
                        (set_sessionLogs (fun l => l ∖ {[sessionId]}) w2)))).
    { unfold stopProxy, getSession. unfold bind at 1. unfold gets. rewrite Hs.
      rewrite (bind_Ok _ _ _ _ _ Et), (bind_Ok _ _ _ _ _ Hu). reflexivity. }
    eexists. split; [apply (tryCatch_Ok _ _ _ _ _ E)|].
    split; [apply (Hstep (Ok tt)), (tryCatch_Ok _ _ _ _ _ E)|].
    rewrite Hw2. simpl. split; [set_solver|]. split; [exact Ht|exact Hdead].
  - destruct (updateMitm_Throw _ _ _ _ _ _ Hu) as (-> & _).
    assert (E : stopProxy config env sessionId w = (Throw e, wt)).
    { unfold stopProxy, getSession. unfold bind at 1. unfold gets. rewrite Hs.
      rewrite (bind_Ok _ _ _ _ _ Et). apply (bind_Throw _ _ _ _ _ Hu). }
    assert (E' : tryCatch (stopProxy config env sessionId)
                   (fun _ => log error "Error during cleanup";;
                             unregisterSessionLog sessionId) w
                 = (Ok tt,
                    set_sessionLogs (fun l => l ∖ {[sessionId]})
                      (logged (error, "Error during cleanup") wt)))
      by (rewrite (tryCatch_Throw _ _ _ _ _ E); reflexivity).
    eexists. split; [exact E'|]. split; [exact (Hstep _ _ E')|].
    simpl. split; [set_solver|]. split; [exact Ht|exact Hdead].
  - exfalso.
    apply (settles_updateMitm config sessionId
             [("status", JStr "stopped"); ("pid", JUndefined)] wt).
    now rewrite Hu.
Qed.

Lemma cleanup_loop calls : forall w,
  NoDup (map snd calls) ->
  (forall call, In call calls -> is_Some (sessions w !! snd call)) ->
  exists w',
    cleanup config calls w = (Ok tt, w')
    /\ releases w w'
    /\ forall call, In call calls ->
         (snd call ∉ sessionLogs w')
         /\ trafficStores w' !! snd call = None
         /\ forall s pid,
              sessions w !! snd call = Some s ->
              ProxySession.pid s = Some pid -> pid <> 0 -> trackedOrDead pid w ->
              pid ∉ alive w'.
Proof.
  induction calls as [|[env sid0] calls IH]; intros w Hnd Hin.
  - exists w. split; [reflexivity|]. split; [reflexivity|]. intros call [].
  - cbn [map snd] in Hnd. apply NoDup_cons in Hnd as [Hfresh Hnd].
    destruct (Hin (env, sid0) (or_introl eq_refl)) as [s0 Hs0]. cbn [snd] in Hs0.
    destruct (cleanup_call env sid0 w s0 Hs0) as (w1 & E & [Hrel Hothers] & Hl & Ht & Hp).
    assert (Hne : forall call, In call calls -> snd call <> sid0).
    { intros call Hc Heq. apply Hfresh. rewrite <- Heq. apply list_elem_of_In. now apply in_map. }
    destruct (IH w1 Hnd) as (w' & Erest & Hrel' & Hpost).
    { intros call Hc. destruct (Hin call (or_intror Hc)) as [s Hs].
      destruct (Hothers _ s (Hne call Hc) Hs) as (s' & Hs' & _). now exists s'. }
    exists w'. split.
    { unfold cleanup. cbn [forEach fst snd]. now rewrite (bind_Ok _ _ _ _ _ E). }
    split; [now transitivity w1|].
    destruct Hrel' as (Hl' & Ha' & Ht' & Htr').
    intros call [<-|Hc].
    + cbn [snd]. split; [set_solver|]. split; [now apply Ht'|].
      intros s pid Hs Hpid Hpne Htr. rewrite Hs0 in Hs. injection Hs as <-.
      specialize (Hp pid Hpid Hpne Htr). set_solver.
    + destruct (Hpost call Hc) as (Hlc & Htc & Hpc).
      split; [exact Hlc|]. split; [exact Htc|].
      intros s pid Hs Hpid Hpne Htr.
      destruct (Hothers _ s (Hne call Hc) Hs) as (s' & Hs' & Hpid').
      apply (Hpc s' pid Hs'); [congruence|exact Hpne|].
      destruct Hrel as (_ & _ & _ & Htr1). now apply Htr1.
Qed.

(** X21. [cleanup] over the sessions of the map fulfils even where a stop
    fails, and releases what each session held: afterwards no session of
    the map has its log registered or a store, and the capture process
    each one tracked is not alive; no process is started. *)
Theorem cleanup_releases calls w :
  NoDup (map snd calls) ->
  (forall env sessionId, In (env, sessionId) calls -> is_Some (sessions w !! sessionId)) ->
  exists w',
    cleanup config calls w = (Ok tt, w')
    /\ alive w' ⊆ alive w
    /\ forall env sessionId,
         In (env, sessionId) calls ->
         (sessionId ∉ sessionLogs w')
         /\ trafficStores w' !! sessionId = None
         /\ forall s pid,
              sessions w !! sessionId = Some s ->
              ProxySession.pid s = Some pid -> pid <> 0 ->
              is_Some (processes w !! pid) ->
              pid ∉ alive w'.
Proof.
  intros Hnd Hin.
  destruct (cleanup_loop calls w Hnd) as (w' & E & (_ & Ha & _) & Hpost).
  { intros [env sid] Hc. exact (Hin env sid Hc). }
  exists w'. split; [exact E|]. split; [exact Ha|].
  intros env sid Hc. destruct (Hpost _ Hc) as (Hl & Ht & Hp). cbn [snd] in *.
  split; [exact Hl|]. split; [exact Ht|].
  intros s pid Hs Hpid Hne Htr. apply (Hp s pid Hs Hpid Hne). now left.
Qed.

End CleanupFrames.

(** ** The tools *)

Lemma reportedCode_failure e :
  reportedCode (failure e) = Some (codeName (default INTERNAL_ERROR (exn_code e))).
Proof. now destruct e. Qed.

Lemma failure_reports codes e :
  hasCode codes e \/ exn_code e = None -> reports (INTERNAL_ERROR :: codes) (failure e).
Proof.
  intros [(c & Hc & Hin)|Hc].
  - exists c. split; [now right|]. now rewrite reportedCode_failure, Hc.
  - exists INTERNAL_ERROR. split; [now left|]. now rewrite reportedCode_failure, Hc.
Qed.

(** What a handler answers: what its body returns, or the failure made of
    what the body throws. *)
Lemma caught_cases {S} (m : M S ToolResponse.t) s r s' :
  tryCatch m (fun e => ret (failure e)) s = (Ok r, s') ->
  m s = (Ok r, s') \/ exists e, m s = (Throw e, s') /\ r = failure e.
Proof.
  unfold tryCatch. destruct (m s) as [[a|e|] s1]; [|intros [= <- <-]|discriminate].
  - now left.
  - right. now exists e.
Qed.

Lemma caught_never_throws {S A} (m : M S A) (answer : Exn -> A) s e s' :
  tryCatch m (fun e => ret (answer e)) s <> (Throw e, s').
Proof. unfold tryCatch. destruct (m s) as [[a|e1|] s1]; discriminate. Qed.

Lemma fsError_code e : fsError e -> exn_code e = None.
Proof. now intros [err ->]. Qed.

Section ToolFacts.
Context (JSON_parse : string -> option JsonlEntry.t).
Context (config : Config.t).

Lemma reload_throws : throwsOnly fsError (reloadEntries JSON_parse).
Proof.
  intros [t y] e s' H.
  destruct (reload_cases JSON_parse t y) as [E|[[err E]|(content & _ & _ & _ & E)]];
    rewrite E in H; [discriminate| |discriminate].
  injection H as <- _. now exists err.
Qed.

Lemma getStats_throws nowMs : throwsOnly fsError (getStats JSON_parse nowMs).
Proof.
  unfold getStats. apply throwsOnly_bind; [apply reload_throws|intros []].
  apply throwsOnly_bind; [apply throwsOnly_gets|intros store].
  destruct (fold_left _ _ _) as [[? ?] ?]. apply throwsOnly_ret.
Qed.

Lemma getEntry_throws entryId : throwsOnly fsError (getEntry JSON_parse entryId).
Proof.
  unfold getEntry. apply throwsOnly_bind; [apply reload_throws|intros []].
  apply throwsOnly_bind; [apply throwsOnly_gets|intros store].
  destruct (find _ _); apply throwsOnly_ret.
Qed.

#[local] Hint Resolve settles_getStats settles_getEntry settles_onStore settles_stopProxy
  : outcomes.

(** The error of a store method, or a [MitmError] of [codes]. *)
Lemma store_or_code codes {A} sessionId (m : M (TrafficStore.t * Sys) A) :
  throwsOnly fsError m ->
  throwsOnly (fun e => hasCode codes e \/ exn_code e = None) (onStore sessionId m).
Proof.
  intros Hm. apply throwsOnly_onStore. revert Hm. apply throwsOnly_weaken.
  intros e He. right. now apply fsError_code.
Qed.

Lemma throw_or_code codes {S A} c m d :
  In c codes ->
  throwsOnly (fun e => hasCode codes e \/ exn_code e = None) (@throw S A (MitmError c m d)).
Proof. intros Hin s e s' [= <- _]. left. now exists c. Qed.

Ltac answer H :=
  repeat match type of H with
         | bind _ _ _ = (Ok _, _) => apply bind_Ok_inv in H as (? & ? & _ & H)
         | match ?x with _ => _ end _ = (Ok _, _) => destruct x; try discriminate H
         | throw _ _ = _ => discriminate H
         | ret _ _ = (Ok _, _) => injection H as <- _
         end.

(** X23. The handlers of [mitm.status], [mitm.stop] and [mitm.get_entry]
    always answer: they never reject and never stay pending, whatever
    the file system does. The handler of [mitm.start] never rejects (it
    stays pending when [startProxy] does). In every answer, the property
    [ok] is [true] exactly when the answer is not flagged [isError]. *)
Theorem tools_always_answer env sessionId entryId input w :
  (exists r w', statusTool JSON_parse env sessionId w = (Ok r, w') /\ flagged r)
  /\ (exists r w', stopTool JSON_parse config env sessionId w = (Ok r, w') /\ flagged r)
  /\ (exists r w', getEntryTool JSON_parse sessionId entryId w = (Ok r, w') /\ flagged r)
  /\ match startTool config env input w with
     | (Ok r, _) => flagged r
     | (Throw _, _) => False
     | (Pending, _) => True
     end.
Proof.
  split; [|split; [|split]].
  - unfold statusTool.
    match goal with
    | |- exists r w', tryCatch ?m _ w = _ /\ _ =>
        destruct (caught_fulfils m failure w) as (r & w' & E);
          [unfold getSession; settle|]
    end.
    exists r, w'. split; [exact E|].
    apply caught_cases in E as [E|(e & _ & ->)]; [|reflexivity].
    answer E. reflexivity.
  - unfold stopTool.
    match goal with
    | |- exists r w', tryCatch ?m _ w = _ /\ _ =>
        destruct (caught_fulfils m failure w) as (r & w' & E);
          [unfold getSession; settle|]
    end.
    exists r, w'. split; [exact E|].
    apply caught_cases in E as [E|(e & _ & ->)]; [|reflexivity].
    answer E. reflexivity.
  - unfold getEntryTool.
    match goal with
    | |- exists r w', tryCatch ?m _ w = _ /\ _ =>
        destruct (caught_fulfils m failure w) as (r & w' & E); [settle|]
    end.
    exists r, w'. split; [exact E|].
    apply caught_cases in E as [E|(e & _ & ->)]; [|reflexivity].
    answer E. reflexivity.
  - destruct (startTool config env input w) as [[r|e|] w'] eqn:E; [| |exact I].
    + unfold startTool in E. apply caught_cases in E as [E|(e & _ & ->)]; [|reflexivity].
      answer E. reflexivity.
    + exact (caught_never_throws _ _ _ _ _ E).
Qed.

(** X24. The error codes of the tools. An answer flagged as an error
    carries [INTERNAL_ERROR] (for an error that is not a [MitmError],
    such as one of the file system or a [TypeError]) or: for [mitm.status],
    [PROXY_NOT_RUNNING]; for [mitm.get_entry], [PROXY_NOT_RUNNING] or
    [ENTRY_NOT_FOUND]; for [mitm.stop], one of the four codes of
    [stopProxy]; for [mitm.start], one of the seven codes of
    [startProxy]. *)
Theorem tool_error_codes env sessionId entryId input w r w' :
  ToolResponse.isError r = true ->
  (statusTool JSON_parse env sessionId w = (Ok r, w') ->
   reports [INTERNAL_ERROR; PROXY_NOT_RUNNING] r)
  /\ (getEntryTool JSON_parse sessionId entryId w = (Ok r, w') ->
      reports [INTERNAL_ERROR; PROXY_NOT_RUNNING; ENTRY_NOT_FOUND] r)
  /\ (stopTool JSON_parse config env sessionId w = (Ok r, w') ->
      reports (INTERNAL_ERROR :: stopCodes) r)
  /\ (Env.sessionLogError env = None ->
      startTool config env input w = (Ok r, w') ->
      reports (INTERNAL_ERROR :: startCodes) r).
Proof.
  intros Herr. split; [|split; [|split]].
  - unfold statusTool. intros E.
    apply caught_cases in E as [E|(e & E & ->)]; [answer E; discriminate Herr|].
    apply failure_reports. revert E.
    match goal with
    | |- ?m w = _ -> _ =>
        assert (Hm : throwsOnly (fun e => hasCode [PROXY_NOT_RUNNING] e \/ exn_code e = None) m)
    end.
    { apply throwsOnly_bind; [apply throwsOnly_gets|intros [s|]].
      - apply throwsOnly_bind; [|intros ?; apply throwsOnly_ret].
        apply store_or_code, getStats_throws.
      - apply throw_or_code. now left. }
    apply Hm.
  - unfold getEntryTool. intros E.
    apply caught_cases in E as [E|(e & E & ->)]; [answer E; discriminate Herr|].
    apply failure_reports. revert E.
    match goal with
    | |- ?m w = _ -> _ =>
        assert (Hm : throwsOnly
                       (fun e => hasCode [PROXY_NOT_RUNNING; ENTRY_NOT_FOUND] e
                                 \/ exn_code e = None) m)
    end.
    { apply throwsOnly_bind; [apply store_or_code, getEntry_throws|intros [[found|]|]].
      - apply throwsOnly_ret.
      - apply throw_or_code. right. now left.
      - apply throw_or_code. now left. }
    apply Hm.
  - unfold stopTool. intros E.
    apply caught_cases in E as [E|(e & E & ->)]; [answer E; discriminate Herr|].
    apply failure_reports. revert E.
    match goal with
    | |- ?m w = _ -> _ =>
        assert (Hm : throwsOnly (fun e => hasCode stopCodes e \/ exn_code e = None) m)
    end.
    { apply throwsOnly_bind; [apply throwsOnly_gets|intros session].
      apply throwsOnly_bind; [|intros stats].
      - destruct session; [apply store_or_code, getStats_throws|apply throwsOnly_ret].
      - apply throwsOnly_bind; [|intros ?; apply throwsOnly_ret].
        eapply throwsOnly_weaken; [|apply stopProxy_throws].
        intros e0 [He|[k ->]]; [now left|now right]. }
    apply Hm.
  - intros Hlog E. unfold startTool in E.
    apply caught_cases in E as [E|(e & E & ->)]; [answer E; discriminate Herr|].
    apply failure_reports.
    apply bind_Throw_inv in E as [E|(session & w1 & _ & E)]; [|discriminate].
    destruct (startProxy_Throw_inv config env input w e w' Hlog E) as [(_ & Hc & _)|[Hc|Hfs]].
    + left. exists PROXY_ALREADY_RUNNING. split; [exact Hc|now left].
    + left. revert Hc. apply hasCode_incl. unfold startCodes. simpl. tauto.
    + right. now apply plain_code.
Qed.

(** X25. The stop tool reads the statistics of the store before it stops
    the proxy: when the traffic log cannot be examined (an error of the
    file system other than [ENOENT]), the tool answers with that error
    as an [INTERNAL_ERROR] and the proxy is not stopped; nothing has
    changed, the session, its store and its process are as they were. *)
Theorem stopTool_needs_statistics env sessionId w s store code message :
  sessions w !! sessionId = Some s ->
  trafficStores w !! sessionId = Some store ->
  fault (system w) OpStat (TrafficStore.jsonlPath store) = Some (code, message) ->
  code <> ENOENT ->
  let r := failure (JsError (Some code) message) in
  stopTool JSON_parse config env sessionId w = (Ok r, w)
  /\ reportedCode r = Some (codeName INTERNAL_ERROR).
Proof.
  intros Hs Ht Hf Hcode r. split; [|reflexivity].
  pose proof (reload_stat_refused JSON_parse store (system w) _ Hf) as E.
  cbn [fst] in E. apply String.eqb_neq in Hcode. rewrite Hcode in E.
  destruct (reload_Throw JSON_parse (fun _ => EmptyString) _ _ _ E) as (_ & _ & _ & Hstats).
  specialize (Hstats (Env.nowMs env)).
  unfold stopTool, getSession, tryCatch, gets. unfold bind at 1. rewrite Hs.
  unfold bind at 1. unfold onStore. rewrite Ht, Hstats.
  unfold ret, r, io_error. cbn [fst snd]. f_equal.
  destruct w. unfold set_trafficStores, set_system. simpl in *. f_equal.
  now apply insert_id.
Qed.

End ToolFacts.

(** ** The further properties on the example data *)

Lemma getStats_counts_witness :
  exists st,
    getStats Demo.parse 60500 (TrafficStore.create Demo.path, Demo.disk Demo.tenLines)
    = (Ok {| TrafficStats.totalEntries := 10; TrafficStats.totalRequestBytes := 0;
             TrafficStats.totalResponseBytes := 20; TrafficStats.entriesLast60s := 3 |}, st).
Proof.
  destruct (getStats_counts Demo.parse 60500 _ _ _ _ (demo_reload Demo.tenLines eq_refl))
    as (H & _).
  eexists. rewrite H. vm_compute. reflexivity.
Defined.

Lemma getEntry_first_match_witness :
  exists r st,
    getEntry Demo.parse "400" (TrafficStore.create Demo.path, Demo.disk Demo.tenLines)
    = (Ok r, st)
    /\ (HarEntry.id <$> (EntryResult.entry <$> r)) = Some "400".
Proof.
  destruct (getEntry_first_match Demo.parse "400" _ _ _ _ (demo_reload Demo.tenLines eq_refl))
    as ([found|] & H & Hr).
  - exists (Some found). eexists. split; [exact H|].
    destruct Hr as (_ & _ & _ & _ & _ & _ & _ & Hid & _). cbn [fmap option_fmap option_map].
    now rewrite Hid.
  - exfalso. apply (Hr (Demo.record 400 500)); [|vm_compute; reflexivity].
    cbn [TrafficStore.entries]. vm_compute. tauto.
Defined.

Lemma query_entries_resolvable_witness :
  exists found st,
    getEntry Demo.parse "700" st = (Ok (Some found), st)
    /\ HarEntry.id (EntryResult.entry found) = "700".
Proof.
  assert (E : exists r t1 y1 s,
             query Demo.parse (Demo.options 0 3)
               (TrafficStore.create Demo.path, Demo.disk Demo.tenLines) = (Ok r, (t1, y1))
             /\ In s (QueryResult.entries r) /\ Summary.id s = "700").
  { eexists _, _, _, _. split; [vm_compute; reflexivity|].
    split; [left; reflexivity|vm_compute; reflexivity]. }
  destruct E as (r & t1 & y1 & s & Hq & Hin & Hid).
  destruct (query_entries_resolvable Demo.parse _ _ _ _ _ _ s Hq Hin) as (found & Hg & Hf).
  exists found, (t1, y1). rewrite Hid in Hg, Hf. split; assumption.
Defined.

Lemma query_answers_from_cache_witness :
  exists r st, query Demo.parse (Demo.options 0 3) st = (Ok r, st) /\ QueryResult.total r = 10.
Proof.
  assert (E : exists r t1 y1,
             query Demo.parse (Demo.options 0 3)
               (TrafficStore.create Demo.path, Demo.disk Demo.tenLines) = (Ok r, (t1, y1))
             /\ QueryResult.total r = 10).
  { eexists _, _, _. split; [vm_compute; reflexivity|reflexivity]. }
  destruct E as (r & t1 & y1 & Hq & Ht).
  destruct (query_answers_from_cache _ _ _ _ _ _ _ Hq) as (H & _).
  exists r, (t1, y1). split; assumption.
Defined.

Lemma store_rethrows_io_errors_witness :
  getStats Demo.parse 0 (TrafficStore.create Demo.path, Demo.denied)
  = (Throw (JsError (Some "EACCES") "EACCES: permission denied, stat"),
     (TrafficStore.create Demo.path, Demo.denied)).
Proof.
  destruct (store_rethrows_io_errors Demo.parse Demo.stringify (TrafficStore.create Demo.path)
              Demo.denied "EACCES" "EACCES: permission denied, stat")
    as (_ & _ & _ & H).
  - left. reflexivity.
  - discriminate.
  - apply H.
Defined.

Lemma close_resets_store_witness :
  exists r st,
    (close;; initialize;; query Demo.parse (Demo.options 0 3))
      (Demo.stale, Demo.disk Demo.tenLines) = (Ok r, st)
    /\ length (TrafficStore.entries (fst st)) = 10%nat.
Proof.
  destruct (close_resets_store Demo.parse (Demo.options 0 3) Demo.stale
              (Demo.disk Demo.tenLines) (demo_healthy _ _))
    as (r & t1 & ya & yb & H1 & _ & _ & Hc).
  exists r, (t1, ya). split; [exact H1|]. cbn [fst].
  destruct (Hc Demo.tenLines ltac:(vm_compute; reflexivity)) as (_ & ->).
  vm_compute. reflexivity.
Defined.

Lemma clear_twice_witness :
  exists n st,
    clear Demo.parse Demo.stringify (Some 400)
      (TrafficStore.create Demo.path, Demo.disk Demo.tenLines) = (Ok n, st)
    /\ clear Demo.parse Demo.stringify (Some 400) st = (Ok 0, st).
Proof.
  apply (clear_twice Demo.parse Demo.stringify (Some 400) _ _ _ _
           (demo_reload Demo.tenLines eq_refl)); reflexivity.
Defined.

Lemma query_pages_concatenate_witness :
  exists total first second both st,
    query Demo.parse (withPage 1 2 (Demo.options 0 50))
      (TrafficStore.create Demo.path, Demo.disk Demo.tenLines)
    = (Ok {| QueryResult.entries := first; QueryResult.total := total |}, st)
    /\ query Demo.parse (withPage 3 3 (Demo.options 0 50))
         (TrafficStore.create Demo.path, Demo.disk Demo.tenLines)
       = (Ok {| QueryResult.entries := second; QueryResult.total := total |}, st)
    /\ query Demo.parse (withPage 1 5 (Demo.options 0 50))
         (TrafficStore.create Demo.path, Demo.disk Demo.tenLines)
       = (Ok {| QueryResult.entries := both; QueryResult.total := total |}, st)
    /\ both = first ++ second.
Proof.
  destruct (query_pages_concatenate Demo.parse (Demo.options 0 50) _ _ _ _ 1 2 3
              (demo_reload Demo.tenLines eq_refl))
    as (total & first & second & both & H1 & H2 & H3 & H4 & _); [lia..|].
  exists total, first, second, both. eexists.
  split; [exact H1|]. split; [exact H2|]. split; [exact H3|exact H4].
Defined.

Ltac distinct := apply (bool_decide_unpack (NoDup _)); vm_compute; exact I.

Lemma document_keys m : obj_get "mitm" Demo.document = Some (JObj m) -> NoDup (map fst m).
Proof. intros Hm. vm_compute in Hm. injection Hm as <-. distinct. Defined.

Lemma updateMitm_patches_properties_witness :
  exists d w',
    updateMitm Demo.config Demo.sid [("status", JStr "ready"); ("proxyPort", JUndefined)]
      Demo.idle = (Ok d, w')
    /\ published Demo.sid "status" w' = Some (JStr "ready")
    /\ published Demo.sid "proxyPort" w' = None.
Proof.
  assert (E : exists d w',
             updateMitm Demo.config Demo.sid
               [("status", JStr "ready"); ("proxyPort", JUndefined)] Demo.idle = (Ok d, w'))
    by (eexists _, _; vm_compute; reflexivity).
  destruct E as (d & w' & Hu).
  pose proof (updateMitm_patches_properties Demo.config Demo.sid _ Demo.idle d w'
                Demo.document Hu ltac:(vm_compute; reflexivity) ltac:(distinct)
                ltac:(vm_compute; reflexivity) document_keys) as H.
  exists d, w'. split; [exact Hu|]. split; [exact (H "status")|exact (H "proxyPort")].
Defined.

Lemma startProxy_checks_session_first_witness :
  startProxy Demo.config Demo.starts Demo.input Demo.unknown
  = (Throw (MitmError SESSION_NOT_FOUND
              "Session not found: s1. Create a session first with core.start_session()"
              [("sessionId", JStr "s1")]), Demo.unknown).
Proof.
  exact (startProxy_checks_session_first Demo.config Demo.starts Demo.input Demo.unknown
           I eq_refl).
Defined.

Lemma idle_healthy p : healthy (system Demo.idle) p.
Proof. intros op. reflexivity. Defined.

Lemma startProxy_ready_witness :
  exists s w',
    startProxy Demo.config Demo.starts Demo.input Demo.idle = (Ok s, w')
    /\ ProxySession.status s = ready
    /\ published Demo.sid "status" w' = Some (JStr "ready")
    /\ published Demo.sid "pid" w' = Some (JNum 4242).
Proof.
  destruct (startProxy_ready Demo.config Demo.starts Demo.input Demo.idle Demo.document
              8080 4242 I eq_refl eq_refl eq_refl (idle_healthy _)
              ltac:(vm_compute; reflexivity) eq_refl ltac:(vm_compute; reflexivity)
              ltac:(discriminate) eq_refl eq_refl)
    as (w' & H & _ & _ & _ & _ & _ & Hs & _ & _ & Hp & _).
  eexists _, w'. split; [exact H|]. split; [reflexivity|]. split; assumption.
Defined.

Lemma start_hangs_on_early_exit_witness :
  exists w',
    startProxy Demo.config (Demo.env (fun _ => true) (SpawnExited 4242 (Some 1) None))
      Demo.input Demo.idle = (Pending, w')
    /\ statusOf Demo.sid w' = Some starting.
Proof.
  destruct (start_hangs_on_early_exit Demo.config
              (Demo.env (fun _ => true) (SpawnExited 4242 (Some 1) None))
              Demo.input Demo.idle Demo.document 8080 4242 1 None
              I eq_refl eq_refl eq_refl (idle_healthy _)
              ltac:(vm_compute; reflexivity) eq_refl ltac:(vm_compute; reflexivity)
              ltac:(discriminate) eq_refl eq_refl)
    as (w' & H & Hs & _).
  exists w'. split; assumption.
Defined.

Lemma explicit_port_not_probed_witness :
  startProxy Demo.config (withAvailability (fun _ => false) Demo.starts) (Demo.onPort 9000)
    Demo.idle
  = startProxy Demo.config Demo.starts (Demo.onPort 9000) Demo.idle.
Proof.
  apply (explicit_port_not_probed Demo.config Demo.starts (fun _ => false) (Demo.onPort 9000)
           Demo.idle 9000); [reflexivity|discriminate].
Defined.

Lemma startProxy_error_codes_witness :
  exists e w',
    startProxy Demo.config Demo.starts Demo.input Demo.running = (Throw e, w')
    /\ exn_code e = Some PROXY_ALREADY_RUNNING
    /\ (hasCode startCodes e \/ fsError e \/ nullRead e)
    /\ w' = Demo.running.
Proof.
  assert (E : exists e w',
             startProxy Demo.config Demo.starts Demo.input Demo.running = (Throw e, w')
             /\ exn_code e = Some PROXY_ALREADY_RUNNING).
  { eexists _, _. split; [vm_compute; reflexivity|reflexivity]. }
  destruct E as (e & w' & Ht & Hc).
  destruct (startProxy_error_codes Demo.config Demo.starts Demo.input Demo.running e w'
              eq_refl Ht) as (Hcodes & Hsame).
  exists e, w'. split; [exact Ht|]. split; [exact Hc|]. split; [exact Hcodes|].
  now destruct (Hsame Hc).
Defined.


Lemma stopProxy_twice_witness :
  exists w',
    stopProxy Demo.config Demo.starts Demo.sid Demo.running = (Ok tt, w')
    /\ stopProxy Demo.config Demo.starts Demo.sid w'
       = (Throw (MitmError PROXY_NOT_RUNNING "No proxy running for session: s1"
                   [("sessionId", JStr "s1")]), w').
Proof.
  assert (E : exists w',
             stopProxy Demo.config Demo.starts Demo.sid Demo.running = (Ok tt, w'))
    by (eexists; vm_compute; reflexivity).
  destruct E as (w' & Hs).
  destruct (stopProxy_twice Demo.config Demo.parse Demo.starts Demo.sid Demo.running w' Hs
              Demo.starts) as (H & _).
  exists w'. split; [exact Hs|exact H].
Defined.

Lemma stop_runs_crash_handler_witness :
  exists r w',
    stopProxy Demo.config Demo.starts Demo.sid Demo.running = (r, w')
    /\ detached w'
       = [(Demo.sid, [("status", JStr "error");
                      ("error", JStr "Process exited with code null, signal SIGTERM")])].
Proof.
  destruct (stop_runs_crash_handler Demo.config Demo.starts Demo.sid Demo.running Demo.session
              4242 None (Some "SIGTERM") ltac:(vm_compute; reflexivity) eq_refl eq_refl
              ltac:(discriminate) ltac:(vm_compute; reflexivity)
              ltac:(vm_compute; reflexivity) eq_refl)
    as (r & w' & H & Hd & _).
  exists r, w'. split; [exact H|]. rewrite Hd. vm_compute. reflexivity.
Defined.

Lemma cleanup_releases_witness :
  exists w',
    cleanup Demo.config [(Demo.starts, Demo.sid)] Demo.running = (Ok tt, w')
    /\ trafficStores w' !! Demo.sid = None
    /\ Demo.sid ∉ sessionLogs w'.
Proof.
  destruct (cleanup_releases Demo.config [(Demo.starts, Demo.sid)] Demo.running)
    as (w' & H & _ & Hall).
  - apply NoDup_singleton.
  - intros env sessionId [[= <- <-]|[]]. exists Demo.session. vm_compute. reflexivity.
  - exists w'. split; [exact H|].
    destruct (Hall Demo.starts Demo.sid (or_introl eq_refl)) as (Hl & Ht & _).
    split; assumption.
Defined.

Lemma tool_error_codes_witness :
  exists r w',
    stopTool Demo.parse Demo.config Demo.starts Demo.sid Demo.idle = (Ok r, w')
    /\ ToolResponse.isError r = true
    /\ reports (INTERNAL_ERROR :: stopCodes) r.
Proof.
  assert (E : exists r w',
             stopTool Demo.parse Demo.config Demo.starts Demo.sid Demo.idle = (Ok r, w')
             /\ ToolResponse.isError r = true).
  { eexists _, _. split; [vm_compute; reflexivity|reflexivity]. }
  destruct E as (r & w' & Ht & Herr).
  destruct (tool_error_codes Demo.parse Demo.config Demo.starts Demo.sid "100" Demo.input
              Demo.idle r w' Herr) as (_ & _ & H & _).
  exists r, w'. split; [exact Ht|]. split; [exact Herr|exact (H Ht)].
Defined.

Lemma stopTool_needs_statistics_witness :
  stopTool Demo.parse Demo.config Demo.starts Demo.sid Demo.locked
  = (Ok (failure (JsError (Some "EACCES") "EACCES: permission denied, stat")), Demo.locked).
Proof.
  destruct (stopTool_needs_statistics Demo.parse Demo.config Demo.starts Demo.sid Demo.locked
              Demo.session (TrafficStore.create Demo.path) "EACCES"
              "EACCES: permission denied, stat")
    as (H & _).
  - vm_compute. reflexivity.
  - vm_compute. reflexivity.
  - reflexivity.
  - discriminate.
  - exact H.
Defined.
